(** * Gaussian-process surrogate utilities of holodeck ([gp_utils.py])

    A shallow embedding of the preprocessing, prior/likelihood, fitting,
    prediction and posterior-sampling code of [src/gp_utils.py], with the
    properties its specification states about it.

    Conventions of the embedding.
    - A NumPy [float64] is a primitive binary64 [float]; comparisons,
      products, quotients and square roots are the IEEE 754 operations, NaN
      included.  The transcendental functions of NumPy ([log], [log10],
      [exp], [10**x]), its reductions ([sum], [mean], [median], [std]), the
      SciPy smoother and the george / emcee libraries are not part of the
      repository: they are the fields of the interfaces [NumPy], [George]
      and [Emcee] below.
    - An n-dimensional array is a nested list; an array whose leading axis is
      empty does not record its trailing dimensions.
    - A Python exception is a value of [exn]; code that can raise returns a
      [result]; code that also prints or warns returns an [io].  Where the
      version of the interpreter shows, it is a parameter ([Python]).
    - An attribute of an object is [None] when it is [None] or absent; the
      object records which of its [None] attributes are absent.
    - A [str] is a string of ASCII characters.
    - Randomness is an explicit tape of draws.  The tasks of a process pool
      start from generator states of their own; the order in which its
      batches are done is a parameter, and what the workers print is listed
      batch by batch. *)

From stdpp Require Import base option list gmap strings pretty.
From Stdlib Require Import ZArith Floats Lia.

Set Warnings "-inexact-float".

(** ** Python run time: exceptions, results, output *)

(** [UnboundLocalError] is the subclass of [NameError] that a function
    raises for a local variable of its own; [NameError] below is an
    exception of the base class itself. *)
Inductive exn : Type :=
| ValueError (msg : string)
| IndexError (msg : string)
| TypeError (msg : string)
| OverflowError (msg : string)
| NameError (var : string)
| UnboundLocalError (var : string)
| AttributeError (name : string)
| LinAlgError.

Inductive result (A : Type) : Type :=
| Ok (a : A)
| Raise (e : exn).
Arguments Ok {A} a.
Arguments Raise {A} e.

#[global] Instance result_ret : MRet result := fun A a => Ok a.
#[global] Instance result_bind : MBind result := fun A B k m =>
  match m with
  | Ok a => k a
  | Raise e => Raise e
  end.

(** What a call writes besides its value: [print] lines and [warnings.warn]
    advisories, in program order. *)
Inductive event : Type :=
| Print (text : string)
| Warn (category : string) (message : string).

Definition io (A : Type) : Type := (list event * result A)%type.

Definition io_raise {A : Type} (e : exn) : io A := ([], Raise e).
Definition io_emit (ev : event) : io unit := ([ev], Ok tt).
Definition io_lift {A : Type} (r : result A) : io A := ([], r).

#[global] Instance io_mret : MRet io := fun A a => ([], Ok a).
#[global] Instance io_mbind : MBind io := fun A B k m =>
  match m with
  | (out, Ok a) => let '(out', r) := k a in (out ++ out', r)
  | (out, Raise e) => (out, Raise e)
  end.

(** The interpreter.  Up to CPython 3.11 a comprehension runs as a nested
    function, for which a variable of the enclosing function is a free
    variable; from CPython 3.12 on (PEP 709) it runs in the frame of the
    enclosing function. *)
Class Python := {
  inlined_comprehensions : bool;
}.

(** What reading a never-assigned variable of the enclosing function raises
    inside a comprehension. *)
Definition unbound_in_comprehension `{Python} (var : string) : exn :=
  if inlined_comprehensions then UnboundLocalError var else NameError var.

(** ** Strings *)

Definition nl : string := String (Ascii.ascii_of_nat 10) EmptyString.

(** [str.lower] on the ASCII range, where every kernel family name lives. *)
Definition ascii_lower (c : Ascii.ascii) : Ascii.ascii :=
  let n := Ascii.nat_of_ascii c in
  if (65 <=? n)%nat && (n <=? 90)%nat then Ascii.ascii_of_nat (n + 32) else c.

Fixpoint lower (s : string) : string :=
  match s with
  | EmptyString => EmptyString
  | String c s' => String (ascii_lower c) (lower s')
  end.

(** [sep.join(parts)] *)
Fixpoint join (sep : string) (parts : list string) : string :=
  match parts with
  | [] => EmptyString
  | [s] => s
  | s :: rest => s +:+ sep +:+ join sep rest
  end.

(** [s] occurs in [t] as a substring. *)
Definition occurs_in (s t : string) : Prop :=
  ∃ pre post, t = pre +:+ s +:+ post.

(** [l.index(v)]: position of the first element equal to [v]. *)
Fixpoint list_index (v : string) (l : list string) : option nat :=
  match l with
  | [] => None
  | s :: l' => if String.eqb s v then Some 0%nat else S <$> list_index v l'
  end.

(** ** binary64 values *)

Definition f64_geb (a b : float) : bool := (b <=? a)%float.
Definition f64_gtb (a b : float) : bool := (b <? a)%float.

(** A non-NaN binary64 value is placed in the order by a class (the
    infinities, the finite values by sign, zero), then by exponent, then by
    mantissa; both zeros share a key, NaN has none. *)
Definition fkey (f : spec_float) : option (Z * Z * Z) :=
  match f with
  | S754_nan => None
  | S754_infinity s => Some (if s then (-2)%Z else 2%Z, 0%Z, 0%Z)
  | S754_zero _ => Some (0%Z, 0%Z, 0%Z)
  | S754_finite s m e =>
      Some (if s then ((-1)%Z, (- e)%Z, (- Z.pos m)%Z) else (1%Z, e, Z.pos m))
  end.

Definition key_of (v : float) : option (Z * Z * Z) := fkey (Prim2SF v).

Definition key_lt (a b : Z * Z * Z) : Prop :=
  (a.1.1 < b.1.1 ∨
   a.1.1 = b.1.1 ∧ (a.1.2 < b.1.2 ∨ a.1.2 = b.1.2 ∧ a.2 < b.2))%Z.

#[global] Instance key_lt_dec (a b : Z * Z * Z) : Decision (key_lt a b).
Proof. unfold key_lt. apply _. Defined.

Definition key_ltb (a b : option (Z * Z * Z)) : bool :=
  match a, b with
  | Some ka, Some kb => bool_decide (key_lt ka kb)
  | _, _ => false
  end.

Definition key_leb (a b : option (Z * Z * Z)) : bool :=
  match a, b with
  | Some ka, Some kb => bool_decide (¬ key_lt kb ka)
  | _, _ => false
  end.

(** Not negative: a zero of either sign, a positive finite value or [+inf];
    NaN is let through. *)
Definition sf_nonneg (f : spec_float) : Prop :=
  match f with
  | S754_zero _ | S754_nan => True
  | S754_infinity s | S754_finite s _ _ => s = false
  end.

(** [float(n)] for a Python [int]: the nearest binary64, [OverflowError]
    beyond the range. *)
Definition float_of_int (n : Z) : result float :=
  let f := SF2Prim (binary_normalize prec emax n 0 false) in
  if is_infinity f then Raise (OverflowError "int too large to convert to float")
  else Ok f.

(** [int(f)]: truncation toward zero; NaN and the infinities raise. *)
Definition int_of_float (f : float) : result Z :=
  match Prim2SF f with
  | S754_zero _ => Ok 0%Z
  | S754_nan => Raise (ValueError "cannot convert float NaN to integer")
  | S754_infinity _ =>
      Raise (OverflowError "cannot convert float infinity to integer")
  | S754_finite s m e =>
      let mag := if (0 <=? e)%Z then Z.shiftl (Z.pos m) e
                 else Z.shiftr (Z.pos m) (- e) in
      Ok (if s then (- mag)%Z else mag)
  end.

(** [int(n * f)] with [n] a Python [int] and [f] a [float]. *)
Definition int_of_scaled (n : Z) (f : float) : result Z :=
  nf ← float_of_int n; int_of_float (nf * f)%float.

(** ** NumPy on nested lists *)

(** Element-wise binary operation on two 1-d arrays with NumPy's
    broadcasting: equal lengths pair up, a length-one operand is stretched,
    anything else is a [ValueError]. *)
Definition np_broadcast {A : Type} (f : float -> float -> A)
    (a b : list float) : result (list A) :=
  if decide (length a = length b) then Ok (zip_with f a b)
  else match a, b with
       | [u], _ => Ok (map (f u) b)
       | _, [v] => Ok (map (fun u => f u v) a)
       | _, _ => Raise (ValueError "operands could not be broadcast together")
       end.

(** [np.all] of a boolean array. *)
Definition np_all (l : list bool) : bool := forallb id l.
(** [np.any] of a boolean array. *)
Definition np_any (l : list bool) : bool := existsb id l.

(** [np.full(n, v)] *)
Definition np_full (n : nat) (v : float) : list float := replicate n v.

(** [np.argmax] of a 1-d array: the first index holding the maximum, a NaN
    counting as larger than everything; [ValueError] on an empty array.
    [argmax_from mp best i rest] scans the elements after position [i - 1]
    with current maximum [mp] found at [best]. *)
Fixpoint argmax_from (mp : float) (best i : nat) (rest : list float) : nat :=
  match rest with
  | [] => best
  | v :: rest' =>
      if is_nan mp then best
      else if negb (v <=? mp)%float then argmax_from v i (S i) rest'
      else argmax_from mp best (S i) rest'
  end.

Definition np_argmax (a : list float) : result nat :=
  match a with
  | [] => Raise (ValueError "attempt to get argmax of an empty sequence")
  | v :: rest => Ok (argmax_from v 0 1 rest)
  end.

(** [best] is the first index at which [a] takes its largest value. *)
Definition is_argmax (a : list float) (best : nat) : Prop :=
  ∃ top, a !! best = Some top ∧
         ∀ j v, a !! j = Some v →
                (v <=? top)%float = true ∧
                ((j < best)%nat → (v <? top)%float = true).

(** [a[i]] for a Python [int] index: negative indices count from the end. *)
Definition py_index {A : Type} (a : list A) (i : Z) : result A :=
  let n := Z.of_nat (length a) in
  let j := if (i <? 0)%Z then (n + i)%Z else i in
  if (j <? 0)%Z || (n <=? j)%Z then Raise (IndexError "index out of range")
  else match a !! Z.to_nat j with
       | Some v => Ok v
       | None => Raise (IndexError "index out of range")
       end.

(** Where a slice bound lands in a sequence of length [n]. *)
Definition slice_bound (n : nat) (i : Z) : nat :=
  let j := if (i <? 0)%Z then (Z.of_nat n + i)%Z else i in
  Z.to_nat (Z.max 0 (Z.min (Z.of_nat n) j)).

(** [a[start:]] *)
Definition slice_from {A : Type} (a : list A) (start : Z) : list A :=
  drop (slice_bound (length a) start) a.
(** [a[:stop]] *)
Definition slice_to {A : Type} (a : list A) (stop : Z) : list A :=
  take (slice_bound (length a) stop) a.

(** The columns of a 2-d array (reduction along axis 0 works on these). *)
Definition columns (rows : list (list float)) : list (list float) :=
  match rows with
  | [] => []
  | r :: _ => map (fun j => omap (fun row => row !! j) rows) (seq 0 (length r))
  end.

(** ** Libraries outside the repository *)

(** A generator state of [np.random]: an unbounded tape of raw draws. *)
Definition rng : Type := nat -> nat.

(** [np.random.randint(high, size=size)]: [size] indices below [high], read
    off the tape.  An empty request is answered with the empty array before
    the bounds are looked at; otherwise [ValueError] when there is nothing
    to draw from. *)
Definition np_random_randint (high size : nat) (g : rng)
    : result (list nat * rng) :=
  if decide (size = 0%nat) then Ok ([], g)
  else if decide (high = 0%nat) then Raise (ValueError "high <= 0")
  else Ok (map (fun i => g i `mod` high)%nat (seq 0 size),
           fun i => g (size + i)%nat).

Class NumPy := {
  np_log : float -> float;
  np_log10 : float -> float;
  np_exp : float -> float;
  (** [10 ** v] *)
  np_pow10 : float -> float;
  np_sum : list float -> float;
  np_mean : list float -> float;
  np_median : list float -> float;
  np_std : list float -> float;
  (** [np.random.randn(n)] *)
  np_random_randn : nat -> rng -> list float * rng;
}.

Class SciPy := {
  (** [scipy.signal.savgol_filter(row, window_length, polyorder)] on one
      row; on a 2-d array the filter runs along the last axis, row by row. *)
  savgol_filter : list float -> nat -> nat -> result (list float);
}.

Class George := {
  (** a [george.GP] object *)
  GP : Type;
  (** names of [kernels.Kernel.__subclasses__()], in the library's order *)
  kernel_list : list string;
  (** [george.GP(a * getattr(kernels, kernel)(tau, ndim=len(tau)))], then
      [compute(x, yerr)], then [lnlikelihood(y, quiet=True)] *)
  gp_lnlikelihood :
    string -> float -> list float ->
    list (list float) -> option (list float) -> list float -> result float;
  (** [gp.predict(y, [env_pars])] at the single query point: the predicted
      mean and the one entry of [np.diag(cov_pred)] *)
  gp_predict : GP -> list float -> list float -> result (float * float);
  (** [gp.set_parameter_vector(sample)] *)
  gp_set_parameter_vector : GP -> list float -> result GP;
  (** [gp.sample_conditional(y, [env_pars])]: one draw at the query point *)
  gp_sample_conditional :
    GP -> list float -> list float -> rng -> result float * rng;
}.

(** ** The per-frequency model: class [GaussProc] *)

Module GaussProc.

(** The attributes of a [GaussProc] object.  [None] is an attribute that is
    [None] or absent: [getattr(obj, name, None)] does not tell the two
    apart, [getattr(obj, name)] does.  [missing] names those of the [None]
    attributes below that the object does not have at all: [mean_spectra]
    on every object the constructor builds, which never assigns it, and
    whatever an object unpickled from an older version lacks. *)
Record t : Type := {
  x : list (list float);
  y : list float;
  yerr : option (list float);
  par_dict : gmap string (float * float);
  kernel : string;
  pmax : list float;
  pmin : list float;
  emcee_flatchain : option (list (list float));
  emcee_flatlnprob : option (list float);
  emcee_kernel_map : option (list float);
  center_spectra : option float;
  kernel_map : option (list float);
  chain : option (list (list float));
  mean_spectra : option float;
  missing : list string;
}.

Section Methods.
Context `{NumPy} `{George}.

(** What the [except ValueError] branch of the constructor prints. *)
Definition unexpected_kernel_report (kernel : string) : list event :=
  [ Print ("Unexpected kernel '" +:+ kernel +:+ "'.");
    Print (join nl (("Acceptable values are:" +:+ nl) :: kernel_list)) ].

(** [GaussProc.__init__(x, y, yerr, par_dict, kernel)]; [par_dict]
    defaults to [None], of which [len] is a [TypeError]. *)
Definition __init__ (x : list (list float)) (y : list float)
    (yerr : option (list float))
    (par_dict : option (gmap string (float * float)))
    (kernel : string) : io t :=
  let kernel_lcase := map lower kernel_list in
  match list_index (lower kernel) kernel_lcase with
  | None =>
      (unexpected_kernel_report kernel,
       Raise (ValueError ("'" +:+ lower kernel +:+ "' is not in list")))
  | Some i =>
      match kernel_list !! i, par_dict with
      | None, _ => io_raise (IndexError "list index out of range")
      | Some _, None =>
          io_raise (TypeError "object of type 'NoneType' has no len()")
      | Some name, Some d =>
          mret {| x := x; y := y; yerr := yerr; par_dict := d;
                  kernel := name;
                  pmax := np_full (size d + 1) 20%float;
                  pmin := np_full (size d + 1) (-20)%float;
                  emcee_flatchain := None;
                  emcee_flatlnprob := None;
                  emcee_kernel_map := None;
                  center_spectra := None;
                  kernel_map := None;
                  chain := None;
                  mean_spectra := None;
                  missing := ["mean_spectra"] |}
      end
  end.

(** [GaussProc.lnprior(p)] *)
Definition lnprior (self : t) (p : list float) : result float :=
  below ← np_broadcast PrimFloat.leb p (pmax self);
  if np_all below then
    above ← np_broadcast f64_geb p (pmin self);
    if np_all above then
      width ← np_broadcast PrimFloat.sub (pmax self) (pmin self);
      mret (np_sum (map np_log (map (fun w => 1 / w)%float width)))
    else mret neg_infinity
  else mret neg_infinity.

(** [GaussProc.lnlike(p)] *)
Definition lnlike (self : t) (p : list float) : result float :=
  p0 ← py_index p 0;
  let a := np_exp p0 in
  let tau := map np_exp (slice_from p 1) in
  match gp_lnlikelihood (kernel self) a tau (x self) (yerr self) (y self) with
  | Raise LinAlgError => mret neg_infinity
  | r => r
  end.

(** [GaussProc.lnprob(p)] *)
Definition lnprob (self : t) (p : list float) : result float :=
  lp ← lnprior self p;
  ll ← lnlike self p;
  mret (lp + ll)%float.

End Methods.
End GaussProc.

(** ** The input corpus *)

(** The HDF5 library of simulated spectra: an ensemble indexed
    [sample][frequency][realization], the frequency axis, the table of
    parameter samples indexed [sample][parameter], and the ordered parameter
    names of the metadata. *)
Record Spectra : Type := {
  gwb : list (list (list float));
  fobs : list float;
  sample_params : list (list float);
  param_names : list string;
}.

(** [holodeck.constants], which the repository keeps in another file. *)
Class Constants := {
  YR : float;
}.

(** ** Spectrum preprocessor and parameter extractor *)

Section Preprocessing.
Context `{NumPy} `{SciPy} `{Constants}.

(** [v ** 2] on a [float64] array element *)
Definition square (v : float) : float := (v * v)%float.

(** One element of [gwb_spectra] under
    [gwb_spectra[np.where((gwb_spectra < 1e-40) | np.isnan(gwb_spectra))] = 1e-40] *)
Definition clamp (v : float) : float :=
  if (v <? 1e-40)%float || is_nan v then 1e-40%float else v.

(** [spectra["gwb"][test_ind:, :nfreqs, :]**2] followed by the flooring
    assignment: the array every later logarithm reads. *)
Definition floored_spectra (spectra : Spectra) (nfreqs test_ind : Z)
    : list (list (list float)) :=
  let gwb_spectra :=
    map (fun sample => map (map square) (slice_to sample nfreqs))
        (slice_from (gwb spectra) test_ind) in
  map (map (map clamp)) gwb_spectra.

(** The [if ... "median" / elif ... "mean" / else: raise] dispatch that
    [get_smoothed_gwb] writes out twice. *)
Definition center_stat (center_measure : string)
    : result (list float -> float) :=
  if String.eqb (lower center_measure) "median" then Ok np_median
  else if String.eqb (lower center_measure) "mean" then Ok np_mean
  else Raise (ValueError ("`center_measure` must be 'mean' or 'median', not '"
                          +:+ center_measure +:+ "'")).

(** [row -= c] for one row of [yobs -= yobs_center[None, :]]. *)
Definition np_isub (row c : list float) : result (list float) :=
  if decide (length row = length c) then Ok (zip_with PrimFloat.sub row c)
  else match c with
       | [v] => Ok (map (fun u => u - v)%float row)
       | _ => Raise (ValueError "operands could not be broadcast together")
       end.

(** [get_smoothed_gwb(spectra, nfreqs, test_frac, center_measure)]:
    [(gp_freqs, yerr, yobs, yobs_center)]. *)
Definition get_smoothed_gwb (spectra : Spectra) (nfreqs : Z)
    (test_frac : float) (center_measure : string)
    : io (list float * list (list float) * list (list float) * list float) :=
  test_ind ← io_lift (int_of_scaled (Z.of_nat (length (gwb spectra))) test_frac);
  let gwb_spectra := floored_spectra spectra nfreqs test_ind in
  stat ← io_lift (center_stat center_measure);
  let center := map (map (fun reals => np_log10 (stat reals))) gwb_spectra in
  smooth_center ← io_lift (mapM (fun row => savgol_filter row 7 3) center);
  let err := map (map (fun reals => np_std (map np_log10 reals))) gwb_spectra in
  _ ← (if np_any (map is_nan (concat err))
       then io_emit (Print "Got a NAN issue") else mret tt);
  let yobs := smooth_center in
  let yerr := err in
  let gp_freqs := map (fun f => f * YR)%float (slice_to (fobs spectra) nfreqs) in
  stat0 ← io_lift (center_stat center_measure);
  let yobs_center := map stat0 (columns yobs) in
  yobs ← io_lift (mapM (fun row => np_isub row yobs_center) yobs);
  mret (gp_freqs, yerr, yobs, yobs_center).

(** [xobs[ii, k] = spectra["sample_params"][ii + test_ind, k]] for one [ii] *)
Definition parameter_row (spectra : Spectra) (test_ind : Z) (ii : nat)
    : result (list float) :=
  mapM (fun k : nat =>
          row ← py_index (sample_params spectra) (Z.of_nat ii + test_ind);
          py_index row (Z.of_nat k))
       (seq 0 (length (param_names spectra))).

(** [get_parameter_values(spectra, test_frac)] *)
Definition get_parameter_values (spectra : Spectra) (test_frac : float)
    : result (list (list float)) :=
  let total := Z.of_nat (length (gwb spectra)) in
  test_ind ← int_of_scaled total test_frac;
  let pars := param_names spectra in
  nrows ← (if (total - test_ind <? 0)%Z
           then Raise (ValueError "negative dimensions are not allowed")
           else Ok (Z.to_nat (total - test_ind)));
  xobs ← mapM (parameter_row spectra test_ind) (seq 0 nrows);
  match list_index "mmb_amp" pars with
  | Some idx =>
      if np_any (map (fun row => from_option (fun v => f64_gtb v 100) false
                                             (row !! idx)) xobs)
      then mret (map (alter np_log10 idx) xobs)
      else mret xobs
  | None => mret xobs
  end.

End Preprocessing.

(** ** Kernel fitter *)

(** Code that draws random numbers, prints and can raise. *)
Definition rio (A : Type) : Type := rng -> io (A * rng).

#[global] Instance rio_mret : MRet rio := fun A a g => mret (a, g).
#[global] Instance rio_mbind : MBind rio := fun A B k m g =>
  mbind (M := io) (fun '(a, g') => k a g') (m g).

Definition rio_lift {A : Type} (r : result A) : rio A :=
  fun g => io_lift (a ← r; mret (a, g)).
Definition rio_emit (ev : event) : rio unit :=
  fun g => (_ ← io_emit ev; mret (tt, g)).
Definition rio_draw {A : Type} (draw : rng -> A * rng) : rio A :=
  fun g => mret (draw g).
Definition rio_try {A : Type} (draw : rng -> result A * rng) : rio A :=
  fun g => let '(r, g') := draw g in io_lift (a ← r; mret (a, g')).

(** [seq[i]] for an index that a [range] produced. *)
Definition item {A : Type} (l : list A) (i : nat) : result A :=
  match l !! i with
  | Some v => Ok v
  | None => Raise (IndexError "index out of range")
  end.

(** [multiprocessing.Pool(processes)] accepts only a positive count. *)
Definition Pool (processes : Z) : result unit :=
  if (processes <? 1)%Z
  then Raise (ValueError "Number of processes must be at least 1")
  else Ok tt.

Class Emcee := {
  (** an [emcee.EnsembleSampler] with the chain it has accumulated *)
  EnsembleSampler : Type;
  (** [emcee.EnsembleSampler(nwalkers, ndim, lnprob, pool=pool)] *)
  sampler_new :
    nat -> nat -> (list float -> result float) -> result EnsembleSampler;
  (** [sampler.run_mcmc(p0, N)]: the sampler afterwards, the final walker
      positions and their log-posterior values *)
  run_mcmc :
    EnsembleSampler -> list (list float) -> Z -> rng ->
    result (EnsembleSampler * list (list float) * list float) * rng;
  (** [sampler.reset()] *)
  reset : EnsembleSampler -> EnsembleSampler;
  flatchain : EnsembleSampler -> list (list float);
  flatlnprobability : EnsembleSampler -> list float;
}.

Section Fitting.
Context `{NumPy} `{George} `{Emcee}.

(** [[base + scale * np.random.randn(ndim) for _ in range(nwalkers)]] *)
Definition perturbed (base : list float) (scale : float)
    (ndim nwalkers : nat) : rio (list (list float)) :=
  mapM (fun _ : nat =>
          noise ← rio_draw (np_random_randn ndim);
          rio_lift (np_broadcast PrimFloat.add base
                      (map (fun v => scale * v)%float noise)))
       (seq 0 nwalkers).

(** The body of the sampling loop of [fit_kernel_params] for one
    [freq_ind]: the value left in [sampler[freq_ind]].  The elapsed time
    of the closing progress line is not modelled. *)
Definition sample_frequency (gp_freqs : list float)
    (gp_george : list GaussProc.t) (ndim nwalkers : nat) (nsamples : Z)
    (burn_frac : float) (cpu_count : nat) (freq_ind : nat)
    : rio EnsembleSampler :=
  _ ← rio_lift (Pool (Z.of_nat (Nat.min (nwalkers / 2) cpu_count)));
  gp ← rio_lift (item gp_george freq_ind);
  s ← rio_lift (sampler_new nwalkers ndim (GaussProc.lnprob gp));
  p0 ← perturbed (map np_log (np_full ndim 1%float)) 1e-4%float ndim nwalkers;
  _ ← rio_emit (Print (pretty freq_ind +:+ " Running burn-in"));
  nburn ← rio_lift (int_of_scaled nsamples burn_frac);
  '(s, p0, lnp) ← rio_try (run_mcmc s p0 nburn);
  let s := reset s in
  _ ← rio_emit (Print (pretty freq_ind +:+ " Running second burn-in"));
  best ← rio_lift (np_argmax lnp);
  p ← rio_lift (item p0 best);
  p0 ← perturbed p 1e-8%float ndim nwalkers;
  nburn ← rio_lift (int_of_scaled nsamples burn_frac);
  '(s, p0, _) ← rio_try (run_mcmc s p0 nburn);
  let s := reset s in
  _ ← rio_emit (Print (pretty freq_ind +:+ " Running production"));
  '(s, p0, _) ← rio_try (run_mcmc s p0 nsamples);
  _ ← rio_emit (Print ("Completed " +:+ pretty freq_ind +:+ " out of "
                       +:+ pretty (Z.of_nat (length gp_freqs) - 1)%Z));
  mret s.

(** The attributes that the closing loop of [fit_kernel_params] assigns. *)
Definition fit_attributes : list string :=
  ["emcee_flatchain"; "emcee_flatlnprob"; "emcee_kernel_map"; "center_spectra"].

(** The four attribute assignments of the closing loop on one model. *)
Definition store_fit (gp : GaussProc.t) (chain : list (list float))
    (lnprob : list float) (kernel_map : list float) (center : float)
    : GaussProc.t :=
  {| GaussProc.x := GaussProc.x gp;
     GaussProc.y := GaussProc.y gp;
     GaussProc.yerr := GaussProc.yerr gp;
     GaussProc.par_dict := GaussProc.par_dict gp;
     GaussProc.kernel := GaussProc.kernel gp;
     GaussProc.pmax := GaussProc.pmax gp;
     GaussProc.pmin := GaussProc.pmin gp;
     GaussProc.emcee_flatchain := Some chain;
     GaussProc.emcee_flatlnprob := Some lnprob;
     GaussProc.emcee_kernel_map := Some kernel_map;
     GaussProc.center_spectra := Some center;
     GaussProc.kernel_map := GaussProc.kernel_map gp;
     GaussProc.chain := GaussProc.chain gp;
     GaussProc.mean_spectra := GaussProc.mean_spectra gp;
     GaussProc.missing :=
       filter (fun name => name ∉ fit_attributes) (GaussProc.missing gp) |}.

(** One pass of the closing loop of [fit_kernel_params]: the list of models
    after the assignments to [gp_george[ii]]. *)
Definition populate_one (yobs_center : list float)
    (sampler : list EnsembleSampler) (gp_george : list GaussProc.t)
    (ii : nat) : result (list GaussProc.t) :=
  s ← item sampler ii;
  gp ← item gp_george ii;
  best ← np_argmax (flatlnprobability s);
  kernel_map ← item (flatchain s) best;
  center ← item yobs_center ii;
  mret (<[ii := store_fit gp (flatchain s) (flatlnprobability s)
                  kernel_map center]> gp_george).

(** [for ii in range(len(gp_freqs)): ...], the closing loop. *)
Fixpoint populate (yobs_center : list float)
    (sampler : list EnsembleSampler) (gp_george : list GaussProc.t)
    (indices : list nat) : result (list GaussProc.t) :=
  match indices with
  | [] => mret gp_george
  | ii :: rest =>
      gp_george' ← populate_one yobs_center sampler gp_george ii;
      populate yobs_center sampler gp_george' rest
  end.

(** [fit_kernel_params(gp_freqs, yobs_center, gp_george, nkpars, nwalkers,
    nsamples, burn_frac)]: the models as the call leaves them.  The models
    of [gp_george] are distinct objects. *)
Definition fit_kernel_params (gp_freqs yobs_center : list float)
    (gp_george : list GaussProc.t) (nkpars nwalkers : nat) (nsamples : Z)
    (burn_frac : float) (cpu_count : nat) : rio (list GaussProc.t) :=
  let ndim := nkpars in
  sampler ← mapM (sample_frequency gp_freqs gp_george ndim nwalkers nsamples
                    burn_frac cpu_count)
                 (seq 0 (length gp_freqs));
  rio_lift (populate yobs_center sampler gp_george (seq 0 (length gp_freqs))).

End Fitting.

(** ** Predictor and posterior sampler *)

(** A NumPy array of rank one or two, with its shape. *)
Inductive ndarray : Type :=
| Arr1 (v : list float)
| Arr2 (nrows ncols : nat) (rows : list (list float)).

Definition np_shape (a : ndarray) : list nat :=
  match a with
  | Arr1 v => [length v]
  | Arr2 nrows ncols _ => [nrows; ncols]
  end.

(** [a[s, f]] of a rank-two array, for indices that are not negative. *)
Definition np_item2 (a : ndarray) (s f : nat) : option float :=
  match a with
  | Arr1 _ => None
  | Arr2 _ _ rows => rows !! s ≫= (fun row => row !! f)
  end.

(** The nested list of a rank-two array agrees with its shape. *)
Definition well_shaped (a : ndarray) : Prop :=
  match a with
  | Arr1 _ => True
  | Arr2 nrows ncols rows =>
      length rows = nrows ∧ Forall (fun r => length r = ncols) rows
  end.

(** [np.array(rows)] for a list of 1-d arrays: rank two when there is a row
    and all rows are as long as the first, rank one for the empty list. *)
Definition np_array (rows : list (list float)) : result ndarray :=
  match rows with
  | [] => Ok (Arr1 [])
  | r :: _ =>
      if forallb (fun r' => Nat.eqb (length r') (length r)) rows
      then Ok (Arr2 (length rows) (length r) rows)
      else Raise (ValueError "inhomogeneous shape")
  end.

(** [a.T] *)
Definition np_T (a : ndarray) : ndarray :=
  match a with
  | Arr1 v => Arr1 v
  | Arr2 nrows ncols rows =>
      Arr2 ncols nrows
           (map (fun j => omap (fun row => row !! j) rows) (seq 0 ncols))
  end.

(** [np.zeros(n)] *)
Definition np_zeros (n : Z) : result (list float) :=
  if (n <? 0)%Z then Raise (ValueError "negative dimensions are not allowed")
  else Ok (replicate (Z.to_nat n) 0%float).

Section Prediction.
Context `{Python} `{NumPy} `{George}.

(** The backward-compatibility lookup of the attribute that holds the
    removed center; [None] leaves [center_attr] unbound. *)
Definition center_attr_of (gp : GaussProc.t) : option string :=
  match GaussProc.center_spectra gp with
  | Some _ => Some "center_spectra"
  | None =>
      match GaussProc.mean_spectra gp with
      | Some _ => Some "mean_spectra"
      | None => None
      end
  end.

(** [getattr(gp, name)] for one of the two center attributes: its value,
    [None] included; [AttributeError] when the object has no such
    attribute. *)
Definition getattr_center (gp : GaussProc.t) (name : string)
    : result (option float) :=
  let v := if String.eqb name "center_spectra"
           then GaussProc.center_spectra gp
           else GaussProc.mean_spectra gp in
  match v with
  | Some c => Ok (Some c)
  | None =>
      if bool_decide (name ∈ GaussProc.missing gp)
      then Raise (AttributeError name)
      else Ok None
  end.

(** A center as an operand of [+]. *)
Definition as_number (v : option float) : result float :=
  match v with
  | Some c => Ok c
  | None => Raise (TypeError "unsupported operand type(s) for +: 'NoneType'")
  end.

(** [getattr(gp, center_attr)] used as a number, where [center_attr] is
    read in the body of the function. *)
Definition get_center (gp : GaussProc.t) (center_attr : option string)
    : result float :=
  match center_attr with
  | None => Raise (UnboundLocalError "center_attr")
  | Some name => v ← getattr_center gp name; as_number v
  end.

(** [np.array(centers) + b] for a list of numbers and [None]s: the shapes
    are matched first; with a [None] in the list the array holds objects,
    and adding a number to [None] is a [TypeError]. *)
Definition np_add_object (centers : list (option float)) (b : list float)
    : result (list float) :=
  let add (c : option float) (m : float) : result float :=
    c' ← as_number c; mret (c' + m)%float in
  if decide (length centers = length b)
  then mapM (fun cm : option float * float => add cm.1 cm.2) (zip centers b)
  else match centers, b with
       | [c], _ => mapM (add c) b
       | _, [m] => mapM (fun c => add c m) centers
       | _, _ => Raise (ValueError "operands could not be broadcast together")
       end.

(** The row [rho_pred[ii]] that [hc_from_gp] stores for a predicted mean
    and variance. *)
Definition rho_pred_row (mu_pred cov_pred : float) : float * float :=
  if (cov_pred <? 0)%float then (mu_pred, (1e-5 * mu_pred)%float)
  else (mu_pred, sqrt cov_pred).

(** [hc_from_gp(gp_george, gp_list, env_pars)]: [(hc, rho, rho_pred)].
    The centers are collected by a list comprehension, in which
    [center_attr] is read. *)
Definition hc_from_gp (gp_george : list GaussProc.t) (gp_list : list GP)
    (env_pars : list float)
    : result (list float * list float * list (float * float)) :=
  rho_pred ← mapM (fun ii : nat =>
                     g ← item gp_list ii;
                     gp ← item gp_george ii;
                     '(mu_pred, cov_pred) ← gp_predict g (GaussProc.y gp) env_pars;
                     mret (rho_pred_row mu_pred cov_pred))
                  (seq 0 (length gp_george));
  gp0 ← item gp_george 0;
  let center_attr := center_attr_of gp0 in
  centers ← mapM (fun ii : nat =>
                    gp ← item gp_george ii;
                    name ← match center_attr with
                           | Some name => Ok name
                           | None =>
                               Raise (unbound_in_comprehension "center_attr")
                           end;
                    getattr_center gp name)
                 (seq 0 (length gp_list));
  rho ← np_add_object centers (map fst rho_pred);
  let hc := map (fun r => sqrt (np_pow10 r)) rho in
  mret (hc, rho, rho_pred).

(** The attribute name that [_sample_hc_from_gp_helper] binds to
    [chain_var]; [None] leaves the variable unbound. *)
Definition chain_var_of (gp : GaussProc.t) : option string :=
  match GaussProc.chain gp with
  | Some _ => Some "chain"
  | None =>
      match GaussProc.emcee_flatchain gp with
      | Some _ => Some "emcee_flatchain"
      | None => None
      end
  end.

(** [getattr(gp, chain_var)] *)
Definition get_chain (gp : GaussProc.t) (chain_var : option string)
    : result (list (list float)) :=
  match chain_var with
  | None => Raise (UnboundLocalError "chain_var")
  | Some name =>
      let v := if String.eqb name "chain" then GaussProc.chain gp
               else GaussProc.emcee_flatchain gp in
      match v with
      | Some c => Ok c
      | None =>
          if bool_decide (name ∈ GaussProc.missing gp)
          then Raise (AttributeError name)
          else Raise (TypeError "object of type 'NoneType' has no len()")
      end
  end.

(** A model the sampler can use: its chain attribute resolves to a chain
    that is not empty, its center attribute to a number. *)
Definition fitted_model (gp : GaussProc.t) : Prop :=
  ∃ c center,
    get_chain gp (chain_var_of gp) = Ok c ∧ c ≠ [] ∧
    get_center gp (center_attr_of gp) = Ok center.

(** The sampling loop of the helper: [left] pairs each remaining
    [samp_ind] with its chain row; the george model and [hc] are updated
    in place from one pass to the next. *)
Fixpoint sample_loop (gp_george_at_freq : GaussProc.t)
    (center_attr : option string) (env_pars : list float)
    (left : list (nat * list float)) (gp_at_freq : GP) (hc : list float)
    : rio (list float) :=
  match left with
  | [] => mret hc
  | (samp_ind, sample) :: rest =>
      gp_at_freq ← rio_lift (gp_set_parameter_vector gp_at_freq sample);
      rho_sample ← rio_try (gp_sample_conditional gp_at_freq
                              (GaussProc.y gp_george_at_freq) env_pars);
      center ← rio_lift (get_center gp_george_at_freq center_attr);
      let rho := (center + rho_sample)%float in
      sample_loop gp_george_at_freq center_attr env_pars rest gp_at_freq
                  (<[samp_ind := sqrt (np_pow10 rho)]> hc)
  end.

(** [_sample_hc_from_gp_helper(gp_at_freq, gp_george_at_freq, env_pars,
    nsamples)]; the caller passes the george model first and the
    [GaussProc] second. *)
Definition _sample_hc_from_gp_helper (gp_at_freq : GP)
    (gp_george_at_freq : GaussProc.t) (env_pars : list float) (nsamples : Z)
    : rio (list float) :=
  let chain_var := chain_var_of gp_george_at_freq in
  _ ← (if chain_var is None
       then rio_emit (Print "Chains are not saved!") else mret tt);
  samples ← rio_lift (get_chain gp_george_at_freq chain_var);
  hc ← rio_lift (np_zeros nsamples);
  let center_attr := center_attr_of gp_george_at_freq in
  picks ← rio_try (fun g =>
             match np_random_randint (length samples) (Z.to_nat nsamples) g with
             | Ok (idx, g') => (Ok idx, g')
             | Raise e => (Raise e, g)
             end);
  drawn ← rio_lift (mapM (item samples) picks);
  sample_loop gp_george_at_freq center_attr env_pars
              (imap pair drawn) gp_at_freq hc.

(** The advisory of [sample_hc_from_gp]. *)
Definition few_samples_warning : event :=
  Warn "UserWarning"
       "Variance recovery doesn't usually saturate unless nsamples >= 100. Consider a higher number of smamples!".

(** [Pool._map_async]: the chunk size that [starmap] picks for [n] tasks
    and [processes] workers. *)
Definition map_chunksize (n processes : nat) : nat :=
  if (n =? 0)%nat then 0%nat
  else (n / (processes * 4)
        + (if (n mod (processes * 4) =? 0)%nat then 0 else 1))%nat.

(** [MapResult]: the number of batches of [size] tasks that [n] tasks
    make. *)
Definition number_of_batches (n size : nat) : nat :=
  if (size =? 0)%nat then 0%nat
  else (n / size + (if (n mod size =? 0)%nat then 0 else 1))%nat.

(** [Pool._get_tasks]: the first [n] batches of [size] tasks of [l]. *)
Fixpoint batches {A : Type} (size n : nat) (l : list A) : list (list A) :=
  match n with
  | O => []
  | S n' => take size l :: batches size n' (drop size l)
  end.

(** The failure that [MapResult] keeps: that of the failing batch which is
    done first.  [finished i] is the moment at which batch [i] is done;
    [seen] is the failure kept so far, with its moment. *)
Fixpoint first_failure {A : Type} (finished : nat -> nat) (i : nat)
    (done : list (result A)) (seen : option (nat * exn))
    : option (nat * exn) :=
  match done with
  | [] => seen
  | r :: rest =>
      let seen' :=
        match r, seen with
        | Ok _, _ => seen
        | Raise e, None => Some (finished i, e)
        | Raise e, Some (t, _) =>
            if (finished i <? t)%nat then Some (finished i, e) else seen
        end in
      first_failure finished (S i) rest seen'
  end.

(** [MapResult.get()], once every batch is done: the results in task
    order, or the failure that was kept. *)
Definition map_result {A : Type} (finished : nat -> nat)
    (done : list (result (list A))) : result (list A) :=
  match first_failure finished 0 done None with
  | Some (_, e) => Raise e
  | None =>
      Ok (concat (omap (fun r => match r with
                                 | Ok v => Some v
                                 | Raise _ => None
                                 end) done))
  end.

(** [sample_hc_from_gp(gp_george, gp_list, env_pars, nsamples)].
    [pool.starmap] cuts the argument list into batches; a worker runs the
    tasks of a batch one after the other and gives the batch up at its
    first exception; every batch is run, also after another has failed.
    The task for frequency [i] starts from the generator state
    [worker_rng i]; what the workers print is listed batch by batch. *)
Definition sample_hc_from_gp (gp_george : list GaussProc.t)
    (gp_list : list GP) (env_pars : list float) (nsamples : Z)
    (cpu_count : nat) (worker_rng : nat -> rng) (finished : nat -> nat)
    : io ndarray :=
  _ ← (if (nsamples <? 100)%Z then io_emit few_samples_warning else mret tt);
  args ← io_lift (mapM (fun i : nat =>
                          g ← item gp_list i;
                          gp ← item gp_george i;
                          mret (i, g, gp))
                       (seq 0 (length gp_list)));
  _ ← io_lift (Pool (Z.of_nat cpu_count - 1));
  let processes := Z.to_nat (Z.of_nat cpu_count - 1) in
  let chunksize := map_chunksize (length args) processes in
  let done :=
    map (mapM (fun '(i, g, gp) =>
                 '(hc, _) ← _sample_hc_from_gp_helper g gp env_pars nsamples
                              (worker_rng i);
                 mret hc))
        (batches chunksize (number_of_batches (length args) chunksize) args) in
  rows ← (concat (map fst done), map_result finished (map snd done));
  hc ← io_lift (np_array rows);
  mret (np_T hc).

End Prediction.

(** ** Vocabulary of the properties *)

Section Vocabulary.
Context `{Python} `{NumPy} `{George}.

(** [np.sum(np.log(1 / (pmax - pmin)))] of a model whose two bound arrays
    have one length: the log of the uniform density on the box. *)
Definition log_uniform_density (self : GaussProc.t) : float :=
  np_sum (map np_log
            (map (fun w => 1 / w)%float
                 (zip_with PrimFloat.sub (GaussProc.pmax self)
                                         (GaussProc.pmin self)))).

(** The bound arrays that the constructor installs. *)
Definition has_box (self : GaussProc.t) (ndim : nat) : Prop :=
  GaussProc.pmax self = np_full ndim 20%float ∧
  GaussProc.pmin self = np_full ndim (-20)%float.

(** The george calls that the sampling helper makes for the george model
    [g0] and the model [gp] do not fail: there is a set of states of the
    george model that holds [g0], in which a row of the chain of [gp] is
    accepted as parameter vector and leads to a state of the set again,
    from which a conditional sample at [env_pars] can be drawn. *)
Definition george_answers (g0 : GP) (gp : GaussProc.t)
    (env_pars : list float) : Prop :=
  ∃ Inv : GP → Prop,
    Inv g0 ∧
    ∀ g samples sample,
      Inv g → get_chain gp (chain_var_of gp) = Ok samples → sample ∈ samples →
      ∃ g', gp_set_parameter_vector g sample = Ok g' ∧ Inv g' ∧
            ∀ r, ∃ v, (gp_sample_conditional g' (GaussProc.y gp) env_pars r).1
                      = Ok v.

End Vocabulary.

(** Not positive: a zero of either sign, a negative finite value or [-inf];
    NaN is let through. *)
Definition sf_nonpos (f : spec_float) : Prop :=
  match f with
  | S754_zero _ | S754_nan => True
  | S754_infinity s | S754_finite s _ _ => s = true
  end.

(** The table of parameter samples has one row per sample of the ensemble
    and one column per parameter name. *)
Definition table_shaped (spectra : Spectra) : Prop :=
  length (sample_params spectra) = length (gwb spectra) ∧
  Forall (fun row => length row = length (param_names spectra))
         (sample_params spectra).

Section SamplerVocabulary.
Context `{Python} `{NumPy} `{George}.

(** An entry of the array the sampling helper fills: the strain
    [np.sqrt(10**(center + rho_sample))] of one draw [rho_sample] that george
    made after its parameter vector was set to a row of [samples]. *)
Definition drawn_strain (gp : GaussProc.t) (center_attr : option string)
    (env_pars : list float) (samples : list (list float))
    (entry : option float) : Prop :=
  ∃ sample g1 g2 r v center,
    sample ∈ samples ∧
    gp_set_parameter_vector g1 sample = Ok g2 ∧
    (gp_sample_conditional g2 (GaussProc.y gp) env_pars r).1 = Ok v ∧
    get_center gp center_attr = Ok center ∧
    entry = Some (sqrt (np_pow10 (center + v))).

End SamplerVocabulary.

(** ** Model construction, prediction set-up and the training pipeline *)

(** The two NumPy reductions that [create_gp_kernels] adds to those of
    [NumPy]; both raise [ValueError] on an empty array. *)
Class NumPyExtrema := {
  np_min : list float -> result float;
  np_max : list float -> result float;
}.

(** The george calls that build kernels and models. *)
Class GeorgeKernels `{George} := {
  (** [len(1.0 * getattr(kernels, name)(metric, ndim=ndim))] *)
  kernel_len : string -> list float -> nat -> result nat;
  (** [george.GP(a * getattr(kernels, name)(tau, ndim=len(tau)))] followed
      by [compute(x, yerr)] on the new object *)
  gp_compute :
    string -> float -> list float ->
    list (list float) -> option (list float) -> result GP;
}.

(** Printing code run where random numbers are threaded through. *)
Definition rio_io {A : Type} (m : io A) : rio A :=
  fun g => (a ← m; mret (a, g)).

(** [a[:, j]] of a 2-d array; an array without rows does not record its
    width, and every column of it is empty. *)
Definition np_column (a : list (list float)) (j : nat) : result (list float) :=
  mapM (fun row => item row j) a.

Section Construction.
Context `{NumPy} `{NumPyExtrema} `{George} `{!GeorgeKernels}.

(** The loop [for ind, par in enumerate(pars)] of [create_gp_kernels];
    the entry [{"min": lo, "max": hi}] is the pair [(lo, hi)]. *)
Fixpoint fill_par_dict (xobs : list (list float)) (left : list (nat * string))
    (par_dict : gmap string (float * float))
    : result (gmap string (float * float)) :=
  match left with
  | [] => mret par_dict
  | (ind, par) :: rest =>
      col ← np_column xobs ind;
      lo ← np_min col;
      hi ← np_max col;
      fill_par_dict xobs rest (<[par := (lo, hi)]> par_dict)
  end.

(** The loop [for freq_ind in range(len(gp_freqs))] of
    [create_gp_kernels]: the lists [gp_george] and [k] (of each kernel, its
    [len]) and the variable [num_kpars], unbound before the first pass. *)
Fixpoint build_models (pars : list string) (xobs yerr yobs : list (list float))
    (kernel : string) (par_dict : gmap string (float * float))
    (indices : list nat) (gp_george : list GaussProc.t) (k : list nat)
    (num_kpars : option nat) : io (list GaussProc.t * option nat) :=
  match indices with
  | [] => mret (gp_george, num_kpars)
  | freq_ind :: rest =>
      y ← io_lift (np_column yobs freq_ind);
      e ← io_lift (np_column yerr freq_ind);
      gp ← GaussProc.__init__ xobs y (Some e) (Some par_dict) kernel;
      let gp_george := gp_george ++ [gp] in
      model ← io_lift (item gp_george freq_ind);
      n ← io_lift (kernel_len (GaussProc.kernel model)
                     (np_full (length pars) 2%float) (length pars));
      let k := k ++ [n] in
      num ← io_lift (item k freq_ind);
      build_models pars xobs yerr yobs kernel par_dict rest gp_george k
                   (Some num)
  end.

(** [create_gp_kernels(gp_freqs, pars, xobs, yerr, yobs, kernel)]:
    [(gp_george, num_kpars)]. *)
Definition create_gp_kernels (gp_freqs : list float) (pars : list string)
    (xobs yerr yobs : list (list float)) (kernel : string)
    : io (list GaussProc.t * nat) :=
  par_dict ← io_lift (fill_par_dict xobs (imap pair pars) ∅);
  '(gp_george, num_kpars) ←
    build_models pars xobs yerr yobs kernel par_dict
                 (seq 0 (length gp_freqs)) [] [] None;
  match num_kpars with
  | Some n => mret (gp_george, n)
  | None => io_raise (UnboundLocalError "num_kpars")
  end.

(** The backward-compatibility lookup of the attribute that holds the MAP
    vector; [None] leaves [kernel_map_attr] unbound. *)
Definition kernel_map_attr_of (gp : GaussProc.t) : option string :=
  match GaussProc.kernel_map gp with
  | Some _ => Some "kernel_map"
  | None =>
      match GaussProc.emcee_kernel_map gp with
      | Some _ => Some "emcee_kernel_map"
      | None => None
      end
  end.

(** [getattr(gp, kernel_map_attr)] used as an array *)
Definition get_kernel_map (gp : GaussProc.t) (kernel_map_attr : option string)
    : result (list float) :=
  match kernel_map_attr with
  | None => Raise (UnboundLocalError "kernel_map_attr")
  | Some name =>
      let v := if String.eqb name "kernel_map" then GaussProc.kernel_map gp
               else GaussProc.emcee_kernel_map gp in
      match v with
      | Some m => Ok m
      | None =>
          if bool_decide (name ∈ GaussProc.missing gp)
          then Raise (AttributeError name)
          else Raise (TypeError "loop of ufunc does not support argument 0 of type NoneType")
      end
  end.

(** [set_up_predictions(spectra, gp_george)].  Every model of this
    development carries the attribute [kernel], so the default of
    [getattr(gp_george[ii], "kernel", "ExpSquaredKernel")] is never taken. *)
Definition set_up_predictions (spectra : Spectra)
    (gp_george : list GaussProc.t) : result (list GP) :=
  let gp_freqs := slice_to (fobs spectra) (Z.of_nat (length gp_george)) in
  gp0 ← item gp_george 0;
  let kernel_map_attr := kernel_map_attr_of gp0 in
  mapM (fun ii : nat =>
          gp ← item gp_george ii;
          kernel_map ← get_kernel_map gp kernel_map_attr;
          let gp_kparams := map np_exp kernel_map in
          a ← py_index gp_kparams 0;
          let tau := slice_from gp_kparams 1 in
          gp_compute (GaussProc.kernel gp) a tau
                     (GaussProc.x gp) (GaussProc.yerr gp))
       (seq 0 (length gp_freqs)).

(** One model as the second loop of [create_gp_kernels] builds it. *)
Definition built_for (xobs yerr yobs : list (list float)) (kernel : string)
    (par_dict : gmap string (float * float)) (ii : nat) (gp : GaussProc.t)
    : Prop :=
  ∃ y e, np_column yobs ii = Ok y ∧ np_column yerr ii = Ok e ∧
         GaussProc.__init__ xobs y (Some e) (Some par_dict) kernel
           = ([], Ok gp).

End Construction.

Section Training.
Context `{NumPy} `{NumPyExtrema} `{SciPy} `{Constants} `{George}
        `{!GeorgeKernels} `{Emcee}.

(** [train_gp(spectra_file, nfreqs, nwalkers, nsamples, burn_frac, test_frac,
    center_measure, kernel)] from the opened library to the end of the fit:
    the list of models that the function then pickles.  Choosing the file
    name and writing the file are not modelled. *)
Definition train_gp (spectra : Spectra) (nfreqs : Z) (nwalkers : nat)
    (nsamples : Z) (burn_frac test_frac : float)
    (center_measure kernel : string) (cpu_count : nat)
    : rio (list GaussProc.t) :=
  '(gp_freqs, yerr, yobs, yobs_center) ←
    rio_io (get_smoothed_gwb spectra nfreqs test_frac center_measure);
  let pars := param_names spectra in
  xobs ← rio_lift (get_parameter_values spectra test_frac);
  '(gp_george, num_kpars) ←
    rio_io (create_gp_kernels gp_freqs pars xobs yerr yobs kernel);
  fit_kernel_params gp_freqs yobs_center gp_george num_kpars nwalkers nsamples
                    burn_frac cpu_count.

End Training.

(** ** Stand-ins for the libraries

    Small concrete instances of the library interfaces, on which the model
    runs on examples: the transcendental functions are tabulated at the
    points the examples use, sums run left to right, the smoother and the
    "sampler" leave their input where it is. *)

Module Sample.

Definition log (v : float) : float :=
  if (v =? 0.025)%float then (-3.6888794541139363)%float
  else if (v =? 1)%float then 0%float
  else nan.

Definition log10 (v : float) : float :=
  if (v =? 1e-40)%float then (-40)%float
  else if (v =? 1)%float then 0%float
  else if (v =? 4)%float then 0.6020599913279624%float
  else if is_infinity v then v
  else nan.

Definition exp (v : float) : float :=
  if (v =? 0)%float then 1%float else 2.718281828459045%float.

Definition pow10 (v : float) : float :=
  if (v =? 0)%float then 1%float else 100%float.

Definition sum (l : list float) : float := foldl PrimFloat.add 0%float l.

Definition mean (l : list float) : float :=
  (sum l / of_uint63 (Uint63.of_Z (Z.of_nat (length l))))%float.

(** the middle element of a row that is already in order *)
Definition median (l : list float) : float :=
  default nan (l !! (length l / 2)%nat).

Definition std (l : list float) : float :=
  if np_any (map (fun v => is_nan (v - v)%float) l) then nan else 0%float.

#[export] Instance numpy : NumPy := {|
  np_log := log;
  np_log10 := log10;
  np_exp := exp;
  np_pow10 := pow10;
  np_sum := sum;
  np_mean := mean;
  np_median := median;
  np_std := std;
  np_random_randn := fun n g =>
    (map (fun i => of_uint63 (Uint63.of_Z (Z.of_nat (g i)))) (seq 0 n),
     fun i => g (n + i)%nat);
|}.

(** An interpreter older than CPython 3.12. *)
#[export] Instance python : Python := {| inlined_comprehensions := false |}.

#[export] Instance scipy : SciPy := {|
  savgol_filter := fun row window polyorder =>
    if (length row <? window)%nat
    then Raise (ValueError "window_length must be less than or equal to the size of x")
    else Ok row;
|}.

#[export] Instance constants : Constants := {| YR := 31557600%float |}.

(** A model whose covariance is singular whenever the amplitude is not
    above one, and whose prediction has mean [-1] and variance [-1e-12]. *)
#[export] Instance george : George := {|
  GP := list float;
  kernel_list := ["ConstantKernel"; "ExpSquaredKernel"; "Matern32Kernel"];
  gp_lnlikelihood := fun kernel a tau x yerr y =>
    if (a <=? 1)%float then Raise LinAlgError else Ok (-1)%float;
  gp_predict := fun g y env_pars => Ok ((-1)%float, (-1e-12)%float);
  gp_set_parameter_vector := fun g sample => Ok sample;
  gp_sample_conditional := fun g y env_pars r => (Ok 0%float, r);
|}.

(** A "sampler" that evaluates the posterior at the walkers and leaves
    them in place: its chain is the last set of positions. *)
Record sampler : Type := {
  s_lnprob : list float -> result float;
  s_chain : list (list float);
  s_lnp : list float;
}.

#[export] Instance emcee : Emcee := {|
  EnsembleSampler := sampler;
  sampler_new := fun nwalkers ndim lnprob =>
    Ok {| s_lnprob := lnprob; s_chain := []; s_lnp := [] |};
  run_mcmc := fun s p0 n g =>
    (lnp ← mapM (s_lnprob s) p0;
     mret ({| s_lnprob := s_lnprob s; s_chain := p0; s_lnp := lnp |}, p0, lnp),
     g);
  reset := fun s => s;
  flatchain := s_chain;
  flatlnprobability := s_lnp;
|}.

(** One parameter, hence two hyperparameters. *)
Definition bounds : gmap string (float * float) :=
  {[ "hard_time" := (0%float, 1%float) ]}.

(** The model the constructor builds from [bounds] and the kernel name
    "expsquaredkernel". *)
Definition unfitted : GaussProc.t :=
  {| GaussProc.x := [[0.5%float]];
     GaussProc.y := [0.1%float];
     GaussProc.yerr := Some [0.01%float];
     GaussProc.par_dict := bounds;
     GaussProc.kernel := "ExpSquaredKernel";
     GaussProc.pmax := [20%float; 20%float];
     GaussProc.pmin := [(-20)%float; (-20)%float];
     GaussProc.emcee_flatchain := None;
     GaussProc.emcee_flatlnprob := None;
     GaussProc.emcee_kernel_map := None;
     GaussProc.center_spectra := None;
     GaussProc.kernel_map := None;
     GaussProc.chain := None;
     GaussProc.mean_spectra := None;
     GaussProc.missing := ["mean_spectra"] |}.

Definition tape : rng := fun i => i.

(** The models that [fit_kernel_params] leaves for one frequency, two
    walkers and four production steps. *)
Definition fitted : list GaussProc.t :=
  Eval vm_compute in
    match (fit_kernel_params [1e-9%float] [(-14)%float] [unfitted] 2 2 4
             0.25%float 2 tape).2 with
    | Ok (models, _) => models
    | Raise _ => []
    end.

(** Four samples, seven frequencies, two realizations, one parameter. *)
Definition spectra : Spectra :=
  {| gwb := replicate 4 (replicate 7 [1%float; 2%float]);
     fobs := replicate 7 1e-9%float;
     sample_params := [[0.1%float]; [0.2%float]; [0.3%float]; [0.4%float]];
     param_names := ["hard_time"] |}.

Definition xobs : list (list float) :=
  Eval vm_compute in
    match get_parameter_values spectra 0.25%float with
    | Ok rows => rows
    | Raise _ => []
    end.

Definition training
    : list float * list (list float) * list (list float) * list float :=
  Eval vm_compute in
    match (get_smoothed_gwb spectra 7 0.25%float "median").2 with
    | Ok r => r
    | Raise _ => ([], [], [], [])
    end.

End Sample.

(** ** Stand-ins for the model-building calls

    The extrema scan from the left; a scaled kernel over [ndim] dimensions
    has [ndim + 1] parameters; a george model is the list of its kernel
    parameters. *)

Module SampleBuild.
Import Sample.

Definition extremum (better : float -> float -> bool) (l : list float)
    : result float :=
  match l with
  | [] => Raise (ValueError "zero-size array to reduction operation")
  | v :: rest =>
      Ok (foldl (fun acc u => if is_nan acc then acc
                              else if is_nan u || better u acc then u else acc)
                v rest)
  end.

#[export] Instance extrema : NumPyExtrema := {|
  np_min := extremum PrimFloat.ltb;
  np_max := extremum (fun u acc => PrimFloat.ltb acc u);
|}.

#[export] Instance kernels : @GeorgeKernels george := {|
  kernel_len := fun name metric ndim => Ok (S ndim);
  gp_compute := fun name a tau x yerr => Ok (a :: tau);
|}.

(** The first model of [Sample.fitted]. *)
Definition fitted0 : GaussProc.t :=
  Eval vm_compute in default unfitted (fitted !! 0%nat).

(** A sampler whose chain has one entry. *)
Definition one_entry : sampler :=
  {| s_lnprob := fun _ => Ok 0%float;
     s_chain := [[0%float; 0%float]];
     s_lnp := [0%float] |}.

(** The library of [Sample.spectra] with the black-hole mass amplitude as
    its parameter, in linear units. *)
Definition spectra_mmb : Spectra :=
  {| gwb := gwb spectra;
     fobs := fobs spectra;
     sample_params := [[1%float]; [4%float]; [1000%float]; [1%float]];
     param_names := ["mmb_amp"] |}.

(** A library without frequencies. *)
Definition no_fobs : Spectra :=
  {| gwb := []; fobs := []; sample_params := []; param_names := [] |}.

(** What [create_gp_kernels] builds on the training set of
    [Sample.training] and [Sample.xobs]. *)
Definition built : list GaussProc.t * nat :=
  Eval vm_compute in
    match (create_gp_kernels training.1.1.1 ["hard_time"] xobs training.1.1.2
             training.1.2 "expsquaredkernel").2 with
    | Ok r => r
    | Raise _ => ([], 0%nat)
    end.

(** The models [train_gp] leaves for [Sample.spectra]: seven frequencies,
    two walkers, four production steps, a quarter of the samples held
    out. *)
Definition trained : list GaussProc.t :=
  Eval vm_compute in
    match (train_gp spectra 7 2 4 0.25%float 0.25%float "median"
             "expsquaredkernel" 2 tape).2 with
    | Ok (models, _) => models
    | Raise _ => []
    end.

(** The george models set up from [Sample.fitted]. *)
Definition gp_list : list (list float) :=
  Eval vm_compute in
    match set_up_predictions spectra fitted with
    | Ok l => l
    | Raise _ => []
    end.

End SampleBuild.

(** * Properties *)

(** ** Order facts of binary64 comparisons *)

Lemma SFcompare_key (a b : spec_float) :
  SFcompare a b =
  match fkey a, fkey b with
  | Some ka, Some kb =>
      Some (match (ka.1.1 ?= kb.1.1)%Z with
            | Eq => match (ka.1.2 ?= kb.1.2)%Z with
                    | Eq => (ka.2 ?= kb.2)%Z
                    | c => c
                    end
            | c => c
            end)
  | _, _ => None
  end.
Proof.
  destruct a as [sa|sa| |sa ma ea], b as [sb|sb| |sb mb eb];
    try destruct sa; try destruct sb; try reflexivity.
  cbn [SFcompare fkey fst snd]. rewrite Z.compare_opp, (Z.compare_antisym ea eb).
  destruct (ea ?= eb)%Z; cbn; reflexivity.
Qed.

Lemma ltb_view (a b : float) : (a <? b)%float = key_ltb (key_of a) (key_of b).
Proof.
  rewrite ltb_spec. unfold SFltb, key_of, key_ltb, key_lt. rewrite SFcompare_key.
  destruct (fkey (Prim2SF a)) as [[[a1 a2] a3]|],
           (fkey (Prim2SF b)) as [[[b1 b2] b3]|]; cbn [fst snd]; try reflexivity.
  destruct (Z.compare_spec a1 b1), (Z.compare_spec a2 b2), (Z.compare_spec a3 b3);
    case_bool_decide; try reflexivity; lia.
Qed.

Lemma leb_view (a b : float) : (a <=? b)%float = key_leb (key_of a) (key_of b).
Proof.
  rewrite leb_spec. unfold SFleb, key_of, key_leb, key_lt. rewrite SFcompare_key.
  destruct (fkey (Prim2SF a)) as [[[a1 a2] a3]|],
           (fkey (Prim2SF b)) as [[[b1 b2] b3]|]; cbn [fst snd]; try reflexivity.
  destruct (Z.compare_spec a1 b1), (Z.compare_spec a2 b2), (Z.compare_spec a3 b3);
    case_bool_decide; try reflexivity; lia.
Qed.

Lemma is_nan_view (a : float) : is_nan a = bool_decide (key_of a = None).
Proof.
  unfold is_nan, key_of. rewrite eqb_spec. unfold SFeqb. rewrite SFcompare_key.
  destruct (fkey (Prim2SF a)) as [[[a1 a2] a3]|]; cbn [fst snd]; [|reflexivity].
  rewrite !Z.compare_refl. reflexivity.
Qed.

(** Two values with the same key are the same value, unless they are zeros
    (which may differ in sign). *)
Lemma key_inj (a b : float) (k : Z * Z * Z) :
  key_of a = Some k → key_of b = Some k → k ≠ (0, 0, 0)%Z → a = b.
Proof.
  unfold key_of. intros Ha Hb Hk. apply Prim2SF_inj.
  destruct (Prim2SF a) as [sa|sa| |sa ma ea], (Prim2SF b) as [sb|sb| |sb mb eb];
    try destruct sa; try destruct sb; cbn in Ha, Hb;
    try discriminate; try congruence;
    injection Ha as <-; injection Hb as [=]; f_equal; lia.
Qed.

(** Turns every comparison in sight into a statement about keys and lets
    linear arithmetic finish. *)
Ltac f64_order :=
  rewrite ?ltb_view, ?leb_view, ?is_nan_view in *;
  unfold key_ltb, key_leb in *;
  repeat match goal with
    | H : context [key_of ?v] |- _ => destruct (key_of v) as [[[? ?] ?]|]
    | |- context [key_of ?v] => destruct (key_of v) as [[[? ?] ?]|]
    end;
  repeat case_bool_decide; unfold key_lt in *; cbn [fst snd] in *;
  try congruence; try lia.

Lemma f64_lt_le (a b : float) : (a <? b)%float = true → (a <=? b)%float = true.
Proof. intros. f64_order. Qed.

Lemma f64_lt_not_ge (a b : float) :
  (b <? a)%float = true → (a <=? b)%float = false.
Proof. intros. f64_order. Qed.

Lemma f64_le_not_nan (a b : float) :
  (a <=? b)%float = true → is_nan a = false ∧ is_nan b = false.
Proof. intros. split; f64_order. Qed.

Lemma f64_not_le_lt (a b : float) :
  (a <=? b)%float = false → is_nan a = false → is_nan b = false →
  (b <? a)%float = true.
Proof. intros. f64_order. Qed.

Lemma f64_not_lt_ge (a b : float) :
  (a <? b)%float = false → is_nan a = false → is_nan b = false →
  (b <=? a)%float = true.
Proof. intros. f64_order. Qed.

Lemma f64_le_trans (a b c : float) :
  (a <=? b)%float = true → (b <=? c)%float = true → (a <=? c)%float = true.
Proof. intros. f64_order. Qed.

Lemma f64_le_lt_trans (a b c : float) :
  (a <=? b)%float = true → (b <? c)%float = true → (a <? c)%float = true.
Proof. intros. f64_order. Qed.

Lemma f64_lt_le_trans (a b c : float) :
  (a <? b)%float = true → (b <=? c)%float = true → (a <? c)%float = true.
Proof. intros. f64_order. Qed.

Lemma f64_le_refl (a : float) : is_nan a = false → (a <=? a)%float = true.
Proof. intros. f64_order. Qed.

(** [a <= c] without [a < c] pins [a] to [c], for a [c] that is not a zero. *)
Lemma f64_le_not_lt_eq (a c : float) :
  (a <=? c)%float = true → (a <? c)%float = false →
  key_of c ≠ Some (0, 0, 0)%Z → a = c.
Proof.
  intros Hle Hlt Hc.
  destruct (key_of a) as [ka|] eqn:Ka; [|f64_order].
  destruct (key_of c) as [kc|] eqn:Kc; [|f64_order].
  apply (key_inj a c kc); [|done|congruence].
  rewrite Ka. f_equal. destruct ka as [[? ?] ?], kc as [[? ?] ?].
  rewrite ltb_view, leb_view, Ka, Kc in *. cbn in *.
  repeat case_bool_decide; try done.
  unfold key_lt in *; cbn [fst snd] in *. f_equal; [f_equal|]; lia.
Qed.

(** ** The prior of a per-frequency model *)

Section Prior.
Context `{NumPy} `{George}.

Lemma init_has_box x y yerr d kernel out self :
  GaussProc.__init__ x y yerr (Some d) kernel = (out, Ok self) →
  has_box self (size d + 1).
Proof.
  unfold GaussProc.__init__. intros Hinit.
  destruct (list_index _ _) as [i|]; [|by inversion Hinit].
  destruct (kernel_list !! i); inversion Hinit; subst. by split.
Qed.

Lemma zip_with_replicate_r {A B C : Type} (f : A → B → C) (l : list A) (c : B) :
  zip_with f l (replicate (length l) c) = map (fun v => f v c) l.
Proof. induction l as [|v l IH]; [done|]. cbn. by rewrite IH. Qed.

Lemma np_broadcast_box {A : Type} (f : float → float → A) p n c :
  length p = n → np_broadcast f p (np_full n c) = Ok (map (fun v => f v c) p).
Proof.
  intros <-. unfold np_broadcast, np_full.
  rewrite length_replicate, decide_True by done.
  by rewrite zip_with_replicate_r.
Qed.

Lemma box_density self n :
  has_box self n →
  log_uniform_density self = np_sum (np_full n (np_log 0.025%float)).
Proof.
  intros [Hmax Hmin]. unfold log_uniform_density. rewrite Hmax, Hmin.
  f_equal. unfold np_full. clear. induction n as [|n IH]; [done|].
  cbn [replicate zip_with map]. rewrite IH. done.
Qed.

Lemma forallb_id_map {A : Type} (f : A → bool) (l : list A) :
  forallb id (map f l) = forallb f l.
Proof. induction l as [|v l IH]; [done|]. cbn. by rewrite IH. Qed.

Lemma forallb_andb {A : Type} (f g : A → bool) (l : list A) :
  forallb (fun v => f v && g v) l = forallb f l && forallb g l.
Proof.
  induction l as [|v l IH]; [done|]. cbn. rewrite IH.
  destruct (f v), (g v), (forallb f l); done.
Qed.

(** What [lnprior] computes on a model with the ±20 box, for a vector of
    the model's dimension. *)
Lemma lnprior_box self n p :
  has_box self n → length p = n →
  GaussProc.lnprior self p =
  Ok (if forallb (fun v => (v <=? 20)%float && (-20 <=? v)%float) p
      then log_uniform_density self else neg_infinity).
Proof.
  intros Hbox Hlen. pose proof Hbox as [Hmax Hmin].
  unfold GaussProc.lnprior, log_uniform_density. rewrite Hmax, Hmin.
  assert (np_broadcast PrimFloat.sub (np_full n 20%float) (np_full n (-20)%float)
          = Ok (zip_with PrimFloat.sub (np_full n 20%float) (np_full n (-20)%float)))
    as ->.
  { unfold np_broadcast, np_full. by rewrite !length_replicate, decide_True. }
  rewrite (np_broadcast_box PrimFloat.leb p n _ Hlen).
  rewrite (np_broadcast_box f64_geb p n _ Hlen).
  cbn [mbind result_bind mret result_ret].
  unfold np_all, f64_geb. rewrite !forallb_id_map, forallb_andb.
  destruct (forallb _ p); [|done].
  destruct (forallb _ p); done.
Qed.

Lemma forallb_Forall_true {A : Type} (f : A → bool) (l : list A) :
  Forall (fun v => f v = true) l → forallb f l = true.
Proof. induction 1 as [|v l Hv _ IH]; [done|]. cbn. by rewrite Hv, IH. Qed.

Lemma forallb_Exists_false {A : Type} (f : A → bool) (l : list A) :
  Exists (fun v => f v = false) l → forallb f l = false.
Proof.
  induction 1 as [v l Hv|v l _ IH]; cbn; [by rewrite Hv|].
  rewrite IH. apply andb_false_r.
Qed.

(** C2. For a model built by the constructor and a hyperparameter vector
    of the model's dimension: when every component lies strictly between
    -20 and 20, [lnprior] returns the constant
    [np.sum(np.log(1 / (pmax - pmin)))], the same for every such vector;
    when some component is above 20 or below -20, it returns [-inf]. *)
Theorem lnprior_uniform_inside_neg_inf_outside
    x y yerr d kernel out self (p : list float) :
  GaussProc.__init__ x y yerr (Some d) kernel = (out, Ok self) →
  length p = (size d + 1)%nat →
  (Forall (fun v => (-20 <? v)%float = true ∧ (v <? 20)%float = true) p →
   GaussProc.lnprior self p = Ok (log_uniform_density self)) ∧
  (Exists (fun v => (20 <? v)%float = true ∨ (v <? -20)%float = true) p →
   GaussProc.lnprior self p = Ok neg_infinity).
Proof.
  intros Hinit Hlen. apply init_has_box in Hinit.
  rewrite (lnprior_box self _ p Hinit Hlen). split; intros Hp.
  - rewrite forallb_Forall_true; [done|].
    eapply Forall_impl; [exact Hp|]. intros v [Hlo Hhi]. cbn beta.
    by rewrite (f64_lt_le _ _ Hlo), (f64_lt_le _ _ Hhi).
  - rewrite forallb_Exists_false; [done|].
    eapply Exists_impl; [exact Hp|]. intros v [Hhi|Hlo]; cbn beta.
    + by rewrite (f64_lt_not_ge _ _ Hhi).
    + rewrite (f64_lt_not_ge _ _ Hlo). apply andb_false_r.
Qed.

(** C10. The box is closed: for a model built by the constructor and a
    vector of the model's dimension in which some component is exactly 20
    or exactly -20 and every component [v] satisfies [-20 <= v <= 20],
    [lnprior] returns the constant log-uniform density; whenever that
    constant is finite the result is not [-inf]. *)
Theorem lnprior_closed_at_boundary
    x y yerr d kernel out self (p : list float) :
  GaussProc.__init__ x y yerr (Some d) kernel = (out, Ok self) →
  length p = (size d + 1)%nat →
  Exists (fun v => v = 20%float ∨ v = (-20)%float) p →
  Forall (fun v => (-20 <=? v)%float = true ∧ (v <=? 20)%float = true) p →
  GaussProc.lnprior self p = Ok (log_uniform_density self) ∧
  (is_finite (log_uniform_density self) = true →
   GaussProc.lnprior self p ≠ Ok neg_infinity).
Proof.
  intros Hinit Hlen _ Hp. apply init_has_box in Hinit.
  rewrite (lnprior_box self _ p Hinit Hlen).
  rewrite forallb_Forall_true.
  - split; [done|]. intros Hfin [= Heq]. rewrite Heq in Hfin. done.
  - eapply Forall_impl; [exact Hp|]. intros v [Hlo Hhi]. cbn beta.
    by rewrite Hlo, Hhi.
Qed.

End Prior.

(** ** The floor of the spectrum preprocessor *)

Section Floor.

Lemma floor_key : key_of 1e-40%float = Some (1, -185, 4903985730770844)%Z.
Proof. reflexivity. Qed.

(** A squared value at or below the floor, or NaN, becomes the floor. *)
Lemma clamp_low (v : float) :
  (v <=? 1e-40)%float = true ∨ is_nan v = true → clamp v = 1e-40%float.
Proof.
  intros Hv. unfold clamp.
  destruct (v <? 1e-40)%float eqn:Hlt; [done|].
  destruct (is_nan v) eqn:Hnan; [done|]. cbn [orb].
  destruct Hv as [Hle|]; [|done].
  apply f64_le_not_lt_eq; [done..|]. by rewrite floor_key.
Qed.

(** Anything else is left as it is: in particular an infinite square. *)
Lemma clamp_high (v : float) :
  (v <? 1e-40)%float = false → is_nan v = false → clamp v = v.
Proof. intros Hlt Hnan. unfold clamp. by rewrite Hlt, Hnan. Qed.

(** After the flooring no value is NaN and none is below the floor. *)
Lemma clamp_range (v : float) :
  is_nan (clamp v) = false ∧ (1e-40 <=? clamp v)%float = true.
Proof.
  unfold clamp.
  destruct (v <? 1e-40)%float eqn:Hlt; [done|].
  destruct (is_nan v) eqn:Hnan; [done|]. cbn [orb].
  split; [done|]. by apply f64_not_lt_ge.
Qed.

Lemma floored_spectra_elements spectra nfreqs test_ind :
  floored_spectra spectra nfreqs test_ind =
  map (fun sample => map (map (fun a => clamp (square a))) (slice_to sample nfreqs))
      (slice_from (gwb spectra) test_ind).
Proof.
  unfold floored_spectra. rewrite map_map. apply map_ext. intros sample.
  rewrite map_map. apply map_ext. intros reals. by rewrite map_map.
Qed.

End Floor.

(** ** The spread of the predictor *)

Section Spread.

Lemma rho_pred_row_nonneg (mu_pred cov_pred : float) :
  (cov_pred <? 0)%float = false →
  rho_pred_row mu_pred cov_pred = (mu_pred, sqrt cov_pred).
Proof. intros Hc. unfold rho_pred_row. by rewrite Hc. Qed.

Lemma rho_pred_row_neg (mu_pred cov_pred : float) :
  (cov_pred <? 0)%float = true →
  rho_pred_row mu_pred cov_pred = (mu_pred, (1e-5 * mu_pred)%float).
Proof. intros Hc. unfold rho_pred_row. by rewrite Hc. Qed.

(** C4, at the failing input.  With predicted mean [-1] and predicted
    variance [-1e-12] the stored spread is [1e-5 * (-1)]: a negative
    number, not the floor [1e-5 * |-1|]; [hc_from_gp] returns it in
    [rho_pred]. *)
Theorem negative_variance_spread_follows_sign_of_mean :
  rho_pred_row (-1) (-1e-12) = ((-1)%float, (-1.0000000000000001e-05)%float) ∧
  ((rho_pred_row (-1) (-1e-12)).2 <? 0)%float = true ∧
  (rho_pred_row (-1) (-1e-12)).2 ≠ (1e-5 * abs (-1))%float ∧
  (rho_pred ← (r ← @hc_from_gp Sample.python Sample.numpy Sample.george
                     Sample.fitted
                     [[0%float]] [0.5%float]; mret r.2);
   mret (map snd rho_pred)) = Ok [(-1.0000000000000001e-05)%float].
Proof. split_and!; [reflexivity..|discriminate|reflexivity]. Qed.

End Spread.

(** ** Kernel family validation *)

Section KernelValidation.
Context `{NumPy} `{George}.

Lemma str_app_assoc (a b c : string) : (a +:+ b) +:+ c = a +:+ (b +:+ c).
Proof.
  induction a as [|ch a IH]; [done|].
  change (String ch ((a +:+ b) +:+ c) = String ch (a +:+ (b +:+ c))).
  by rewrite IH.
Qed.

Lemma str_app_nil_r (a : string) : a +:+ "" = a.
Proof.
  induction a as [|ch a IH]; [done|].
  change (String ch (a +:+ "") = String ch a). by rewrite IH.
Qed.

Lemma occurs_in_join (sep name : string) (parts : list string) :
  name ∈ parts → occurs_in name (join sep parts).
Proof.
  induction parts as [|s rest IH]; [by intros ?%elem_of_nil|].
  intros [->|Hin]%elem_of_cons.
  - exists "". destruct rest as [|s' rest].
    + exists "". cbn [join]. change (s = s +:+ ""). by rewrite str_app_nil_r.
    + by exists (sep +:+ join sep (s' :: rest)).
  - destruct (IH Hin) as (pre & post & Heq).
    destruct rest as [|s' rest]; [by apply elem_of_nil in Hin|].
    exists (s +:+ sep +:+ pre), post.
    change (join sep (s :: s' :: rest)) with (s +:+ sep +:+ join sep (s' :: rest)).
    rewrite Heq. by rewrite !str_app_assoc.
Qed.

Lemma list_index_None (v : string) (l : list string) :
  list_index v l = None ↔ v ∉ l.
Proof.
  induction l as [|s l IH]; cbn.
  - split; [intros _; apply not_elem_of_nil | done].
  - rewrite not_elem_of_cons. destruct (String.eqb s v) eqn:E.
    + apply String.eqb_eq in E. split; [done | intros [? _]; congruence].
    + apply String.eqb_neq in E. destruct (list_index v l); cbn.
      * split; [done|]. intros [_ Hn]. by apply IH in Hn.
      * split; [|done]. intros _. split; [congruence | by apply IH].
Qed.

Lemma list_index_Some (v : string) (l : list string) (i : nat) :
  list_index v l = Some i → l !! i = Some v.
Proof.
  revert i. induction l as [|s l IH]; intros i; cbn; [done|].
  destruct (String.eqb s v) eqn:E.
  - apply String.eqb_eq in E. intros [= <-]. by subst.
  - destruct (list_index v l) as [j|]; cbn; [|done].
    intros [= <-]. by apply IH.
Qed.

(** C6. A kernel name that matches no supported family name, case
    ignored, makes the constructor raise [ValueError] after printing a
    report in which every supported family name occurs; a name that
    matches one (with a parameter dictionary supplied) never raises: the
    model is built, silently, with the family name as the library spells
    it. *)
Theorem kernel_name_validated x y yerr par_dict (d : gmap string (float * float))
    (kernel : string) :
  ((∀ name, name ∈ kernel_list → lower name ≠ lower kernel) →
   ∃ msg,
     GaussProc.__init__ x y yerr par_dict kernel =
       (GaussProc.unexpected_kernel_report kernel, Raise (ValueError msg)) ∧
     ∀ name, name ∈ kernel_list →
       ∃ text, Print text ∈ GaussProc.unexpected_kernel_report kernel ∧
               occurs_in name text) ∧
  ((∃ name, name ∈ kernel_list ∧ lower name = lower kernel) →
   ∃ self,
     GaussProc.__init__ x y yerr (Some d) kernel = ([], Ok self) ∧
     GaussProc.kernel self ∈ kernel_list ∧
     lower (GaussProc.kernel self) = lower kernel).
Proof.
  split.
  - intros Hnone. unfold GaussProc.__init__.
    assert (list_index (lower kernel) (map lower kernel_list) = None) as ->.
    { apply list_index_None. intros (name & Heq & Hin)%list_elem_of_fmap.
      by apply (Hnone name). }
    eexists. split; [done|]. intros name Hin.
    eexists. split.
    + unfold GaussProc.unexpected_kernel_report.
      apply elem_of_cons; right. apply elem_of_cons; by left.
    + apply occurs_in_join. apply elem_of_cons; by right.
  - intros (name & Hin & Heq). unfold GaussProc.__init__.
    destruct (list_index (lower kernel) (map lower kernel_list)) as [i|] eqn:Hidx.
    + apply list_index_Some in Hidx. rewrite list_lookup_fmap in Hidx.
      destruct (kernel_list !! i) as [name'|] eqn:Hi; [|done].
      injection Hidx as Hlow.
      eexists. split; [done|]. cbn. split; [|done].
      by apply list_elem_of_lookup_2 in Hi.
    + apply list_index_None in Hidx. exfalso. apply Hidx.
      apply list_elem_of_fmap. by exists name.
Qed.

End KernelValidation.

(** ** Singular covariance in the likelihood *)

Section Likelihood.
Context `{NumPy} `{George}.

(** Adding [-inf] to anything but NaN and [+inf] gives [-inf]. *)
Lemma f64_add_neg_infinity (v : float) :
  is_nan v = false → v ≠ infinity → (v + neg_infinity)%float = neg_infinity.
Proof.
  intros Hnan Hinf. apply Prim2SF_inj. rewrite add_spec.
  rewrite is_nan_view in Hnan. unfold key_of in Hnan.
  assert (Prim2SF v ≠ Prim2SF infinity) as Hne by (intros ?%Prim2SF_inj; done).
  change (Prim2SF infinity) with (S754_infinity false) in Hne.
  change (Prim2SF neg_infinity) with (S754_infinity true).
  destruct (Prim2SF v) as [s|[]| |s m e]; try done.
Qed.

Lemma lnlike_singular (self : GaussProc.t) (p : list float) (p0 : float) :
  py_index p 0 = Ok p0 →
  gp_lnlikelihood (GaussProc.kernel self) (np_exp p0)
    (map np_exp (slice_from p 1))
    (GaussProc.x self) (GaussProc.yerr self) (GaussProc.y self)
    = Raise LinAlgError →
  GaussProc.lnlike self p = Ok neg_infinity.
Proof.
  intros Hp0 Hsing. unfold GaussProc.lnlike. rewrite Hp0.
  cbn [mbind result_bind]. by rewrite Hsing.
Qed.

Lemma is_finite_sound (v : float) :
  is_finite v = true → is_nan v = false ∧ v ≠ infinity.
Proof.
  unfold is_finite. intros Hfin. destruct (is_nan v) eqn:Hnan; [done|].
  split; [done|]. intros ->. done.
Qed.

(** C7. For a model built by the constructor, whose log-uniform density
    is a finite number, and a hyperparameter vector of the model's
    dimension: whenever george fails with a linear-algebra error at the
    exponentiated hyperparameters, [lnlike] returns [-inf] instead of
    raising, and [lnprob] evaluates to [-inf] as well. *)
Theorem singular_covariance_rejected x y yerr d kernel out
    (self : GaussProc.t) (p : list float) (p0 : float) :
  GaussProc.__init__ x y yerr (Some d) kernel = (out, Ok self) →
  length p = (size d + 1)%nat →
  is_finite (log_uniform_density self) = true →
  py_index p 0 = Ok p0 →
  gp_lnlikelihood (GaussProc.kernel self) (np_exp p0)
    (map np_exp (slice_from p 1))
    (GaussProc.x self) (GaussProc.yerr self) (GaussProc.y self)
    = Raise LinAlgError →
  GaussProc.lnlike self p = Ok neg_infinity ∧
  GaussProc.lnprob self p = Ok neg_infinity.
Proof.
  intros Hinit Hlen Hfin Hp0 Hsing.
  pose proof (lnlike_singular self p p0 Hp0 Hsing) as Hlike.
  split; [done|]. unfold GaussProc.lnprob.
  rewrite (lnprior_box self _ p (init_has_box _ _ _ _ _ _ _ Hinit) Hlen), Hlike.
  cbn [mbind result_bind mret result_ret].
  destruct (forallb _ p); [|done].
  apply is_finite_sound in Hfin as [Hnan Hinf].
  by rewrite f64_add_neg_infinity.
Qed.

End Likelihood.

(** ** Chain lookup of the posterior sampler *)

Section ChainLookup.
Context `{NumPy} `{George}.

(** C8. A model with neither [chain] nor [emcee_flatchain] makes the
    helper print "Chains are not saved!" and stop with an exception
    ([chain_var] was never bound): no array is returned.  A model with
    either attribute is read through it, [chain] first. *)
Theorem missing_chain_is_an_error (gp_at_freq : GP)
    (gp_george_at_freq : GaussProc.t) (env_pars : list float)
    (nsamples : Z) (g : rng) :
  (GaussProc.chain gp_george_at_freq = None →
   GaussProc.emcee_flatchain gp_george_at_freq = None →
   _sample_hc_from_gp_helper gp_at_freq gp_george_at_freq env_pars nsamples g
   = ([Print "Chains are not saved!"], Raise (UnboundLocalError "chain_var"))) ∧
  (∀ c, GaussProc.chain gp_george_at_freq = Some c →
        get_chain gp_george_at_freq (chain_var_of gp_george_at_freq) = Ok c) ∧
  (∀ c, GaussProc.chain gp_george_at_freq = None →
        GaussProc.emcee_flatchain gp_george_at_freq = Some c →
        get_chain gp_george_at_freq (chain_var_of gp_george_at_freq) = Ok c).
Proof.
  split; [|split].
  - intros Hchain Hflat. unfold _sample_hc_from_gp_helper, chain_var_of.
    rewrite Hchain, Hflat. reflexivity.
  - intros c Hchain. unfold chain_var_of, get_chain. by rewrite Hchain.
  - intros c Hchain Hflat. unfold chain_var_of, get_chain.
    by rewrite Hchain, Hflat.
Qed.

End ChainLookup.

(** ** Running the monads backwards *)

Section Inversion.

Lemma result_bind_Ok {A B : Type} (m : result A) (k : A → result B) (b : B) :
  m ≫= k = Ok b → ∃ a, m = Ok a ∧ k a = Ok b.
Proof. destruct m as [a|e]; [|done]. intros Hk. by exists a. Qed.

Lemma io_bind_Ok {A B : Type} (m : io A) (k : A → io B) out (b : B) :
  m ≫= k = (out, Ok b) →
  ∃ out1 a out2, m = (out1, Ok a) ∧ k a = (out2, Ok b) ∧ out = out1 ++ out2.
Proof.
  destruct m as [out1 [a|e]]; cbn; [|done].
  destruct (k a) as [out2 r] eqn:Hk. intros [= <- ->]. by exists out1, a, out2.
Qed.

Lemma io_lift_Ok {A : Type} (r : result A) out (a : A) :
  io_lift r = (out, Ok a) → r = Ok a ∧ out = [].
Proof. unfold io_lift. by intros [= <- ->]. Qed.

Lemma mapM_result_length {A B : Type} (f : A → result B) (l : list A) (l' : list B) :
  mapM f l = Ok l' → length l' = length l.
Proof.
  revert l'. induction l as [|a l IH]; intros l'; cbn.
  - by intros [= <-].
  - intros (b & _ & (bs & Hbs & [= <-])%result_bind_Ok)%result_bind_Ok.
    cbn. f_equal. by apply IH.
Qed.

End Inversion.

(** ** Sign of a scaled count *)

Section Sign.

Lemma binary_round_aux_nonneg (m e : Z) (l : location) :
  sf_nonneg (binary_round_aux prec emax false m e l).
Proof.
  unfold binary_round_aux.
  destruct (shr_fexp prec emax m e l) as [mrs' e'].
  destruct (shr_fexp prec emax _ e' loc_Exact) as [mrs'' e''].
  destruct (shr_m mrs''); [done| |done].
  by destruct (e'' <=? emax - prec)%Z.
Qed.

Lemma SFmul_nonneg (a b : spec_float) :
  sf_nonneg a → sf_nonneg b → sf_nonneg (SFmul prec emax a b).
Proof.
  destruct a as [sa|sa| |sa ma ea], b as [sb|sb| |sb mb eb]; cbn;
    try done; try (intros -> ->; done).
  intros -> ->. apply binary_round_aux_nonneg.
Qed.

Lemma float_of_int_nonneg (n : Z) (nf : float) :
  (0 ≤ n < 2 ^ 63)%Z → float_of_int n = Ok nf → sf_nonneg (Prim2SF nf).
Proof.
  intros Hn. unfold float_of_int.
  assert (SF2Prim (binary_normalize prec emax n 0 false)
          = of_uint63 (Uint63.of_Z n)) as ->.
  { rewrite <- (SF2Prim_Prim2SF (of_uint63 (Uint63.of_Z n))).
    rewrite of_uint63_spec, Uint63.of_Z_spec, Z.mod_small; [done|].
    change Uint63.wB with (2 ^ 63)%Z. lia. }
  destruct (is_infinity _); [done|]. intros [= <-].
  rewrite of_uint63_spec, Uint63.of_Z_spec, Z.mod_small
    by (change Uint63.wB with (2 ^ 63)%Z; lia).
  destruct n as [|p|p]; [done| |lia]. cbn [binary_normalize].
  unfold binary_round. destruct (shl_align _ _ _).
  apply binary_round_aux_nonneg.
Qed.

Lemma f64_nonneg (v : float) : (0 <=? v)%float = true → sf_nonneg (Prim2SF v).
Proof.
  rewrite leb_spec. change (Prim2SF 0) with (S754_zero false).
  by destruct (Prim2SF v) as [s|[]| |[] m e].
Qed.

Lemma int_of_float_nonneg (v : float) (k : Z) :
  sf_nonneg (Prim2SF v) → int_of_float v = Ok k → (0 ≤ k)%Z.
Proof.
  unfold int_of_float. destruct (Prim2SF v) as [s|s| |s m e]; cbn; try done.
  - by intros _ [= <-].
  - intros -> [= <-]. destruct (0 <=? e)%Z.
    + apply Z.shiftl_nonneg. lia.
    + apply Z.shiftr_nonneg. lia.
Qed.

(** A non-negative fraction of a count is a non-negative count. *)
Lemma int_of_scaled_nonneg (n : Z) (f : float) (k : Z) :
  (0 ≤ n < 2 ^ 63)%Z → (0 <=? f)%float = true →
  int_of_scaled n f = Ok k → (0 ≤ k)%Z.
Proof.
  intros Hn Hf. unfold int_of_scaled.
  intros (nf & Hnf & Hk)%result_bind_Ok.
  apply (int_of_float_nonneg (nf * f)%float); [|done].
  rewrite mul_spec. apply SFmul_nonneg.
  - by apply (float_of_int_nonneg n).
  - by apply f64_nonneg.
Qed.

End Sign.

(** ** Rows of the design matrix and of the training set *)

Section Rows.
Context `{NumPy} `{SciPy} `{Constants}.

Lemma slice_from_length {A : Type} (a : list A) (start : Z) :
  (0 ≤ start ≤ Z.of_nat (length a))%Z →
  Z.of_nat (length (slice_from a start)) = (Z.of_nat (length a) - start)%Z.
Proof.
  intros Hs. unfold slice_from, slice_bound. rewrite length_drop.
  destruct (Z.ltb_spec start 0); lia.
Qed.

Lemma floored_spectra_length spectra nfreqs test_ind :
  length (floored_spectra spectra nfreqs test_ind) =
  length (slice_from (gwb spectra) test_ind).
Proof. unfold floored_spectra. by rewrite !length_map. Qed.

Lemma get_smoothed_gwb_rows spectra nfreqs test_frac center_measure test_ind
    out gp_freqs yerr yobs yobs_center :
  int_of_scaled (Z.of_nat (length (gwb spectra))) test_frac = Ok test_ind →
  get_smoothed_gwb spectra nfreqs test_frac center_measure
    = (out, Ok (gp_freqs, yerr, yobs, yobs_center)) →
  length yobs = length (slice_from (gwb spectra) test_ind) ∧
  length yerr = length (slice_from (gwb spectra) test_ind).
Proof.
  intros Hind Hrun. unfold get_smoothed_gwb in Hrun. rewrite Hind in Hrun.
  apply io_bind_Ok in Hrun as (? & ti & ? & [[= <-] _]%io_lift_Ok & Hrun & _).
  apply io_bind_Ok in Hrun as (? & stat & ? & _ & Hrun & _).
  apply io_bind_Ok in Hrun as (? & smooth & ? & [Hsmooth _]%io_lift_Ok & Hrun & _).
  apply io_bind_Ok in Hrun as (? & [] & ? & _ & Hrun & _).
  apply io_bind_Ok in Hrun as (? & stat0 & ? & _ & Hrun & _).
  apply io_bind_Ok in Hrun as (? & yobs' & ? & [Hsub _]%io_lift_Ok & Hrun & _).
  injection Hrun as _ _ <- <- _.
  apply mapM_result_length in Hsmooth, Hsub.
  rewrite !length_map, floored_spectra_length in *. split; congruence.
Qed.

Lemma get_parameter_values_rows spectra test_frac test_ind xobs :
  int_of_scaled (Z.of_nat (length (gwb spectra))) test_frac = Ok test_ind →
  get_parameter_values spectra test_frac = Ok xobs →
  (test_ind ≤ Z.of_nat (length (gwb spectra)))%Z ∧
  Z.of_nat (length xobs) = (Z.of_nat (length (gwb spectra)) - test_ind)%Z.
Proof.
  intros Hind Hrun. unfold get_parameter_values in Hrun. rewrite Hind in Hrun.
  cbn [mbind result_bind] in Hrun.
  destruct (Z.ltb_spec (Z.of_nat (length (gwb spectra)) - test_ind) 0) as [Hneg|Hpos];
    [done|].
  apply result_bind_Ok in Hrun as (nrows & [= <-] & Hrun).
  apply result_bind_Ok in Hrun as (xobs0 & Hrows & Hrun).
  apply mapM_result_length in Hrows. rewrite length_seq in Hrows.
  assert (length xobs = length xobs0) as ->.
  { destruct (list_index _ _); [|by injection Hrun as <-].
    destruct (np_any _); injection Hrun as <-; by rewrite ?length_map. }
  lia.
Qed.

Lemma rows_match_for_count spectra nfreqs test_frac
    center_measure test_ind out gp_freqs yerr yobs yobs_center xobs :
  int_of_scaled (Z.of_nat (length (gwb spectra))) test_frac = Ok test_ind →
  (0 ≤ test_ind)%Z →
  get_smoothed_gwb spectra nfreqs test_frac center_measure
    = (out, Ok (gp_freqs, yerr, yobs, yobs_center)) →
  get_parameter_values spectra test_frac = Ok xobs →
  (test_ind ≤ Z.of_nat (length (gwb spectra)))%Z ∧
  length xobs = length yobs ∧ length xobs = length yerr ∧
  Z.of_nat (length xobs) = (Z.of_nat (length (gwb spectra)) - test_ind)%Z.
Proof.
  intros Hind Hrange Hgwb Hpar.
  destruct (get_smoothed_gwb_rows _ _ _ _ _ _ _ _ _ _ Hind Hgwb) as [Hy He].
  destruct (get_parameter_values_rows _ _ _ _ Hind Hpar) as [Hle Hx].
  pose proof (slice_from_length (gwb spectra) test_ind (conj Hrange Hle)) as Hs.
  split_and!; [done|lia..|done].
Qed.

(** C9. For every ensemble (of fewer than 2^63 samples) and every held-out
    fraction [test_frac >= 0]: whenever both functions return, the matrix
    that [get_parameter_values] returns has exactly as many rows as the
    target and the uncertainty arrays that [get_smoothed_gwb] returns for the
    same ensemble and fraction.  Both drop the same leading
    [test_ind = int(total * test_frac)] samples, a count between 0 and
    [total]. *)
Theorem design_rows_match_training_rows spectra nfreqs test_frac
    center_measure out gp_freqs yerr yobs yobs_center xobs :
  (Z.of_nat (length (gwb spectra)) < 2 ^ 63)%Z →
  (0 <=? test_frac)%float = true →
  get_smoothed_gwb spectra nfreqs test_frac center_measure
    = (out, Ok (gp_freqs, yerr, yobs, yobs_center)) →
  get_parameter_values spectra test_frac = Ok xobs →
  ∃ test_ind,
    int_of_scaled (Z.of_nat (length (gwb spectra))) test_frac = Ok test_ind ∧
    (0 ≤ test_ind ≤ Z.of_nat (length (gwb spectra)))%Z ∧
    length xobs = length yobs ∧ length xobs = length yerr ∧
    Z.of_nat (length xobs) = (Z.of_nat (length (gwb spectra)) - test_ind)%Z.
Proof.
  intros Hsmall Hfrac Hgwb Hpar.
  pose proof Hpar as Hpar'. unfold get_parameter_values in Hpar'.
  apply result_bind_Ok in Hpar' as (test_ind & Hind & _).
  assert (0 ≤ test_ind)%Z as Hpos.
  { apply (int_of_scaled_nonneg _ _ _ (conj (Zle_0_nat _) Hsmall) Hfrac Hind). }
  destruct (rows_match_for_count _ _ _ _ _ _ _ _ _ _ _ Hind Hpos Hgwb Hpar)
    as (Hle & Hy & He & Hx).
  exists test_ind. split_and!; done.
Qed.

End Rows.

(** ** The logarithms of the preprocessor read the floored array *)

Section FlooredLogarithms.
Context `{NumPy} `{SciPy} `{Constants}.

Lemma io_lift_Ok_bind {A B : Type} (a : A) (k : A → io B) :
  io_lift (Ok a) ≫= k = k a.
Proof. unfold io_lift. cbn. by destruct (k a). Qed.

(** What a call of [get_smoothed_gwb] that returns has computed, in terms
    of the floored array. *)
Lemma get_smoothed_gwb_reads_floored spectra nfreqs test_frac center_measure
    test_ind out gp_freqs yerr yobs yobs_center :
  int_of_scaled (Z.of_nat (length (gwb spectra))) test_frac = Ok test_ind →
  get_smoothed_gwb spectra nfreqs test_frac center_measure
    = (out, Ok (gp_freqs, yerr, yobs, yobs_center)) →
  yerr = map (map (fun reals => np_std (map np_log10 reals)))
             (floored_spectra spectra nfreqs test_ind) ∧
  ∃ stat smooth,
    (stat = np_median ∨ stat = np_mean) ∧
    mapM (fun row => savgol_filter row 7 3)
         (map (map (fun reals => np_log10 (stat reals)))
              (floored_spectra spectra nfreqs test_ind)) = Ok smooth ∧
    yobs_center = map stat (columns smooth) ∧
    mapM (fun row => np_isub row yobs_center) smooth = Ok yobs.
Proof.
  intros Hind Hrun. unfold get_smoothed_gwb in Hrun. rewrite Hind in Hrun.
  apply io_bind_Ok in Hrun as (? & ti & ? & [[= <-] _]%io_lift_Ok & Hrun & _).
  apply io_bind_Ok in Hrun as (? & stat & ? & [Hstat _]%io_lift_Ok & Hrun & _).
  apply io_bind_Ok in Hrun
    as (? & smooth & ? & [Hsmooth _]%io_lift_Ok & Hrun & _).
  apply io_bind_Ok in Hrun as (? & [] & ? & _ & Hrun & _).
  apply io_bind_Ok in Hrun as (? & stat0 & ? & [Hstat0 _]%io_lift_Ok & Hrun & _).
  apply io_bind_Ok in Hrun as (? & yobs' & ? & [Hsub _]%io_lift_Ok & Hrun & _).
  injection Hrun as _ _ <- <- <-.
  assert (stat0 = stat) as -> by congruence.
  split; [done|]. exists stat, smooth. split_and!; try done.
  unfold center_stat in Hstat.
  destruct (String.eqb _ "median"); [injection Hstat as <-; by left|].
  destruct (String.eqb _ "mean"); [injection Hstat as <-; by right|done].
Qed.

(** C3, as the code has it.  Every element of the array on which
    [get_smoothed_gwb] takes its logarithms is [clamp (a * a)] for the
    input amplitude [a] at that place; it is exactly [1e-40] whenever the
    square is at most [1e-40] or NaN, it is the square itself otherwise
    (an infinite square stays infinite), and in every case it is not NaN
    and not below [1e-40].  [get_smoothed_gwb] takes its logarithms on this
    array and on nothing else of the amplitudes: whenever it returns, the
    uncertainties are the spread of the [log10] of the floored values, and
    the targets come from the [log10] of the median or mean of the floored
    realizations; and two libraries with the same floored array (and the
    same number of samples and frequency axis) make it return, print and
    raise the same. *)
Theorem squares_floored_before_log spectra nfreqs test_ind :
  floored_spectra spectra nfreqs test_ind =
    map (fun sample =>
           map (map (fun a => clamp (square a))) (slice_to sample nfreqs))
        (slice_from (gwb spectra) test_ind) ∧
  (∀ a : float,
     ((square a <=? 1e-40)%float = true ∨ is_nan (square a) = true →
      clamp (square a) = 1e-40%float) ∧
     ((square a <? 1e-40)%float = false → is_nan (square a) = false →
      clamp (square a) = square a)) ∧
  Forall (Forall (Forall (fun w =>
    is_nan w = false ∧ (1e-40 <=? w)%float = true)))
    (floored_spectra spectra nfreqs test_ind) ∧
  (∀ test_frac center_measure out gp_freqs yerr yobs yobs_center,
     int_of_scaled (Z.of_nat (length (gwb spectra))) test_frac = Ok test_ind →
     get_smoothed_gwb spectra nfreqs test_frac center_measure
       = (out, Ok (gp_freqs, yerr, yobs, yobs_center)) →
     yerr = map (map (fun reals => np_std (map np_log10 reals)))
                (floored_spectra spectra nfreqs test_ind) ∧
     ∃ stat smooth,
       (stat = np_median ∨ stat = np_mean) ∧
       mapM (fun row => savgol_filter row 7 3)
            (map (map (fun reals => np_log10 (stat reals)))
                 (floored_spectra spectra nfreqs test_ind)) = Ok smooth ∧
       yobs_center = map stat (columns smooth) ∧
       mapM (fun row => np_isub row yobs_center) smooth = Ok yobs) ∧
  (∀ spectra' test_frac center_measure,
     int_of_scaled (Z.of_nat (length (gwb spectra))) test_frac = Ok test_ind →
     length (gwb spectra') = length (gwb spectra) →
     fobs spectra' = fobs spectra →
     floored_spectra spectra' nfreqs test_ind
       = floored_spectra spectra nfreqs test_ind →
     get_smoothed_gwb spectra' nfreqs test_frac center_measure
       = get_smoothed_gwb spectra nfreqs test_frac center_measure).
Proof.
  split; [apply floored_spectra_elements|]. split; [|split; [|split]].
  - intros a. split; [apply clamp_low | apply clamp_high].
  - unfold floored_spectra.
    apply Forall_map, Forall_true; intros sample.
    apply Forall_map, Forall_true; intros reals.
    apply Forall_map, Forall_true; intros w. apply clamp_range.
  - intros test_frac center_measure out gp_freqs yerr yobs yobs_center.
    apply get_smoothed_gwb_reads_floored.
  - intros spectra' test_frac center_measure Hind Hlen Hfobs Hfloor.
    unfold get_smoothed_gwb. rewrite Hlen, Hind, !io_lift_Ok_bind.
    by rewrite Hfloor, Hfobs.
Qed.

End FlooredLogarithms.

(** ** The maximum a posteriori entry *)

Section Argmax.

Lemma argmax_from_spec (pre rest : list float) (mp : float) (best : nat) :
  Forall (fun v => is_nan v = false) (pre ++ rest) →
  pre !! best = Some mp →
  (∀ j v, pre !! j = Some v →
          (v <=? mp)%float = true ∧ ((j < best)%nat → (v <? mp)%float = true)) →
  is_argmax (pre ++ rest) (argmax_from mp best (length pre) rest).
Proof.
  revert pre mp best. induction rest as [|v rest IH]; intros pre mp best Hnan Hbest Hmax.
  - cbn. rewrite app_nil_r. by exists mp.
  - assert (is_nan mp = false) as Hmp.
    { apply list_elem_of_lookup_2 in Hbest.
      rewrite Forall_forall in Hnan. apply Hnan, elem_of_app. by left. }
    assert (is_nan v = false) as Hv.
    { rewrite Forall_forall in Hnan. apply Hnan, elem_of_app. right.
      apply elem_of_cons. by left. }
    assert (best < length pre)%nat as Hlt by (by eapply lookup_lt_Some).
    cbn [argmax_from]. rewrite Hmp.
    replace (pre ++ v :: rest) with ((pre ++ [v]) ++ rest) in *
      by (by rewrite <- app_assoc).
    replace (S (length pre)) with (length (pre ++ [v]))
      by (rewrite length_app; cbn; lia).
    destruct (v <=? mp)%float eqn:Hle; cbn [negb].
    + apply IH; [done| by rewrite lookup_app_l |].
      intros j u Hj. destruct (decide (j < length pre)%nat) as [Hin|Hout].
      * rewrite lookup_app_l in Hj by done. by apply Hmax.
      * rewrite lookup_app_r in Hj by lia.
        destruct (j - length pre)%nat as [|n] eqn:Hn; [|by destruct n].
        injection Hj as <-. split; [done | lia].
    + apply f64_not_le_lt in Hle; [|done..].
      apply IH; [done| by rewrite lookup_app_r, Nat.sub_diag by lia |].
      intros j u Hj. destruct (decide (j < length pre)%nat) as [Hin|Hout].
      * rewrite lookup_app_l in Hj by done.
        destruct (Hmax j u Hj) as [Hu _].
        pose proof (f64_le_lt_trans _ _ _ Hu Hle) as Huv.
        split; [by apply f64_lt_le | done].
      * rewrite lookup_app_r in Hj by lia.
        destruct (j - length pre)%nat as [|n] eqn:Hn; [|by destruct n].
        injection Hj as <-. split; [by apply f64_le_refl | lia].
Qed.

(** [np.argmax] of an array without NaN is the first index of its largest
    entry. *)
Lemma np_argmax_spec (a : list float) (best : nat) :
  Forall (fun v => is_nan v = false) a →
  np_argmax a = Ok best → is_argmax a best.
Proof.
  destruct a as [|v rest]; [done|]. intros Hnan [= <-].
  apply (argmax_from_spec [v] rest v 0); [done..|].
  intros [|j] u; [|done]. intros [= <-]. split; [|lia].
  apply f64_le_refl. by apply Forall_cons in Hnan as [? _].
Qed.

End Argmax.

Section MapEstimate.
Context `{NumPy} `{George} `{Emcee}.

Lemma populate_one_spec yobs_center sampler gp_george ii gp_george' :
  populate_one yobs_center sampler gp_george ii = Ok gp_george' →
  ∃ s gp best kernel_map center,
    sampler !! ii = Some s ∧ gp_george !! ii = Some gp ∧
    np_argmax (flatlnprobability s) = Ok best ∧
    flatchain s !! best = Some kernel_map ∧
    gp_george' = <[ii := store_fit gp (flatchain s) (flatlnprobability s)
                           kernel_map center]> gp_george.
Proof.
  unfold populate_one, item. intros Hrun.
  destruct (sampler !! ii) as [s|] eqn:Hs; [|done].
  destruct (gp_george !! ii) as [gp|] eqn:Hgp; [|done]. cbn in Hrun.
  destruct (np_argmax (flatlnprobability s)) as [best|] eqn:Hbest; [|done].
  cbn in Hrun.
  destruct (flatchain s !! best) as [kernel_map|] eqn:Hmap; [|done]. cbn in Hrun.
  destruct (yobs_center !! ii) as [center|]; [|done]. cbn in Hrun.
  injection Hrun as <-. by exists s, gp, best, kernel_map, center.
Qed.

(** The closing loop leaves every visited model with the chain, the
    log-posterior sequence and the chain entry at their argmax. *)
Lemma populate_spec yobs_center sampler indices gp_george fitted :
  populate yobs_center sampler gp_george indices = Ok fitted →
  NoDup indices →
  length fitted = length gp_george ∧
  ∀ ii, ii ∈ indices →
    ∃ s gp best kernel_map center,
      sampler !! ii = Some s ∧ gp_george !! ii = Some gp ∧
      np_argmax (flatlnprobability s) = Ok best ∧
      flatchain s !! best = Some kernel_map ∧
      fitted !! ii =
        Some (store_fit gp (flatchain s) (flatlnprobability s) kernel_map center).
Proof.
  revert gp_george. induction indices as [|i rest IH]; intros gp_george Hrun Hnd.
  - injection Hrun as <-. split; [done|]. by intros ii ?%elem_of_nil.
  - cbn [populate] in Hrun.
    apply result_bind_Ok in Hrun as (gp_george1 & Hone & Hrest).
    apply NoDup_cons in Hnd as [Hi Hnd].
    apply populate_one_spec in Hone
      as (s & gp & best & kernel_map & center & Hs & Hgp & Hbest & Hmap & ->).
    destruct (IH _ Hrest Hnd) as [Hlen Hall]. rewrite length_insert in Hlen.
    split; [done|]. intros ii [->|Hin]%elem_of_cons.
    + exists s, gp, best, kernel_map, center. split_and!; [done..|].
      clear IH Hall. revert Hrest Hi.
      generalize (store_fit gp (flatchain s) (flatlnprobability s) kernel_map center).
      intros m Hrest Hi.
      assert (<[i:=m]> gp_george !! i = Some m) as Hm.
      { apply list_lookup_insert_eq. by eapply lookup_lt_Some. }
      revert Hrest Hm. generalize (<[i:=m]> gp_george). clear Hgp Hlen.
      induction rest as [|k rest IHr]; intros l Hrest Hm.
      * by injection Hrest as <-.
      * cbn [populate] in Hrest.
        apply result_bind_Ok in Hrest as (l1 & Hone & Hrest).
        apply populate_one_spec in Hone as (? & ? & ? & ? & ? & _ & _ & _ & _ & ->).
        apply not_elem_of_cons in Hi as [Hik Hi].
        apply NoDup_cons in Hnd as [_ Hnd].
        apply (IHr Hnd Hi _ Hrest). by rewrite list_lookup_insert_ne.
    + destruct (Hall ii Hin) as (s' & gp' & best' & km' & c' & ? & Hgp' & ? & ? & ?).
      exists s', gp', best', km', c'. split_and!; [done| |done..].
      rewrite list_lookup_insert_ne in Hgp'; [done|]. by intros ->.
Qed.

Lemma rio_bind_Ok {A B : Type} (m : rio A) (k : A → rio B) g out (b : B) g' :
  (m ≫= k) g = (out, Ok (b, g')) →
  ∃ out1 a g1 out2, m g = (out1, Ok (a, g1)) ∧ k a g1 = (out2, Ok (b, g')).
Proof.
  unfold mbind at 1, rio_mbind. intros Hrun.
  apply io_bind_Ok in Hrun as (out1 & [a g1] & out2 & Hm & Hk & _).
  by exists out1, a, g1, out2.
Qed.

(** C1. When [fit_kernel_params] completes, every model it was asked to
    fit holds the flattened chain, the flattened log-posterior sequence,
    and as MAP vector the chain entry at the index [np.argmax] picks in
    that sequence; for a sequence without NaN that index is the first one
    whose log-posterior is the largest of the whole chain. *)
Theorem map_is_chain_entry_of_largest_posterior
    gp_freqs yobs_center gp_george nkpars nwalkers nsamples burn_frac
    cpu_count g out fitted g' (ii : nat) :
  fit_kernel_params gp_freqs yobs_center gp_george nkpars nwalkers nsamples
    burn_frac cpu_count g = (out, Ok (fitted, g')) →
  (ii < length gp_freqs)%nat →
  ∃ model chain lnprob kernel_map best,
    fitted !! ii = Some model ∧
    GaussProc.emcee_flatchain model = Some chain ∧
    GaussProc.emcee_flatlnprob model = Some lnprob ∧
    GaussProc.emcee_kernel_map model = Some kernel_map ∧
    np_argmax lnprob = Ok best ∧
    chain !! best = Some kernel_map ∧
    (Forall (fun v => is_nan v = false) lnprob → is_argmax lnprob best).
Proof.
  intros Hrun Hii. unfold fit_kernel_params in Hrun.
  apply rio_bind_Ok in Hrun as (out1 & sampler & g1 & out2 & _ & Hpop).
  unfold rio_lift in Hpop.
  apply io_lift_Ok in Hpop as [Hpop _].
  apply result_bind_Ok in Hpop as (fitted' & Hpop & [= -> _]).
  apply populate_spec in Hpop as [_ Hall]; [|apply NoDup_seq].
  destruct (Hall ii) as (s & gp & best & kernel_map & center & _ & _ & Hbest & Hmap & Hfit).
  { apply elem_of_seq. lia. }
  eexists _, (flatchain s), (flatlnprobability s), kernel_map, best.
  split_and!; [exact Hfit|done..|].
  intros Hnan. by apply np_argmax_spec.
Qed.

End MapEstimate.

(** ** Shape of the posterior-sample table *)

Section SampleShape.
Context `{Python} `{NumPy} `{George}.

Lemma mapM_result_total {A B : Type} (P : A → B → Prop) (f : A → result B)
    (l : list A) :
  (∀ a, a ∈ l → ∃ b, f a = Ok b ∧ P a b) →
  ∃ l', mapM f l = Ok l' ∧ Forall2 P l l'.
Proof.
  induction l as [|a l IH]; intros Hall.
  - by exists [].
  - destruct (Hall a) as (b & Hb & HP); [apply elem_of_cons; by left|].
    destruct IH as (l' & Hl' & HF).
    { intros a' Ha'. apply Hall, elem_of_cons. by right. }
    exists (b :: l'). cbn. rewrite Hb. cbn. rewrite Hl'. cbn.
    split; [done | by constructor].
Qed.

Lemma mapM_io_quiet {A B : Type} (P : A → B → Prop) (f : A → io B)
    (l : list A) :
  (∀ a, a ∈ l → ∃ b, f a = ([], Ok b) ∧ P a b) →
  ∃ l', mapM f l = ([], Ok l') ∧ Forall2 P l l'.
Proof.
  induction l as [|a l IH]; intros Hall.
  - by exists [].
  - destruct (Hall a) as (b & Hb & HP); [apply elem_of_cons; by left|].
    destruct IH as (l' & Hl' & HF).
    { intros a' Ha'. apply Hall, elem_of_cons. by right. }
    exists (b :: l'). cbn. rewrite Hb. cbn. rewrite Hl'. cbn.
    split; [done | by constructor].
Qed.

Lemma io_bind_quiet {A B : Type} (a : A) (k : A → io B) :
  (([], Ok a) : io A) ≫= k = k a.
Proof. cbn. by destruct (k a). Qed.

Lemma rio_lift_bind {A B : Type} (a : A) (k : A → rio B) (r : rng) :
  (rio_lift (Ok a) ≫= k) r = k a r.
Proof. unfold mbind, rio_mbind, rio_lift, io_lift. cbn. by destruct (k a r). Qed.

Lemma rio_try_bind {A B : Type} (draw : rng → result A * rng) (k : A → rio B)
    (r r' : rng) (a : A) :
  draw r = (Ok a, r') → (rio_try draw ≫= k) r = k a r'.
Proof.
  intros Hd. unfold mbind, rio_mbind, rio_try, io_lift. rewrite Hd. cbn.
  by destruct (k a r').
Qed.

Lemma rio_ret_bind {A B : Type} (a : A) (k : A → rio B) (r : rng) :
  (mret a ≫= k) r = k a r.
Proof. unfold mbind, rio_mbind, mret, rio_mret. cbn. by destruct (k a r). Qed.

(** The sampling loop completes on rows of the chain, from a state of the
    george model in which george answers. *)
Lemma sample_loop_length gp center_attr center env_pars
    (samples : list (list float)) (Inv : GP → Prop) left g0 hc r :
  (∀ g sample, Inv g → sample ∈ samples →
     ∃ g', gp_set_parameter_vector g sample = Ok g' ∧ Inv g' ∧
           ∀ r, ∃ v, (gp_sample_conditional g' (GaussProc.y gp) env_pars r).1
                     = Ok v) →
  get_center gp center_attr = Ok center →
  Inv g0 → Forall (fun p : nat * list float => p.2 ∈ samples) left →
  ∃ hc' r', sample_loop gp center_attr env_pars left g0 hc r
              = ([], Ok (hc', r')) ∧
            length hc' = length hc.
Proof.
  intros Hgeorge Hcenter.
  revert g0 hc r.
  induction left as [|[samp_ind sample] rest IH]; intros g0 hc r Hg0 Hleft.
  - by exists hc, r.
  - apply Forall_cons in Hleft as [Hsample Hleft]. cbn in Hsample.
    destruct (Hgeorge g0 sample Hg0 Hsample) as (g1 & Hg1 & HInv & Hdraw).
    destruct (Hdraw r) as [v Hv].
    destruct (gp_sample_conditional g1 (GaussProc.y gp) env_pars r)
      as [rv r1] eqn:Hsc. cbn in Hv. subst rv.
    destruct (IH g1 (<[samp_ind := sqrt (np_pow10 (center + v))]> hc) r1
                HInv Hleft) as (hc' & r' & Hrec & Hlen).
    exists hc', r'. rewrite length_insert in Hlen. split; [|done].
    cbn [sample_loop]. rewrite Hg1, rio_lift_bind.
    rewrite (rio_try_bind _ _ _ _ _ Hsc), Hcenter, rio_lift_bind.
    exact Hrec.
Qed.

Lemma imap_pair_rows {A : Type} (l : list A) (P : A → Prop) :
  Forall P l → Forall (fun p : nat * A => P p.2) (imap pair l).
Proof.
  intros Hl. apply Forall_forall. intros [i a] Hin.
  apply elem_of_lookup_imap in Hin as (j & b & [= -> ->] & Hb).
  rewrite Forall_forall in Hl. apply Hl. by eapply list_elem_of_lookup_2.
Qed.

Lemma helper_returns_nsamples g0 gp env_pars nsamples r :
  george_answers g0 gp env_pars → fitted_model gp → (0 ≤ nsamples)%Z →
  ∃ hc r', _sample_hc_from_gp_helper g0 gp env_pars nsamples r
             = ([], Ok (hc, r')) ∧
           length hc = Z.to_nat nsamples.
Proof.
  intros (Inv & Hg0 & Hgeorge) (c & center & Hchain & Hne & Hcenter) Hn.
  unfold _sample_hc_from_gp_helper.
  assert (chain_var_of gp ≠ None) as Hvar.
  { intros Hnone. rewrite Hnone in Hchain. done. }
  destruct (chain_var_of gp) as [name|] eqn:Hname; [|done].
  assert (np_zeros nsamples = Ok (replicate (Z.to_nat nsamples) 0%float)) as Hz.
  { unfold np_zeros. destruct (Z.ltb_spec nsamples 0); [lia|done]. }
  assert (length c ≠ 0%nat) as Hlen by (by destruct c).
  assert (∃ picks r1,
            np_random_randint (length c) (Z.to_nat nsamples) r = Ok (picks, r1) ∧
            Forall (fun i => (i < length c)%nat) picks) as (picks & r1 & Hpicks & Hlt).
  { unfold np_random_randint. destruct (decide (Z.to_nat nsamples = 0%nat)).
    - by eexists _, _.
    - rewrite decide_False by done. eexists _, _. split; [done|].
      apply Forall_forall. intros i (j & -> & _)%list_elem_of_fmap.
      by apply Nat.mod_upper_bound. }
  destruct (mapM_result_total (fun _ row => row ∈ c) (item c) picks)
    as (drawn & Hdrawn & Hrows).
  { intros i Hi. rewrite Forall_forall in Hlt. specialize (Hlt i Hi).
    destruct (lookup_lt_is_Some_2 c i Hlt) as [row Hrow].
    exists row. unfold item. rewrite Hrow. split; [done|].
    by eapply list_elem_of_lookup_2. }
  assert (Forall (fun row => row ∈ c) drawn) as Hfrom.
  { clear -Hrows. induction Hrows; constructor; done. }
  destruct (sample_loop_length gp (center_attr_of gp) center env_pars c Inv
              (imap pair drawn) g0 (replicate (Z.to_nat nsamples) 0%float) r1)
    as (hc & r' & Hloop & Hlenhc).
  { intros g sample Hg Hs. by apply (Hgeorge g c sample). }
  { done. }
  { done. }
  { by apply (imap_pair_rows drawn (fun row => row ∈ c)). }
  exists hc, r'. rewrite length_replicate in Hlenhc. split; [|done].
  rewrite rio_ret_bind, Hchain, rio_lift_bind, Hz, rio_lift_bind.
  erewrite rio_try_bind; [|by rewrite Hpicks].
  rewrite Hdrawn, rio_lift_bind. exact Hloop.
Qed.

Lemma column_length (rows : list (list float)) (j : nat) :
  Forall (fun r => (j < length r)%nat) rows →
  length (omap (fun row => row !! j) rows) = length rows.
Proof.
  induction 1 as [|r rows Hr _ IH]; [done|]. cbn.
  destruct (r !! j) eqn:Hj; [cbn; by rewrite IH|].
  apply lookup_ge_None in Hj. lia.
Qed.

Lemma column_lookup (rows : list (list float)) (j f : nat) :
  Forall (fun r => (j < length r)%nat) rows →
  omap (fun row => row !! j) rows !! f = rows !! f ≫= (fun row => row !! j).
Proof.
  intros Hall. revert f. induction Hall as [|r rows Hr _ IH]; intros f; [done|].
  cbn [omap list_omap]. destruct (r !! j) as [v|] eqn:Hj.
  - destruct f as [|f]; cbn; [done|apply IH].
  - apply lookup_ge_None in Hj. lia.
Qed.

Lemma np_T_well_shaped nrows ncols rows :
  length rows = nrows → Forall (fun r => length r = ncols) rows →
  well_shaped (np_T (Arr2 nrows ncols rows)).
Proof.
  intros Hn Hm. cbn. split; [by rewrite length_map, length_seq|].
  apply Forall_map, Forall_forall. intros j [_ Hj]%elem_of_seq. cbn.
  rewrite column_length; [done|].
  eapply Forall_impl; [exact Hm|]. intros r Hr. cbn in *. lia.
Qed.

(** The entry [(s, f)] of the transpose is the entry [(f, s)]. *)
Lemma np_T_item nrows ncols rows (s f : nat) :
  Forall (fun r => length r = ncols) rows → (s < ncols)%nat →
  np_item2 (np_T (Arr2 nrows ncols rows)) s f
  = rows !! f ≫= (fun row => row !! s).
Proof.
  intros Hm Hs. cbn. rewrite list_lookup_fmap, lookup_seq_lt by done. cbn.
  apply column_lookup. eapply Forall_impl; [exact Hm|]. cbn. intros r Hr. lia.
Qed.

(** *** The batches of [starmap] *)

Lemma elem_of_concat {A : Type} (x : A) (ls : list (list A)) :
  x ∈ concat ls → ∃ l, x ∈ l ∧ l ∈ ls.
Proof.
  induction ls as [|l ls IH]; cbn; [by intros ?%elem_of_nil|].
  intros [Hx|Hx]%elem_of_app.
  - exists l. split; [done|]. apply elem_of_cons. by left.
  - destruct (IH Hx) as (l' & ? & ?). exists l'. split; [done|].
    apply elem_of_cons. by right.
Qed.

Lemma batches_concat {A : Type} (size n : nat) (l : list A) :
  (length l ≤ n * size)%nat → concat (batches size n l) = l.
Proof.
  revert l. induction n as [|n IH]; intros l Hlen; cbn.
  - cbn in Hlen. by destruct l; [|cbn in Hlen; lia].
  - rewrite IH; [apply take_drop|]. rewrite length_drop. cbn in Hlen. lia.
Qed.

Lemma number_of_batches_covers (n size : nat) :
  (1 ≤ size)%nat → (n ≤ number_of_batches n size * size)%nat.
Proof.
  intros Hsize. unfold number_of_batches.
  destruct (Nat.eqb_spec size 0); [lia|].
  pose proof (Nat.div_mod_eq n size) as Hdm.
  pose proof (Nat.mod_upper_bound n size ltac:(lia)) as Hmod.
  destruct (Nat.eqb_spec (n mod size) 0); nia.
Qed.

Lemma map_chunksize_pos (n processes : nat) :
  (1 ≤ n)%nat → (1 ≤ map_chunksize n processes)%nat.
Proof.
  intros Hn. unfold map_chunksize. destruct (Nat.eqb_spec n 0); [lia|].
  destruct (Nat.eqb_spec (n mod (processes * 4)) 0) as [Hz|]; [|lia].
  destruct (Nat.eq_dec (processes * 4) 0) as [Hp|Hp].
  - rewrite Hp in Hz. cbn in Hz. lia.
  - pose proof (Nat.div_mod_eq n (processes * 4)). nia.
Qed.

(** The batches hold the tasks, all of them, in order. *)
Lemma starmap_batches_concat {A : Type} (l : list A) (processes : nat) :
  concat (batches (map_chunksize (length l) processes)
            (number_of_batches (length l)
               (map_chunksize (length l) processes)) l) = l.
Proof.
  destruct l as [|a l]; [done|].
  apply batches_concat, number_of_batches_covers, map_chunksize_pos. cbn. lia.
Qed.

Lemma first_failure_seen {A : Type} finished i (done : list (result A)) t e :
  ∃ t' e', first_failure finished i done (Some (t, e)) = Some (t', e').
Proof.
  revert i t e.
  induction done as [|[v|e1] rest IH]; intros i t e; cbn [first_failure].
  - by eexists _, _.
  - apply IH.
  - destruct (finished i <? t)%nat; apply IH.
Qed.

(** A failing batch makes [get()] raise. *)
Lemma map_result_fail {A : Type} finished (done : list (result (list A))) :
  Exists (fun r => ∃ e, r = Raise e) done →
  ∃ e, map_result finished done = Raise e.
Proof.
  intros Hex. unfold map_result.
  assert (∀ i seen, ∃ t e, first_failure finished i done seen = Some (t, e))
    as Hsome.
  { induction Hex as [r rest [e ->]|[v|e1] rest _ IH]; intros i seen;
      cbn [first_failure].
    - destruct seen as [[t e0]|]; [destruct (finished i <? t)%nat|];
        apply first_failure_seen.
    - apply IH.
    - apply IH. }
  destruct (Hsome 0%nat None) as (t & e & ->). by exists e.
Qed.

(** Without a failing batch [get()] returns the results in task order. *)
Lemma map_result_ok {A : Type} finished (rss : list (list A)) :
  map_result finished (map Ok rss) = Ok (concat rss).
Proof.
  unfold map_result.
  assert (∀ i seen, first_failure finished i (map Ok rss) seen = seen) as ->.
  { induction rss as [|rs rss IH]; intros i seen; [done|]. cbn. apply IH. }
  do 2 f_equal. induction rss as [|rs rss IH]; [done|]. cbn. by rewrite IH.
Qed.

(** Batches of tasks that all complete quietly. *)
Lemma batches_run_quiet {A B : Type} (P : A → B → Prop) (f : A → io B)
    (bs : list (list A)) :
  (∀ a, a ∈ concat bs → ∃ b, f a = ([], Ok b) ∧ P a b) →
  ∃ rss, map (mapM f) bs = map (fun rs => ([], Ok rs)) rss ∧
         Forall2 P (concat bs) (concat rss).
Proof.
  induction bs as [|b bs IH]; intros Hall.
  - exists []. split; [done|constructor].
  - destruct (mapM_io_quiet P f b) as (rs & Hrs & HP).
    { intros a Ha. apply Hall. cbn. apply elem_of_app. by left. }
    destruct IH as (rss & Hrss & HPs).
    { intros a Ha. apply Hall. cbn. apply elem_of_app. by right. }
    exists (rs :: rss). cbn. rewrite Hrs, Hrss. split; [done|].
    by apply Forall2_app.
Qed.

(** C5.  With [F >= 1] george models, a fitted per-frequency model for each
    of them (a chain that is not empty, and a center) on whose chain george
    answers, a non-negative [nsamples = S] and at least two processors,
    [sample_hc_from_gp] returns a table of shape [(S, F)]: the transpose of
    the [(F, S)] array whose row [f] is what the helper returns for
    frequency [f], so that the entry [(s, f)] of the table is sample [s] of
    frequency [f].  It warns, once, exactly when [S < 100], and returns the
    table all the same. *)
Theorem sampled_table_shape_and_advisory (gp_george : list GaussProc.t)
    (gp_list : list GP) (env_pars : list float) (nsamples : Z)
    (cpu_count : nat) (worker_rng : nat → rng) (finished : nat → nat) :
  (0 < length gp_list ≤ length gp_george)%nat →
  (∀ i g gp, gp_list !! i = Some g → gp_george !! i = Some gp →
             fitted_model gp ∧ george_answers g gp env_pars) →
  (0 ≤ nsamples)%Z → (2 ≤ cpu_count)%nat →
  ∃ rows table,
    sample_hc_from_gp gp_george gp_list env_pars nsamples cpu_count worker_rng
      finished
    = (if (nsamples <? 100)%Z then [few_samples_warning] else [], Ok table) ∧
    np_shape table = [Z.to_nat nsamples; length gp_list] ∧
    well_shaped table ∧
    length rows = length gp_list ∧
    (∀ i g gp, gp_list !! i = Some g → gp_george !! i = Some gp →
       ∃ hc r',
         _sample_hc_from_gp_helper g gp env_pars nsamples (worker_rng i)
           = ([], Ok (hc, r')) ∧
         rows !! i = Some hc ∧ length hc = Z.to_nat nsamples) ∧
    (∀ s f, (s < Z.to_nat nsamples)%nat → (f < length gp_list)%nat →
       ∃ v, np_item2 table s f = Some v ∧
            rows !! f ≫= (fun hc => hc !! s) = Some v).
Proof.
  intros [Hpos Hlen] Hfit Hn Hcpu. unfold sample_hc_from_gp.
  pose (wf := fun (i : nat) (a : nat * GP * GaussProc.t) =>
                a.1.1 = i ∧ gp_list !! i = Some a.1.2 ∧
                gp_george !! i = Some a.2).
  destruct (mapM_result_total wf
              (fun i : nat => g ← item gp_list i; gp ← item gp_george i;
                              mret (i, g, gp))
              (seq 0 (length gp_list))) as (args & Hargs & Hwf).
  { intros i [_ Hi]%elem_of_seq. unfold item.
    destruct (gp_list !! i) as [g|] eqn:Hg;
      [|apply lookup_ge_None in Hg; lia].
    destruct (gp_george !! i) as [gp|] eqn:Hgp;
      [|apply lookup_ge_None in Hgp; lia].
    by exists (i, g, gp). }
  pose proof (Forall2_length _ _ _ Hwf) as Hlargs. rewrite length_seq in Hlargs.
  pose (run := fun '((i, g, gp) : nat * GP * GaussProc.t) =>
                 '(hc, _) ← _sample_hc_from_gp_helper g gp env_pars nsamples
                              (worker_rng i);
                 (mret hc : io (list float))).
  pose (good := fun (a : nat * GP * GaussProc.t) (hc : list float) =>
                  (∃ r', _sample_hc_from_gp_helper a.1.2 a.2 env_pars nsamples
                           (worker_rng a.1.1) = ([], Ok (hc, r'))) ∧
                  length hc = Z.to_nat nsamples).
  set (processes := Z.to_nat (Z.of_nat cpu_count - 1)).
  destruct (batches_run_quiet good run
              (batches (map_chunksize (length args) processes)
                 (number_of_batches (length args)
                    (map_chunksize (length args) processes)) args))
    as (rss & Hdone & Hgood).
  { rewrite starmap_batches_concat. intros [[i g] gp] Hin.
    apply list_elem_of_lookup_1 in Hin as [k Hk].
    destruct (Forall2_lookup_r _ _ _ _ _ Hwf Hk) as (i' & Hi' & Hw).
    apply lookup_seq in Hi' as [-> _]. destruct Hw as (Hi & Hg & Hgp).
    cbn in Hi, Hg, Hgp. subst i.
    destruct (Hfit k g gp Hg Hgp) as [Hmodel Hgeorge].
    destruct (helper_returns_nsamples g gp env_pars nsamples (worker_rng k)
                Hgeorge Hmodel Hn) as (hc & r' & Hrun & Hhc).
    exists hc. unfold run, good. cbn. rewrite Hrun. split; [done|].
    split; [by exists r'|done]. }
  rewrite starmap_batches_concat in Hgood.
  set (rows := concat rss) in *.
  pose proof (Forall2_length _ _ _ Hgood) as Hlrows.
  assert (Forall (fun hc => length hc = Z.to_nat nsamples) rows) as Hall.
  { clear -Hgood. induction Hgood as [|a hc l l' [_ Hhc] _ IH]; by constructor. }
  assert (np_array rows
          = Ok (Arr2 (length gp_list) (Z.to_nat nsamples) rows)) as Harr.
  { destruct rows as [|row rows'] eqn:Hrows; [cbn in Hlrows; lia|].
    unfold np_array.
    assert (forallb (fun r' => Nat.eqb (length r') (length row)) (row :: rows')
            = true) as ->.
    { apply forallb_forall. intros r' Hr'. apply Nat.eqb_eq.
      rewrite Forall_forall in Hall.
      rewrite (Hall r'), (Hall row); [done|apply elem_of_cons; by left|].
      by apply list_elem_of_In. }
    apply Forall_cons in Hall as [-> _]. by rewrite <- Hlrows, <- Hlargs. }
  exists rows, (np_T (Arr2 (length gp_list) (Z.to_nat nsamples) rows)).
  split_and!.
  - assert (Pool (Z.of_nat cpu_count - 1) = Ok tt) as HPool.
    { unfold Pool. destruct (Z.ltb_spec (Z.of_nat cpu_count - 1) 1); [lia|done]. }
    rewrite Hargs, HPool. unfold io_lift.
    rewrite (io_bind_quiet args), (io_bind_quiet tt).
    fold processes. fold run. rewrite Hdone.
    assert (concat (map fst (map (fun rs : list (list float) =>
                                    (([] : list event), Ok rs)) rss)) = [])
      as ->.
    { clear. induction rss as [|rs rss IH]; [done|]. cbn. exact IH. }
    rewrite map_map. cbn [snd]. change (map (fun x => Ok x) rss) with (map Ok rss).
    rewrite map_result_ok. fold rows.
    rewrite (io_bind_quiet rows), Harr, (io_bind_quiet (Arr2 _ _ _)).
    by destruct (nsamples <? 100)%Z.
  - done.
  - apply np_T_well_shaped; [lia|done].
  - lia.
  - intros i g gp Hg Hgp. pose proof (lookup_lt_Some _ _ _ Hg) as Hi.
    destruct (lookup_lt_is_Some_2 args i) as [a Ha]; [lia|].
    destruct (Forall2_lookup_r _ _ _ _ _ Hwf Ha) as (i' & Hi' & Hw).
    apply lookup_seq in Hi' as [-> _]. destruct Hw as (Hai & Hag & Hagp).
    destruct (Forall2_lookup_l _ _ _ _ _ Hgood Ha) as (hc & Hhc & [r' Hrun] & Hl).
    cbn in Hai, Hag, Hagp. rewrite Hai in Hrun.
    assert (a.1.2 = g) as Heg by congruence.
    assert (a.2 = gp) as Hegp by congruence.
    rewrite Heg, Hegp in Hrun. by exists hc, r'.
  - intros s f Hs Hf. rewrite np_T_item by done.
    destruct (lookup_lt_is_Some_2 rows f) as [hc Hhc]; [lia|].
    rewrite Hhc. cbn. rewrite Forall_forall in Hall.
    destruct (lookup_lt_is_Some_2 hc s) as [v Hv].
    { rewrite (Hall hc); [done|]. by eapply list_elem_of_lookup_2. }
    by exists v.
Qed.

End SampleShape.

(** ** The theorems on concrete runs *)

Section Runs.
Import Sample.

Lemma unfitted_built :
  GaussProc.__init__ [[0.5%float]] [0.1%float] (Some [0.01%float])
                     (Some bounds) "expsquaredkernel" = ([], Ok unfitted).
Proof. vm_compute. reflexivity. Qed.

(** A fit that completes: one frequency, two walkers. *)
Lemma map_is_chain_entry_of_largest_posterior_run :
  ∃ model chain lnprob kernel_map best,
    fitted !! 0%nat = Some model ∧
    GaussProc.emcee_flatchain model = Some chain ∧
    GaussProc.emcee_flatlnprob model = Some lnprob ∧
    GaussProc.emcee_kernel_map model = Some kernel_map ∧
    np_argmax lnprob = Ok best ∧
    chain !! best = Some kernel_map ∧
    (Forall (fun v => is_nan v = false) lnprob → is_argmax lnprob best).
Proof.
  eapply (map_is_chain_entry_of_largest_posterior
            [1e-9%float] [(-14)%float] [unfitted] 2 2 4 0.25%float 2 tape).
  - vm_compute. reflexivity.
  - cbn. lia.
Defined.

(** Inside the box, and outside it. *)
Lemma lnprior_uniform_inside_neg_inf_outside_run :
  GaussProc.lnprior unfitted [0.5%float; (-3)%float]
    = Ok (log_uniform_density unfitted) ∧
  GaussProc.lnprior unfitted [0.5%float; 21%float] = Ok neg_infinity.
Proof.
  destruct (lnprior_uniform_inside_neg_inf_outside
              _ _ _ _ _ _ _ [0.5%float; (-3)%float] unfitted_built eq_refl)
    as [Hin _].
  destruct (lnprior_uniform_inside_neg_inf_outside
              _ _ _ _ _ _ _ [0.5%float; 21%float] unfitted_built eq_refl)
    as [_ Hout].
  split.
  - apply Hin. repeat constructor.
  - apply Hout. right. left. by left.
Defined.

(** Both corners of the box. *)
Lemma lnprior_closed_at_boundary_run :
  GaussProc.lnprior unfitted [20%float; (-20)%float]
    = Ok (log_uniform_density unfitted) ∧
  (is_finite (log_uniform_density unfitted) = true →
   GaussProc.lnprior unfitted [20%float; (-20)%float] ≠ Ok neg_infinity).
Proof.
  apply (lnprior_closed_at_boundary _ _ _ _ _ _ _ [20%float; (-20)%float]
           unfitted_built eq_refl).
  - left. by left.
  - repeat constructor.
Defined.

(** A zero, a NaN and an ordinary amplitude; and the uncertainties of
    the training set of [Sample.training]. *)
Lemma squares_floored_before_log_run :
  clamp (square 0) = 1e-40%float ∧ clamp (square nan) = 1e-40%float ∧
  clamp (square 2) = 4%float ∧
  training.1.1.2 = map (map (fun reals => np_std (map np_log10 reals)))
                       (floored_spectra spectra 7 1).
Proof.
  destruct (@squares_floored_before_log numpy scipy constants spectra 7 1)
    as (_ & Hel & _ & Hread & _).
  split_and!.
  - apply (Hel 0%float). by left.
  - apply (Hel nan). by right.
  - by apply (Hel 2%float).
  - apply (Hread 0.25%float "median" [] training.1.1.1 training.1.1.2
             training.1.2 training.2); vm_compute; reflexivity.
Defined.

(** An unknown name, and a known one in another case. *)
Lemma kernel_name_validated_run :
  (∃ msg,
     GaussProc.__init__ [[0.5%float]] [0.1%float] None None "NotAKernel" =
       (GaussProc.unexpected_kernel_report "NotAKernel", Raise (ValueError msg)) ∧
     ∀ name, name ∈ kernel_list →
       ∃ text, Print text ∈ GaussProc.unexpected_kernel_report "NotAKernel" ∧
               occurs_in name text) ∧
  (∃ self,
     GaussProc.__init__ [[0.5%float]] [0.1%float] None (Some bounds)
                        "MATERN32kernel" = ([], Ok self) ∧
     GaussProc.kernel self ∈ kernel_list ∧
     lower (GaussProc.kernel self) = lower "MATERN32kernel").
Proof.
  split.
  - apply (@kernel_name_validated george [[0.5%float]] [0.1%float] None None
             bounds "NotAKernel").
    intros name Hin. cbn in Hin.
    repeat (apply elem_of_cons in Hin as [->|Hin]; [discriminate|]).
    by apply elem_of_nil in Hin.
  - apply (@kernel_name_validated george [[0.5%float]] [0.1%float] None None
             bounds "MATERN32kernel").
    exists "Matern32Kernel". split; [|reflexivity].
    cbn. apply elem_of_cons; right. apply elem_of_cons; right.
    apply elem_of_cons; by left.
Defined.

(** A point at which the stand-in covariance is singular. *)
Lemma singular_covariance_rejected_run :
  GaussProc.lnlike unfitted [0%float; 0%float] = Ok neg_infinity ∧
  GaussProc.lnprob unfitted [0%float; 0%float] = Ok neg_infinity.
Proof.
  apply (singular_covariance_rejected _ _ _ _ _ _ unfitted
           [0%float; 0%float] 0%float unfitted_built);
    reflexivity.
Defined.

(** A model without chains, and a fitted one. *)
Lemma missing_chain_is_an_error_run :
  _sample_hc_from_gp_helper [0%float] unfitted [0.5%float] 3 tape
    = ([Print "Chains are not saved!"], Raise (UnboundLocalError "chain_var")) ∧
  ∃ model c, fitted !! 0%nat = Some model ∧ c ≠ [] ∧
             get_chain model (chain_var_of model) = Ok c.
Proof.
  split.
  - by apply (@missing_chain_is_an_error numpy george [0%float] unfitted
                [0.5%float] 3 tape).
  - eexists _, _. split; [reflexivity|]. split; [|
      by eapply (@missing_chain_is_an_error numpy george [0%float] _
                   [0.5%float] 3 tape)].
    discriminate.
Defined.

(** A quarter of four samples held out. *)
Lemma design_rows_match_training_rows_run :
  ∃ test_ind,
    int_of_scaled (Z.of_nat (length (gwb spectra))) 0.25 = Ok test_ind ∧
    (0 ≤ test_ind ≤ Z.of_nat (length (gwb spectra)))%Z ∧
    length xobs = length training.1.2 ∧ length xobs = length training.1.1.2 ∧
    Z.of_nat (length xobs) = (Z.of_nat (length (gwb spectra)) - test_ind)%Z.
Proof.
  apply (design_rows_match_training_rows spectra 7 0.25%float "median" []
           training.1.1.1 training.1.1.2 training.1.2 training.2 xobs).
  - cbn. lia.
  - reflexivity.
  - vm_compute. reflexivity.
  - vm_compute. reflexivity.
Defined.

(** The sign of the fraction matters: with [test_frac = -0.5] and four
    samples the count is [-2]; the slice [[-2:]] keeps two samples while
    [np.zeros((4 + 2, 1))] makes six rows. *)
Remark rows_differ_for_negative_fraction :
  match get_parameter_values spectra (-0.5)%float,
        (get_smoothed_gwb spectra 7 (-0.5)%float "median").2 with
  | Ok rows, Ok (_, yerr, yobs, _) =>
      (length rows, length yobs, length yerr) = (6, 2, 2)%nat
  | _, _ => False
  end.
Proof. vm_compute. reflexivity. Qed.

(** Three samples of one frequency: an advisory and a 3-by-1 table. *)
Lemma sampled_table_shape_and_advisory_run :
  ∃ (rows : list (list float)) table,
    sample_hc_from_gp fitted [[0%float]] [0.5%float] 3 2 (fun _ => tape)
      (fun i => i)
      = ([few_samples_warning], Ok table) ∧
    np_shape table = [3%nat; 1%nat] ∧ well_shaped table ∧
    length rows = 1%nat ∧
    ∀ s f, (s < 3)%nat → (f < 1)%nat →
      ∃ v, np_item2 table s f = Some v ∧
           rows !! f ≫= (fun hc => hc !! s) = Some v.
Proof.
  destruct (@sampled_table_shape_and_advisory numpy george fitted [[0%float]]
              [0.5%float] 3 2 (fun _ => tape) (fun i => i))
    as (rows & table & Hrun & Hshape & Hwell & Hlen & _ & Hcells).
  - cbn. lia.
  - intros [|i] g gp Hg Hgp; [|discriminate].
    injection Hg as <-. injection Hgp as <-. split.
    + eexists _, _. split; [reflexivity|]. split; [discriminate|reflexivity].
    + exists (fun _ => True). split; [done|].
      intros g samples sample _ _ _. exists sample.
      split; [reflexivity|]. split; [done|]. intros r. by exists 0%float.
  - lia.
  - lia.
  - exists rows, table. split_and!; done.
Defined.

(** C5, as stated, fails in two ways.  With a single processor the pool
    is asked for no worker and the call raises instead of returning a
    table; without frequencies the result has shape [(0,)], not
    [(S, 0)]. *)
Lemma one_processor_or_no_frequency_gives_no_table :
  sample_hc_from_gp fitted [[0%float]] [0.5%float] 3 1 (fun _ => tape)
    (fun i => i)
    = ([few_samples_warning],
       Raise (ValueError "Number of processes must be at least 1")) ∧
  ∃ table,
    sample_hc_from_gp [] [] [0.5%float] 3 2 (fun _ => tape) (fun i => i)
      = ([few_samples_warning], Ok table) ∧
    np_shape table = [0%nat] ∧ np_shape table ≠ [3%nat; 0%nat].
Proof.
  split; [reflexivity|]. eexists. split; [reflexivity|]. split; [reflexivity|].
  discriminate.
Qed.

(** C3, as stated, fails: an infinite amplitude is not finite, and its
    square passes the floor unchanged. *)
Lemma infinite_amplitude_not_floored :
  is_finite infinity = false ∧
  clamp (square infinity) = infinity ∧
  clamp (square infinity) ≠ 1e-40%float ∧
  floored_spectra {| gwb := [[[infinity]]]; fobs := [1e-9%float];
                     sample_params := [[0.1%float]];
                     param_names := ["hard_time"] |} 1 0 = [[[infinity]]].
Proof. split_and!; [reflexivity..|discriminate|reflexivity]. Qed.

End Runs.


(** ** More on the prior and the constructor *)

Section PriorEdges.
Context `{NumPy} `{George} `{Hpy : Python}.

Lemma f64_nan_not_le (v c : float) : is_nan v = true → (v <=? c)%float = false.
Proof. intros. f64_order. Qed.

(** X1.  For a model built by the constructor and a vector of the model's
    dimension, [lnprior] takes one of two values only: the log-uniform density
    or [-inf].  A vector with a NaN component gets [-inf], since every
    comparison with a NaN is false. *)
Theorem lnprior_two_valued_and_rejects_nan
    x y yerr d kernel out self (p : list float) :
  GaussProc.__init__ x y yerr (Some d) kernel = (out, Ok self) →
  length p = (size d + 1)%nat →
  (GaussProc.lnprior self p = Ok (log_uniform_density self) ∨
   GaussProc.lnprior self p = Ok neg_infinity) ∧
  (Exists (fun v => is_nan v = true) p →
   GaussProc.lnprior self p = Ok neg_infinity).
Proof.
  intros Hinit Hlen. apply init_has_box in Hinit.
  rewrite (lnprior_box self _ p Hinit Hlen). split.
  - destruct (forallb _ p); [by left | by right].
  - intros Hnan. rewrite forallb_Exists_false; [done|].
    eapply Exists_impl; [exact Hnan|]. intros v Hv. cbn beta.
    by rewrite (f64_nan_not_le _ _ Hv).
Qed.

Lemma np_broadcast_mismatch {A : Type} (f : float → float → A) (a b : list float) :
  length a ≠ length b → length a ≠ 1%nat → length b ≠ 1%nat →
  np_broadcast f a b = Raise (ValueError "operands could not be broadcast together").
Proof.
  intros Hab Ha Hb. unfold np_broadcast. rewrite decide_False by done.
  destruct a as [|u [|u' a]], b as [|v [|v' b]]; done.
Qed.

(** X2.  A vector whose length is neither the model's dimension nor one
    cannot be broadcast against the bound arrays: [lnprior] raises
    [ValueError], and so does [lnprob], which evaluates the prior first.  (The
    model has at least one parameter, so its bound arrays are not of length
    one.) *)
Theorem lnprior_wrong_dimension_raises
    x y yerr d kernel out self (p : list float) :
  GaussProc.__init__ x y yerr (Some d) kernel = (out, Ok self) →
  (1 ≤ size d)%nat →
  length p ≠ (size d + 1)%nat → length p ≠ 1%nat →
  ∃ msg, GaussProc.lnprior self p = Raise (ValueError msg) ∧
         GaussProc.lnprob self p = Raise (ValueError msg).
Proof.
  intros Hinit Hd Hlen H1. apply init_has_box in Hinit as [Hmax _].
  eexists. unfold GaussProc.lnprob, GaussProc.lnprior. rewrite Hmax.
  rewrite (np_broadcast_mismatch PrimFloat.leb p (np_full (size d + 1) 20));
    [split; reflexivity | unfold np_full; by rewrite length_replicate | done
    | unfold np_full; rewrite length_replicate; lia].
Qed.

Lemma list_index_first (v : string) (l : list string) (i : nat) :
  list_index v l = Some i → ∀ j s, (j < i)%nat → l !! j = Some s → s ≠ v.
Proof.
  revert i. induction l as [|s0 l IH]; intros i; cbn; [done|].
  destruct (String.eqb s0 v) eqn:E.
  - intros [= <-] j s Hj. lia.
  - apply String.eqb_neq in E.
    destruct (list_index v l) as [k|]; cbn; [|done]. intros [= <-] [|j] s Hj.
    + by intros [= <-].
    + cbn. apply (IH k eq_refl). lia.
Qed.

Lemma init_kernel x y yerr d kernel out self :
  GaussProc.__init__ x y yerr (Some d) kernel = (out, Ok self) →
  out = [] ∧
  ∃ i, list_index (lower kernel) (map lower kernel_list) = Some i ∧
       kernel_list !! i = Some (GaussProc.kernel self).
Proof.
  unfold GaussProc.__init__. intros Hinit.
  destruct (list_index _ _) as [i|] eqn:Hidx; [|by inversion Hinit].
  destruct (kernel_list !! i) as [name|] eqn:Hi; inversion Hinit; subst.
  split; [done|]. by exists i.
Qed.

(** X3.  When the constructor accepts a kernel name it prints nothing, and
    the name it stores is the library's spelling of the first kernel family, in
    the library's order, whose lower-cased name is the lower-cased argument.
    Building a model from the stored name stores the same name again. *)
Theorem kernel_name_is_first_match_and_stable
    x y yerr d kernel out self x' y' yerr' d' :
  GaussProc.__init__ x y yerr (Some d) kernel = (out, Ok self) →
  out = [] ∧
  lower (GaussProc.kernel self) = lower kernel ∧
  (∃ i, kernel_list !! i = Some (GaussProc.kernel self) ∧
        ∀ j name, (j < i)%nat → kernel_list !! j = Some name →
                  lower name ≠ lower kernel) ∧
  ∃ self',
    GaussProc.__init__ x' y' yerr' (Some d') (GaussProc.kernel self)
      = ([], Ok self') ∧
    GaussProc.kernel self' = GaussProc.kernel self.
Proof.
  intros Hinit. destruct (init_kernel _ _ _ _ _ _ _ Hinit) as (-> & i & Hidx & Hi).
  pose proof (list_index_Some _ _ _ Hidx) as Hlow.
  rewrite list_lookup_fmap, Hi in Hlow. injection Hlow as Hlow.
  split; [done|]. split; [done|]. split.
  - exists i. split; [done|]. intros j name Hj Hname.
    apply (list_index_first _ _ _ Hidx j (lower name) Hj).
    by rewrite list_lookup_fmap, Hname.
  - unfold GaussProc.__init__. rewrite Hlow, Hidx, Hi. by eexists.
Qed.

(** X4.  A model as the constructor leaves it has neither a chain nor a
    center.  The sampling helper prints "Chains are not saved!" and raises
    [UnboundLocalError] for [chain_var], which it reads in its body.
    [hc_from_gp] on that model alone, when the prediction of george
    succeeds, fails on the unbound [center_attr], which it reads inside a
    list comprehension: with [NameError] on an interpreter that runs the
    comprehension as a nested function (up to CPython 3.11), with
    [UnboundLocalError] on one that runs it in the frame of the function. *)
Theorem unfitted_model_cannot_predict_or_sample
    x y yerr d kernel out self (g : GP) (env_pars : list float)
    (nsamples : Z) (r : rng) :
  GaussProc.__init__ x y yerr (Some d) kernel = (out, Ok self) →
  _sample_hc_from_gp_helper g self env_pars nsamples r
    = ([Print "Chains are not saved!"], Raise (UnboundLocalError "chain_var")) ∧
  (∀ mu cov, gp_predict g (GaussProc.y self) env_pars = Ok (mu, cov) →
     hc_from_gp [self] [g] env_pars
     = Raise (if inlined_comprehensions
              then UnboundLocalError "center_attr"
              else NameError "center_attr")).
Proof.
  unfold GaussProc.__init__. intros Hinit.
  destruct (list_index _ _) as [i|]; [|by inversion Hinit].
  destruct (kernel_list !! i) as [name|]; inversion Hinit; subst. split.
  - reflexivity.
  - intros mu cov Hpred. unfold hc_from_gp. cbn in *. rewrite Hpred. reflexivity.
Qed.

End PriorEdges.


(** ** More on the preprocessor and the parameter extractor *)

Section PreprocessingEdges.
Context `{NumPy} `{SciPy} `{Constants}.

Lemma center_stat_unknown (center_measure : string) :
  lower center_measure ≠ "median" → lower center_measure ≠ "mean" →
  center_stat center_measure
  = Raise (ValueError ("`center_measure` must be 'mean' or 'median', not '"
                       +:+ center_measure +:+ "'")).
Proof.
  intros Hmed Hmean. unfold center_stat.
  apply String.eqb_neq in Hmed, Hmean. by rewrite Hmed, Hmean.
Qed.

(** X5.  [get_smoothed_gwb] takes the center measures "median" and "mean" in
    any letter case.  For any other measure it raises a [ValueError] whose
    message quotes the measure as it was given, before anything is printed. *)
Theorem unknown_center_measure_rejected spectra nfreqs test_frac test_ind
    (center_measure : string) :
  int_of_scaled (Z.of_nat (length (gwb spectra))) test_frac = Ok test_ind →
  (lower center_measure ≠ "median" → lower center_measure ≠ "mean" →
   ∃ msg,
     get_smoothed_gwb spectra nfreqs test_frac center_measure
       = ([], Raise (ValueError msg)) ∧
     occurs_in center_measure msg) ∧
  (lower center_measure = "median" → center_stat center_measure = Ok np_median) ∧
  (lower center_measure = "mean" → center_stat center_measure = Ok np_mean).
Proof.
  intros Hind. split_and!.
  - intros Hmed Hmean. eexists. split.
    + unfold get_smoothed_gwb. rewrite Hind, (center_stat_unknown _ Hmed Hmean).
      reflexivity.
    + by exists "`center_measure` must be 'mean' or 'median', not '", "'".
  - intros Hmed. unfold center_stat. by rewrite Hmed.
  - intros Hmean. unfold center_stat. by rewrite Hmean.
Qed.

Lemma slice_to_take {A : Type} (a : list A) (stop : Z) :
  (0 ≤ stop)%Z → slice_to a stop = take (Z.to_nat stop) a.
Proof.
  intros Hs. unfold slice_to, slice_bound.
  destruct (Z.ltb_spec stop 0); [lia|].
  destruct (Z.le_gt_cases stop (Z.of_nat (length a))).
  - f_equal. lia.
  - rewrite !take_ge; [done|lia..].
Qed.

Lemma slice_from_drop {A : Type} (a : list A) (start : Z) :
  (0 ≤ start)%Z → slice_from a start = drop (Z.to_nat start) a.
Proof.
  intros Hs. unfold slice_from, slice_bound.
  destruct (Z.ltb_spec start 0); [lia|].
  destruct (Z.le_gt_cases start (Z.of_nat (length a))).
  - f_equal. lia.
  - rewrite !drop_ge; [done|lia..].
Qed.

(** X6.  For a non-negative [nfreqs] and a non-negative held-out count, the
    frequencies that [get_smoothed_gwb] returns are the first [nfreqs] entries
    of the library's frequency axis (all of them when there are fewer), each
    multiplied by [YR]; and every row of the returned uncertainties has one
    entry per kept frequency of the sample it was computed from. *)
Theorem kept_frequencies_are_a_prefix spectra nfreqs test_frac center_measure
    test_ind out gp_freqs yerr yobs yobs_center :
  (0 ≤ nfreqs)%Z → (0 ≤ test_ind)%Z →
  int_of_scaled (Z.of_nat (length (gwb spectra))) test_frac = Ok test_ind →
  get_smoothed_gwb spectra nfreqs test_frac center_measure
    = (out, Ok (gp_freqs, yerr, yobs, yobs_center)) →
  gp_freqs = map (fun f => f * YR)%float (take (Z.to_nat nfreqs) (fobs spectra)) ∧
  length gp_freqs = Nat.min (Z.to_nat nfreqs) (length (fobs spectra)) ∧
  Forall2 (fun sample errs =>
             length errs = Nat.min (Z.to_nat nfreqs) (length sample))
          (drop (Z.to_nat test_ind) (gwb spectra)) yerr.
Proof.
  intros Hn Hti Hind Hrun. unfold get_smoothed_gwb in Hrun. rewrite Hind in Hrun.
  apply io_bind_Ok in Hrun as (? & ti & ? & [[= <-] _]%io_lift_Ok & Hrun & _).
  apply io_bind_Ok in Hrun as (? & stat & ? & _ & Hrun & _).
  apply io_bind_Ok in Hrun as (? & smooth & ? & _ & Hrun & _).
  apply io_bind_Ok in Hrun as (? & [] & ? & _ & Hrun & _).
  apply io_bind_Ok in Hrun as (? & stat0 & ? & _ & Hrun & _).
  apply io_bind_Ok in Hrun as (? & yobs' & ? & _ & Hrun & _).
  injection Hrun as _ <- <- _ _.
  rewrite slice_to_take by done. split; [done|]. split.
  { by rewrite length_map, length_take. }
  unfold floored_spectra. rewrite slice_from_drop by done.
  induction (drop (Z.to_nat test_ind) (gwb spectra)) as [|sample rest IH];
    cbn; constructor; [|done].
  rewrite !length_map, slice_to_take, length_take by done. done.
Qed.

End PreprocessingEdges.

Section ExtractorContent.
Context `{NumPy}.

Lemma py_index_nat {A : Type} (a : list A) (i : nat) (v : A) :
  a !! i = Some v → py_index a (Z.of_nat i) = Ok v.
Proof.
  intros Hv. unfold py_index. pose proof (lookup_lt_Some _ _ _ Hv).
  destruct (Z.ltb_spec (Z.of_nat i) 0); [lia|].
  destruct (Z.ltb_spec (Z.of_nat i) 0); [lia|].
  destruct (Z.leb_spec (Z.of_nat (length a)) (Z.of_nat i)); [lia|]. cbn.
  by rewrite Nat2Z.id, Hv.
Qed.

Lemma mapM_lookup_all {A : Type} (f : nat → result A) (l : list A) :
  (∀ k v, l !! k = Some v → f k = Ok v) →
  mapM f (seq 0 (length l)) = Ok l.
Proof.
  revert f. induction l as [|v l IH]; intros f Hf; [done|].
  cbn [length seq]. cbn. rewrite (Hf 0%nat v eq_refl). cbn.
  rewrite <- seq_shift.
  assert (mapM f (map S (seq 0 (length l))) = mapM (f ∘ S) (seq 0 (length l))) as ->.
  { generalize (seq 0 (length l)). intros ks.
    induction ks as [|k ks IHk]; [done|]. cbn. by rewrite IHk. }
  rewrite (IH (f ∘ S)); [done|]. intros k w Hk. by apply (Hf (S k)).
Qed.

Lemma parameter_rows_are_held_in spectra test_ind :
  table_shaped spectra →
  (0 ≤ test_ind ≤ Z.of_nat (length (gwb spectra)))%Z →
  mapM (parameter_row spectra test_ind)
       (seq 0 (Z.to_nat (Z.of_nat (length (gwb spectra)) - test_ind)))
  = Ok (drop (Z.to_nat test_ind) (sample_params spectra)).
Proof.
  intros [Hrows Hcols] Hti.
  replace (Z.to_nat (Z.of_nat (length (gwb spectra)) - test_ind))
    with (length (drop (Z.to_nat test_ind) (sample_params spectra)))
    by (rewrite length_drop; lia).
  apply mapM_lookup_all. intros ii row Hrow. rewrite lookup_drop in Hrow.
  unfold parameter_row.
  assert (py_index (sample_params spectra) (Z.of_nat ii + test_ind) = Ok row) as Hget.
  { replace (Z.of_nat ii + test_ind)%Z with (Z.of_nat (Z.to_nat test_ind + ii)) by lia.
    by apply py_index_nat. }
  assert (length row = length (param_names spectra)) as <-.
  { rewrite Forall_forall in Hcols. apply Hcols.
    by eapply list_elem_of_lookup_2. }
  apply mapM_lookup_all. intros k v Hk. rewrite Hget. cbn.
  by apply py_index_nat.
Qed.

(** What [get_parameter_values] returns on a well-shaped table. *)
Lemma get_parameter_values_formula spectra test_frac test_ind :
  table_shaped spectra →
  int_of_scaled (Z.of_nat (length (gwb spectra))) test_frac = Ok test_ind →
  (0 ≤ test_ind ≤ Z.of_nat (length (gwb spectra)))%Z →
  let rows := drop (Z.to_nat test_ind) (sample_params spectra) in
  get_parameter_values spectra test_frac =
  Ok (match list_index "mmb_amp" (param_names spectra) with
      | Some idx =>
          if np_any (map (fun row => from_option (fun v => f64_gtb v 100) false
                                                 (row !! idx)) rows)
          then map (alter np_log10 idx) rows else rows
      | None => rows
      end).
Proof.
  intros Hshape Hind Hti rows. unfold get_parameter_values. rewrite Hind.
  cbn [mbind result_bind].
  destruct (Z.ltb_spec (Z.of_nat (length (gwb spectra)) - test_ind) 0); [lia|].
  cbn [mbind result_bind]. rewrite parameter_rows_are_held_in by done.
  cbn [mbind result_bind]. fold rows.
  destruct (list_index _ _); [|done]. by destruct (np_any _).
Qed.

(** X7.  On a library whose parameter table has one row per sample and one
    column per parameter name, none of them "mmb_amp",
    [get_parameter_values] returns the rows of the table from [test_ind] on,
    unchanged. *)
Theorem design_matrix_is_the_held_in_rows spectra test_frac test_ind :
  table_shaped spectra →
  int_of_scaled (Z.of_nat (length (gwb spectra))) test_frac = Ok test_ind →
  (0 ≤ test_ind ≤ Z.of_nat (length (gwb spectra)))%Z →
  "mmb_amp" ∉ param_names spectra →
  get_parameter_values spectra test_frac
  = Ok (drop (Z.to_nat test_ind) (sample_params spectra)).
Proof.
  intros Hshape Hind Hti Hno.
  rewrite (get_parameter_values_formula _ _ _ Hshape Hind Hti).
  apply list_index_None in Hno. by rewrite Hno.
Qed.

(** X8.  On such a library with a column "mmb_amp": as soon as one held-in
    row has an amplitude above 100, the column is replaced by its [log10] in
    every returned row; otherwise in none.  The other columns, and the number
    and the width of the rows, never change. *)
Theorem mmb_amp_column_logged_all_or_nothing spectra test_frac test_ind
    (idx : nat) :
  table_shaped spectra →
  int_of_scaled (Z.of_nat (length (gwb spectra))) test_frac = Ok test_ind →
  (0 ≤ test_ind ≤ Z.of_nat (length (gwb spectra)))%Z →
  list_index "mmb_amp" (param_names spectra) = Some idx →
  let rows := drop (Z.to_nat test_ind) (sample_params spectra) in
  let large := Exists (fun row => ∃ v, row !! idx = Some v ∧ (100 <? v)%float = true)
                      rows in
  ∃ xobs,
    get_parameter_values spectra test_frac = Ok xobs ∧
    length xobs = length rows ∧
    (¬ large → xobs = rows) ∧
    (large →
     ∀ i row, rows !! i = Some row →
       ∃ row', xobs !! i = Some row' ∧ length row' = length row ∧
               row' !! idx = np_log10 <$> row !! idx ∧
               ∀ k, k ≠ idx → row' !! k = row !! k).
Proof.
  intros Hshape Hind Hti Hidx rows large.
  rewrite (get_parameter_values_formula _ _ _ Hshape Hind Hti), Hidx. fold rows.
  assert (np_any (map (fun row => from_option (fun v => f64_gtb v 100) false
                                              (row !! idx)) rows) = true ↔ large)
    as Hany.
  { unfold large, np_any. clear. induction rows as [|row rows IH]; cbn.
    - split; [done | by intros ?%Exists_nil].
    - rewrite orb_true_iff, Exists_cons, IH.
      destruct (row !! idx) as [v|]; cbn; unfold f64_gtb.
      + split; [intros [?|?]; eauto | intros [(? & [= <-] & ?)|?]; auto].
      + split; [intros [?|?]; [done|by right]
               | intros [(? & ? & ?)|?]; [done|by right]]. }
  destruct (np_any _) eqn:Hb.
  - eexists. split; [done|]. split; [by rewrite length_map|]. split.
    + intros Hno. exfalso. by apply Hno, Hany.
    + intros _ i row Hrow. exists (alter np_log10 idx row).
      split; [by rewrite list_lookup_fmap, Hrow|].
      split; [by rewrite length_alter|]. split.
      * by rewrite list_lookup_alter_eq.
      * intros k Hk. by rewrite list_lookup_alter_ne.
  - eexists. split; [done|]. split; [done|]. split; [done|].
    intros Hl. apply Hany in Hl. done.
Qed.

End ExtractorContent.


(** ** More on the closing loop of the kernel fitter *)

Section FitFrame.
Context `{NumPy} `{George} `{Emcee}.

Lemma argmax_from_lt (mp : float) (best i : nat) (rest : list float) :
  (best < i)%nat → (argmax_from mp best i rest < i + length rest)%nat.
Proof.
  revert mp best i. induction rest as [|v rest IH]; intros mp best i Hlt; cbn.
  - lia.
  - destruct (is_nan mp); [lia|].
    destruct (negb _).
    + specialize (IH v i (S i)). lia.
    + specialize (IH mp best (S i)). lia.
Qed.

Lemma np_argmax_in_range (a : list float) :
  a ≠ [] → ∃ best, np_argmax a = Ok best ∧ (best < length a)%nat.
Proof.
  destruct a as [|v rest]; [done|]. intros _. eexists. split; [done|].
  pose proof (argmax_from_lt v 0 1 rest). cbn. lia.
Qed.

(** The models that the closing loop visits, and what it leaves alone. *)
Lemma populate_frame yobs_center sampler indices gp_george fitted :
  populate yobs_center sampler gp_george indices = Ok fitted →
  length fitted = length gp_george ∧
  ∀ ii gp, gp_george !! ii = Some gp →
    ∃ gp', fitted !! ii = Some gp' ∧
      GaussProc.x gp' = GaussProc.x gp ∧ GaussProc.y gp' = GaussProc.y gp ∧
      GaussProc.yerr gp' = GaussProc.yerr gp ∧
      GaussProc.par_dict gp' = GaussProc.par_dict gp ∧
      GaussProc.kernel gp' = GaussProc.kernel gp ∧
      GaussProc.pmax gp' = GaussProc.pmax gp ∧
      GaussProc.pmin gp' = GaussProc.pmin gp ∧
      GaussProc.kernel_map gp' = GaussProc.kernel_map gp ∧
      GaussProc.chain gp' = GaussProc.chain gp ∧
      GaussProc.mean_spectra gp' = GaussProc.mean_spectra gp ∧
      (ii ∉ indices → gp' = gp).
Proof.
  revert gp_george. induction indices as [|i rest IH]; intros gp_george Hrun.
  - injection Hrun as <-. split; [done|]. intros ii gp Hgp. by exists gp.
  - cbn [populate] in Hrun.
    apply result_bind_Ok in Hrun as (gp_george1 & Hone & Hrest).
    apply populate_one_spec in Hone
      as (s & gp0 & best & kernel_map & center & Hs & Hgp0 & Hbest & Hmap & ->).
    destruct (IH _ Hrest) as [Hlen Hall]. rewrite length_insert in Hlen.
    split; [done|]. intros ii gp Hgp.
    destruct (decide (ii = i)) as [->|Hne].
    + destruct (Hall i (store_fit gp0 (flatchain s) (flatlnprobability s)
                          kernel_map center)) as (gp' & Hgp' & Hf).
      { apply list_lookup_insert_eq. by eapply lookup_lt_Some. }
      assert (gp0 = gp) as -> by congruence.
      exists gp'. split; [done|]. cbn in Hf.
      destruct Hf as (? & ? & ? & ? & ? & ? & ? & ? & ? & ? & _).
      split_and!; try done. intros Hni. exfalso. apply Hni, elem_of_cons. by left.
    + destruct (Hall ii gp) as (gp' & Hgp' & Hf).
      { by rewrite list_lookup_insert_ne. }
      exists gp'. split; [done|].
      destruct Hf as (? & ? & ? & ? & ? & ? & ? & ? & ? & ? & Hsame).
      split_and!; try done. intros Hni. apply Hsame.
      intros Hin. apply Hni, elem_of_cons. by right.
Qed.

Lemma mapM_rio_length {A B : Type} (f : A → rio B) (ks : list A) g out
    (l : list B) g' :
  mapM f ks g = (out, Ok (l, g')) → length l = length ks.
Proof.
  revert g out l g'. induction ks as [|k ks IH]; intros g out l g' Hrun.
  - cbn in Hrun. unfold mret, rio_mret, mret, io_mret in Hrun.
    by injection Hrun as _ <- _.
  - cbn [mapM] in Hrun.
    apply rio_bind_Ok in Hrun as (? & b & g2 & ? & _ & Hrun).
    apply rio_bind_Ok in Hrun as (? & bs & g3 & ? & Hbs & Hret).
    unfold mret, rio_mret, mret, io_mret in Hret.
    injection Hret as _ <- _. cbn. f_equal. by eapply IH.
Qed.

Lemma fit_kernel_params_populate gp_freqs yobs_center gp_george nkpars nwalkers
    nsamples burn_frac cpu_count g out fitted g' :
  fit_kernel_params gp_freqs yobs_center gp_george nkpars nwalkers nsamples
    burn_frac cpu_count g = (out, Ok (fitted, g')) →
  ∃ sampler,
    length sampler = length gp_freqs ∧
    populate yobs_center sampler gp_george (seq 0 (length gp_freqs)) = Ok fitted.
Proof.
  intros Hrun. unfold fit_kernel_params in Hrun.
  apply rio_bind_Ok in Hrun as (out1 & sampler & g1 & out2 & Hsam & Hpop).
  unfold rio_lift in Hpop. apply io_lift_Ok in Hpop as [Hpop _].
  apply result_bind_Ok in Hpop as (fitted' & Hpop & [= -> _]).
  exists sampler. split; [|done].
  apply mapM_rio_length in Hsam. by rewrite length_seq in Hsam.
Qed.

(** X9.  [fit_kernel_params] changes nothing but the four fit attributes: the
    list keeps its length; every model keeps its data, dictionary, kernel
    name, bounds and legacy attributes; and a model beyond the frequencies that
    were fitted is not changed at all. *)
Theorem fit_changes_only_the_fit_attributes
    gp_freqs yobs_center gp_george nkpars nwalkers nsamples burn_frac
    cpu_count g out fitted g' :
  fit_kernel_params gp_freqs yobs_center gp_george nkpars nwalkers nsamples
    burn_frac cpu_count g = (out, Ok (fitted, g')) →
  length fitted = length gp_george ∧
  ∀ ii gp, gp_george !! ii = Some gp →
    ∃ gp', fitted !! ii = Some gp' ∧
      GaussProc.x gp' = GaussProc.x gp ∧ GaussProc.y gp' = GaussProc.y gp ∧
      GaussProc.yerr gp' = GaussProc.yerr gp ∧
      GaussProc.par_dict gp' = GaussProc.par_dict gp ∧
      GaussProc.kernel gp' = GaussProc.kernel gp ∧
      GaussProc.pmax gp' = GaussProc.pmax gp ∧
      GaussProc.pmin gp' = GaussProc.pmin gp ∧
      GaussProc.kernel_map gp' = GaussProc.kernel_map gp ∧
      GaussProc.chain gp' = GaussProc.chain gp ∧
      GaussProc.mean_spectra gp' = GaussProc.mean_spectra gp ∧
      ((length gp_freqs ≤ ii)%nat → gp' = gp).
Proof.
  intros Hrun.
  apply fit_kernel_params_populate in Hrun as (sampler & _ & Hpop).
  apply populate_frame in Hpop as [Hlen Hall]. split; [done|].
  intros ii gp Hgp. destruct (Hall ii gp Hgp) as (gp' & Hgp' & Hf).
  exists gp'. split; [done|].
  destruct Hf as (? & ? & ? & ? & ? & ? & ? & ? & ? & ? & Hsame).
  split_and!; try done. intros Hge. apply Hsame. rewrite elem_of_seq. lia.
Qed.

(** X10.  The closing loop of [fit_kernel_params] over the first [n]
    frequencies completes whenever there are at least [n] samplers, models and
    centers, and each of these samplers holds a chain that is not empty and has
    one log-posterior value per entry. *)
Theorem closing_loop_succeeds_on_matching_chains
    (yobs_center : list float) (sampler : list EnsembleSampler)
    (gp_george : list GaussProc.t) (n : nat) :
  (n ≤ length sampler)%nat → (n ≤ length gp_george)%nat →
  (n ≤ length yobs_center)%nat →
  (∀ ii s, (ii < n)%nat → sampler !! ii = Some s →
     flatlnprobability s ≠ [] ∧
     length (flatchain s) = length (flatlnprobability s)) →
  ∃ fitted, populate yobs_center sampler gp_george (seq 0 n) = Ok fitted.
Proof.
  intros Hs Hg Hc Hchains.
  assert (∀ indices gg, Forall (fun ii => (ii < n)%nat) indices →
            length gg = length gp_george →
            ∃ fitted, populate yobs_center sampler gg indices = Ok fitted) as Hgen.
  { induction indices as [|ii rest IH]; intros gg Hin Hlen; [by eexists|].
    apply Forall_cons in Hin as [Hii Hin]. cbn [populate].
    destruct (lookup_lt_is_Some_2 sampler ii) as [s Hsi]; [lia|].
    destruct (lookup_lt_is_Some_2 gg ii) as [gp Hgi]; [lia|].
    destruct (lookup_lt_is_Some_2 yobs_center ii) as [c Hci]; [lia|].
    destruct (Hchains ii s Hii Hsi) as [Hne Hsame].
    destruct (np_argmax_in_range _ Hne) as (best & Hbest & Hlt).
    destruct (lookup_lt_is_Some_2 (flatchain s) best) as [km Hkm]; [lia|].
    unfold populate_one, item. rewrite Hsi, Hgi. cbn. rewrite Hbest. cbn.
    rewrite Hkm. cbn. rewrite Hci. cbn.
    apply IH; [done|]. by rewrite length_insert. }
  apply Hgen; [|done]. apply Forall_forall. intros ii Hii%elem_of_seq. lia.
Qed.

Lemma populate_one_inv yobs_center sampler gp_george ii gp_george' :
  populate_one yobs_center sampler gp_george ii = Ok gp_george' →
  ∃ s gp best kernel_map center,
    sampler !! ii = Some s ∧ gp_george !! ii = Some gp ∧
    np_argmax (flatlnprobability s) = Ok best ∧
    flatchain s !! best = Some kernel_map ∧
    yobs_center !! ii = Some center ∧
    gp_george' = <[ii := store_fit gp (flatchain s) (flatlnprobability s)
                           kernel_map center]> gp_george.
Proof.
  unfold populate_one, item. intros Hrun.
  destruct (sampler !! ii) as [s|] eqn:Hs; [|done].
  destruct (gp_george !! ii) as [gp|] eqn:Hgp; [|done]. cbn in Hrun.
  destruct (np_argmax (flatlnprobability s)) as [best|] eqn:Hbest; [|done].
  cbn in Hrun.
  destruct (flatchain s !! best) as [kernel_map|] eqn:Hmap; [|done]. cbn in Hrun.
  destruct (yobs_center !! ii) as [center|] eqn:Hc; [|done]. cbn in Hrun.
  injection Hrun as <-. by exists s, gp, best, kernel_map, center.
Qed.

Lemma populate_visited yobs_center sampler indices gp_george fitted :
  populate yobs_center sampler gp_george indices = Ok fitted →
  NoDup indices →
  ∀ ii, ii ∈ indices →
    ∃ s gp best kernel_map center,
      sampler !! ii = Some s ∧ gp_george !! ii = Some gp ∧
      np_argmax (flatlnprobability s) = Ok best ∧
      flatchain s !! best = Some kernel_map ∧
      yobs_center !! ii = Some center ∧
      fitted !! ii =
        Some (store_fit gp (flatchain s) (flatlnprobability s) kernel_map center).
Proof.
  revert gp_george. induction indices as [|i rest IH]; intros gp_george Hrun Hnd.
  - by intros ii ?%elem_of_nil.
  - cbn [populate] in Hrun.
    apply result_bind_Ok in Hrun as (gp_george1 & Hone & Hrest).
    apply NoDup_cons in Hnd as [Hi Hnd].
    apply populate_one_inv in Hone
      as (s & gp & best & km & c & Hs & Hgp & Hbest & Hkm & Hc & ->).
    intros ii [->|Hin]%elem_of_cons.
    + exists s, gp, best, km, c. split_and!; [done..|].
      destruct (populate_frame _ _ _ _ _ Hrest) as [_ Hall].
      destruct (Hall i (store_fit gp (flatchain s) (flatlnprobability s) km c))
        as (gp' & Hgp' & Hf).
      { apply list_lookup_insert_eq. by eapply lookup_lt_Some. }
      destruct Hf as (_ & _ & _ & _ & _ & _ & _ & _ & _ & _ & Hsame).
      by rewrite Hgp', (Hsame Hi).
    + destruct (IH _ Hrest Hnd ii Hin)
        as (s' & gp' & best' & km' & c' & ? & Hgp' & ? & ? & ? & ?).
      exists s', gp', best', km', c'. split_and!; [done| |done..].
      rewrite list_lookup_insert_ne in Hgp'; [done|]. by intros ->.
Qed.

(** X11.  After [fit_kernel_params], every fitted model that had no legacy
    [chain] is one the posterior sampler accepts: its chain attribute resolves
    to a chain that is not empty, and its center attribute to the entry of
    [yobs_center] for its frequency. *)
Theorem fitted_models_can_be_sampled
    gp_freqs yobs_center gp_george nkpars nwalkers nsamples burn_frac
    cpu_count g out fitted g' (ii : nat) (gp : GaussProc.t) :
  fit_kernel_params gp_freqs yobs_center gp_george nkpars nwalkers nsamples
    burn_frac cpu_count g = (out, Ok (fitted, g')) →
  (ii < length gp_freqs)%nat →
  gp_george !! ii = Some gp → GaussProc.chain gp = None →
  ∃ gp' center,
    fitted !! ii = Some gp' ∧ fitted_model gp' ∧
    yobs_center !! ii = Some center ∧
    GaussProc.center_spectra gp' = Some center.
Proof.
  intros Hrun Hii Hgp Hchain.
  apply fit_kernel_params_populate in Hrun as (sampler & _ & Hpop).
  destruct (populate_visited _ _ _ _ _ Hpop (NoDup_seq _ _) ii)
    as (s & gp0 & best & km & c & _ & Hgp0 & Hbest & Hkm & Hc & Hfit).
  { apply elem_of_seq. lia. }
  assert (gp0 = gp) as -> by congruence.
  eexists _, c. split; [exact Hfit|]. split; [|done].
  exists (flatchain s), c. unfold chain_var_of, get_chain, center_attr_of, get_center.
  cbn. rewrite Hchain. cbn. split; [done|]. split; [|done].
  intros Hnil. by rewrite Hnil in Hkm.
Qed.

End FitFrame.

(** ** More on the predictor *)

Section PredictorContent.
Context `{NumPy} `{George} `{Hpy : Python}.

Lemma mapM_result_Forall2 {A B : Type} (f : A → result B) (l : list A)
    (l' : list B) :
  mapM f l = Ok l' → Forall2 (fun a b => f a = Ok b) l l'.
Proof.
  revert l'. induction l as [|a l IH]; intros l'; cbn.
  - intros [= <-]. constructor.
  - intros (b & Hb & (bs & Hbs & [= <-])%result_bind_Ok)%result_bind_Ok.
    constructor; [done | by apply IH].
Qed.

Lemma mapM_seq_lookup {B : Type} (f : nat → result B) (n : nat) (l' : list B) :
  mapM f (seq 0 n) = Ok l' →
  length l' = n ∧
  ∀ i, (i < n)%nat → ∃ b, l' !! i = Some b ∧ f i = Ok b.
Proof.
  intros Hrun. apply mapM_result_Forall2 in Hrun.
  pose proof (Forall2_length _ _ _ Hrun) as Hlen. rewrite length_seq in Hlen.
  split; [done|]. intros i Hi.
  destruct (Forall2_lookup_l _ _ _ i i Hrun) as (b & Hb & Hf).
  { by apply lookup_seq_lt. }
  by exists b.
Qed.

Lemma item_Ok {A : Type} (l : list A) (i : nat) (a : A) :
  item l i = Ok a → l !! i = Some a.
Proof. unfold item. destruct (l !! i); [by intros [= ->] | done]. Qed.

Lemma item_lookup {A : Type} (l : list A) (i : nat) (a : A) :
  l !! i = Some a → item l i = Ok a.
Proof. unfold item. by intros ->. Qed.

(** Everything a successful call of the predictor tells. *)
Lemma hc_from_gp_inv gp_george gp_list env_pars hc rho rho_pred :
  hc_from_gp gp_george gp_list env_pars = Ok (hc, rho, rho_pred) →
  length gp_list = length gp_george ∧
  length hc = length gp_george ∧ length rho = length gp_george ∧
  length rho_pred = length gp_george ∧
  ∃ gp0, gp_george !! 0%nat = Some gp0 ∧
    ∀ ii gp, gp_george !! ii = Some gp →
      ∃ g mu cov center,
        gp_list !! ii = Some g ∧
        gp_predict g (GaussProc.y gp) env_pars = Ok (mu, cov) ∧
        get_center gp (center_attr_of gp0) = Ok center ∧
        rho_pred !! ii = Some (rho_pred_row mu cov) ∧
        rho !! ii = Some (center + mu)%float ∧
        hc !! ii = Some (sqrt (np_pow10 (center + mu))).
Proof.
  intros Hrun. unfold hc_from_gp in Hrun.
  apply result_bind_Ok in Hrun as (rp & Hrp & Hrun).
  apply result_bind_Ok in Hrun as (gp0 & Hgp0%item_Ok & Hrun).
  apply result_bind_Ok in Hrun as (centers & Hcs & Hrun).
  apply result_bind_Ok in Hrun as (rho' & Hrho & [= <- <- <-]).
  apply mapM_seq_lookup in Hrp as [Hlrp Hrp].
  apply mapM_seq_lookup in Hcs as [Hlcs Hcs].
  assert (length gp_list = length gp_george) as Hlen.
  { apply Nat.le_antisymm.
    - destruct (decide (length gp_list ≤ length gp_george)%nat) as [|Hgt]; [done|].
      destruct (Hcs (length gp_george)) as (c & _ & Hc); [lia|].
      apply result_bind_Ok in Hc as (gp & Hgp%item_Ok & _).
      apply lookup_lt_Some in Hgp. lia.
    - destruct (decide (length gp_george ≤ length gp_list)%nat) as [|Hgt]; [done|].
      destruct (Hrp (length gp_list)) as (c & _ & Hc); [lia|].
      apply result_bind_Ok in Hc as (g & Hg%item_Ok & _).
      apply lookup_lt_Some in Hg. lia. }
  unfold np_add_object in Hrho.
  rewrite decide_True in Hrho by (rewrite length_map; lia).
  apply mapM_result_Forall2 in Hrho.
  pose proof (Forall2_length _ _ _ Hrho) as Hlrho.
  rewrite length_zip, length_map in Hlrho.
  split; [done|]. split; [rewrite length_map; lia|].
  split; [lia|]. split; [done|].
  exists gp0. split; [done|]. intros ii gp Hgp.
  pose proof (lookup_lt_Some _ _ _ Hgp) as Hii.
  destruct (Hrp ii Hii) as (row & Hrow & Hf).
  apply result_bind_Ok in Hf as (g & Hg%item_Ok & Hf).
  apply result_bind_Ok in Hf as (gp' & Hgp'%item_Ok & Hf).
  assert (gp' = gp) as -> by congruence.
  apply result_bind_Ok in Hf as ([mu cov] & Hpred & [= <-]).
  destruct (Hcs ii) as (c & Hc & Hget); [lia|].
  apply result_bind_Ok in Hget as (gp'' & Hgp''%item_Ok & Hget).
  assert (gp'' = gp) as -> by congruence.
  apply result_bind_Ok in Hget as (name & Hname & Hget).
  destruct (center_attr_of gp0) as [name'|] eqn:Hattr; [|done].
  injection Hname as ->.
  assert (zip centers (map fst rp) !! ii = Some (c, mu)) as Hpair.
  { rewrite lookup_zip_with, Hc. cbn. rewrite list_lookup_fmap, Hrow. cbn.
    unfold rho_pred_row. by destruct (cov <? 0)%float. }
  destruct (Forall2_lookup_l _ _ _ _ _ Hrho Hpair) as (v & Hv & Hadd).
  cbn in Hadd. apply result_bind_Ok in Hadd as (center & Hcenter & [= <-]).
  exists g, mu, cov, center. split_and!; try done.
  - unfold get_center. rewrite Hget. done.
  - by rewrite list_lookup_fmap, Hv.
Qed.

(** X12.  [hc_from_gp] returns only for two lists of equal, non-zero length.
    The three arrays then have one row per model: for model [ii] with
    prediction [(mu, cov)] of george and center [c] (read under the attribute
    name chosen from the first model), [rho_pred[ii]] is the stored mean and
    spread, [rho[ii] = c + mu] and [hc[ii] = sqrt(10 ** (c + mu))]. *)
Theorem predictor_returns_one_strain_per_model
    gp_george gp_list env_pars hc rho rho_pred :
  hc_from_gp gp_george gp_list env_pars = Ok (hc, rho, rho_pred) →
  length gp_list = length gp_george ∧ (1 ≤ length gp_george)%nat ∧
  length hc = length gp_george ∧ length rho = length gp_george ∧
  length rho_pred = length gp_george ∧
  ∃ gp0, gp_george !! 0%nat = Some gp0 ∧
    ∀ ii gp, gp_george !! ii = Some gp →
      ∃ g mu cov center,
        gp_list !! ii = Some g ∧
        gp_predict g (GaussProc.y gp) env_pars = Ok (mu, cov) ∧
        get_center gp (center_attr_of gp0) = Ok center ∧
        rho_pred !! ii = Some (rho_pred_row mu cov) ∧
        rho !! ii = Some (center + mu)%float ∧
        hc !! ii = Some (sqrt (np_pow10 (center + mu))).
Proof.
  intros Hrun.
  destruct (hc_from_gp_inv _ _ _ _ _ _ Hrun)
    as (Hl & Hhc & Hrho & Hrp & gp0 & Hgp0 & Hall).
  split_and!; try done.
  - apply lookup_lt_Some in Hgp0. lia.
  - by exists gp0.
Qed.

(** X13.  [hc_from_gp] does return, one strain per model, when the two lists
    are equally long and not empty, george predicts for every pair, and every
    model holds a center under the attribute name chosen from the first
    model. *)
Theorem predictor_returns_on_fitted_models
    gp_george gp_list env_pars (gp0 : GaussProc.t) :
  length gp_list = length gp_george →
  gp_george !! 0%nat = Some gp0 →
  (∀ ii g gp, gp_list !! ii = Some g → gp_george !! ii = Some gp →
     (∃ r, gp_predict g (GaussProc.y gp) env_pars = Ok r) ∧
     (∃ c, get_center gp (center_attr_of gp0) = Ok c)) →
  ∃ hc rho rho_pred,
    hc_from_gp gp_george gp_list env_pars = Ok (hc, rho, rho_pred) ∧
    length hc = length gp_george.
Proof.
  intros Hlen Hgp0 Hall. unfold hc_from_gp.
  destruct (mapM_result_total (fun _ _ => True)
              (fun ii : nat =>
                 g ← item gp_list ii; gp ← item gp_george ii;
                 '(mu_pred, cov_pred) ← gp_predict g (GaussProc.y gp) env_pars;
                 mret (rho_pred_row mu_pred cov_pred))
              (seq 0 (length gp_george))) as (rp & Hrp & Hrp2).
  { intros ii [_ Hii]%elem_of_seq.
    destruct (lookup_lt_is_Some_2 gp_list ii) as [g Hg]; [lia|].
    destruct (lookup_lt_is_Some_2 gp_george ii) as [gp Hgp]; [lia|].
    destruct (Hall ii g gp Hg Hgp) as [[[mu cov] Hpred] _].
    exists (rho_pred_row mu cov). split; [|done].
    rewrite (item_lookup _ _ _ Hg), (item_lookup _ _ _ Hgp). cbn.
    by rewrite Hpred. }
  destruct (mapM_result_total (fun _ (c : option float) => is_Some c)
              (fun ii : nat =>
                 gp ← item gp_george ii;
                 name ← match center_attr_of gp0 with
                        | Some name => Ok name
                        | None => Raise (unbound_in_comprehension "center_attr")
                        end;
                 getattr_center gp name)
              (seq 0 (length gp_list))) as (cs & Hcs & Hcs2).
  { intros ii [_ Hii]%elem_of_seq.
    destruct (lookup_lt_is_Some_2 gp_list ii) as [g Hg]; [lia|].
    destruct (lookup_lt_is_Some_2 gp_george ii) as [gp Hgp]; [lia|].
    destruct (Hall ii g gp Hg Hgp) as [_ [c Hc]].
    rewrite (item_lookup _ _ _ Hgp). cbn. unfold get_center in Hc.
    destruct (center_attr_of gp0) as [name|]; [|done]. cbn.
    apply result_bind_Ok in Hc as ([c'|] & Hget & Hnum); [|done].
    exists (Some c'). by rewrite Hget. }
  pose proof (Forall2_length _ _ _ Hrp2) as Hlrp.
  pose proof (Forall2_length _ _ _ Hcs2) as Hlcs.
  rewrite length_seq in Hlrp, Hlcs.
  rewrite Hrp. cbn. rewrite (item_lookup _ _ _ Hgp0). cbn. rewrite Hcs. cbn.
  unfold np_add_object. rewrite decide_True by (rewrite length_map; lia).
  destruct (mapM_result_total (fun _ _ => True)
              (fun cm : option float * float =>
                 c' ← as_number cm.1; mret (c' + cm.2)%float)
              (zip cs (map fst rp))) as (rho & Hrho & Hrho2).
  { intros [c m] Hin. apply list_elem_of_lookup_1 in Hin as [k Hk].
    apply lookup_zip_with_Some in Hk as (c' & m' & [= <- <-] & Hc' & _).
    destruct (Forall2_lookup_r _ _ _ _ _ Hcs2 Hc') as (? & _ & [v ->]).
    by eexists. }
  rewrite Hrho. cbn. eexists _, _, _. split; [done|].
  apply Forall2_length in Hrho2.
  rewrite length_zip, length_map in Hrho2. rewrite length_map. lia.
Qed.

End PredictorContent.

(** ** Sign of the stored spread *)

Section SpreadSign.

Lemma binary_round_aux_nonpos (m e : Z) (l : location) :
  sf_nonpos (binary_round_aux prec emax true m e l).
Proof.
  unfold binary_round_aux.
  destruct (shr_fexp prec emax m e l) as [mrs' e'].
  destruct (shr_fexp prec emax _ e' loc_Exact) as [mrs'' e''].
  destruct (shr_m mrs''); [done| |done].
  by destruct (e'' <=? emax - prec)%Z.
Qed.

Lemma sf_nonneg_not_lt (v : float) :
  sf_nonneg (Prim2SF v) → (v <? 0)%float = false.
Proof.
  rewrite ltb_spec. change (Prim2SF 0) with (S754_zero false).
  destruct (Prim2SF v) as [s|s| |s m e]; cbn; try done.
  - by intros ->.
  - by intros ->.
Qed.

Lemma sf_nonpos_not_gt (v : float) :
  sf_nonpos (Prim2SF v) → (0 <? v)%float = false.
Proof.
  rewrite ltb_spec. change (Prim2SF 0) with (S754_zero false).
  destruct (Prim2SF v) as [s|s| |s m e]; cbn; try done.
  - by intros ->.
  - by intros ->.
Qed.

Lemma f64_neg_sign (v : float) :
  (v <? 0)%float = true →
  Prim2SF v = S754_infinity true ∨ ∃ m e, Prim2SF v = S754_finite true m e.
Proof.
  rewrite ltb_spec. change (Prim2SF 0) with (S754_zero false).
  destruct (Prim2SF v) as [s|[]| |[] m e]; cbn; try done.
  - by left.
  - right. by eexists _, _.
Qed.

Lemma sqrt_nonneg (v : float) : sf_nonneg (Prim2SF (sqrt v)).
Proof.
  rewrite sqrt_spec. destruct (Prim2SF v) as [s|[]| |[] m e]; cbn; try done.
  destruct (SFsqrt_core_binary prec emax (Z.pos m) e) as [[mz ez] lz].
  apply binary_round_aux_nonneg.
Qed.

(** X14.  The row stored in [rho_pred] for a predicted mean and variance: its
    first entry is the mean.  From a variance that is not negative the spread
    is a square root, hence never negative.  From a negative variance the
    spread is [1e-5 * mean], which follows the sign of the mean: never positive
    for a negative mean, never negative for a non-negative one. *)
Theorem spread_sign_follows_variance_and_mean (mu_pred cov_pred : float) :
  (rho_pred_row mu_pred cov_pred).1 = mu_pred ∧
  ((cov_pred <? 0)%float = false →
   ((rho_pred_row mu_pred cov_pred).2 <? 0)%float = false) ∧
  ((cov_pred <? 0)%float = true → (mu_pred <? 0)%float = true →
   (0 <? (rho_pred_row mu_pred cov_pred).2)%float = false) ∧
  ((cov_pred <? 0)%float = true → (0 <=? mu_pred)%float = true →
   ((rho_pred_row mu_pred cov_pred).2 <? 0)%float = false).
Proof.
  unfold rho_pred_row. split_and!.
  - by destruct (cov_pred <? 0)%float.
  - intros ->. cbn. apply sf_nonneg_not_lt, sqrt_nonneg.
  - intros -> Hmu. cbn. apply sf_nonpos_not_gt. rewrite mul_spec.
    change (Prim2SF 1e-5) with (S754_finite false 5902958103587057 (-69)).
    destruct (f64_neg_sign _ Hmu) as [->|(m & e & ->)]; [done|].
    cbn [SFmul xorb]. apply binary_round_aux_nonpos.
  - intros -> Hmu. cbn. apply sf_nonneg_not_lt. rewrite mul_spec.
    apply SFmul_nonneg; [done | by apply f64_nonneg].
Qed.

End SpreadSign.

(** ** More on the posterior sampler *)

Section SamplerEdges.
Context `{NumPy} `{George} `{Hpy : Python}.

Lemma mapM_result_fail {A B : Type} (f : A → result B) (l : list A) (a : A)
    (e : exn) :
  a ∈ l → f a = Raise e → ∃ e', mapM f l = Raise e'.
Proof.
  intros Hin Hf. induction l as [|a' l IH]; [by apply elem_of_nil in Hin|].
  apply elem_of_cons in Hin as [<-|Hin]; cbn.
  - rewrite Hf. by eexists.
  - destruct (f a') as [b|e1]; [|by eexists]. cbn.
    destruct (IH Hin) as [e' ->]. by eexists.
Qed.

Lemma mapM_io_fail {A B : Type} (f : A → io B) (l : list A) (a : A) (e : exn) :
  a ∈ l → (f a).2 = Raise e → ∃ e', (mapM f l).2 = Raise e'.
Proof.
  intros Hin Hf. induction l as [|a' l IH]; [by apply elem_of_nil in Hin|].
  apply elem_of_cons in Hin as [<-|Hin]; cbn.
  - destruct (f a) as [out [b|e1]]; cbn in Hf; [done|]. by eexists.
  - destruct (f a') as [out [b|e1]]; [|by eexists]. cbn.
    destruct (IH Hin) as [e' He']. destruct (mapM f l) as [out' [bs|e2]];
      cbn in He'; [done|]. cbn. by eexists.
Qed.

Lemma sample_args_total (gp_george : list GaussProc.t) (gp_list : list GP) :
  (length gp_list ≤ length gp_george)%nat →
  ∃ args,
    mapM (fun i : nat => g ← item gp_list i; gp ← item gp_george i;
                         mret (i, g, gp)) (seq 0 (length gp_list)) = Ok args ∧
    ∀ i g gp, gp_list !! i = Some g → gp_george !! i = Some gp →
              (i, g, gp) ∈ args.
Proof.
  intros Hlen.
  destruct (mapM_result_total
              (fun (i : nat) (a : nat * GP * GaussProc.t) =>
                 ∃ g gp, gp_list !! i = Some g ∧ gp_george !! i = Some gp ∧
                         a = (i, g, gp))
              (fun i : nat => g ← item gp_list i; gp ← item gp_george i;
                              mret (i, g, gp))
              (seq 0 (length gp_list))) as (args & Hargs & Hwf).
  { intros i [_ Hi]%elem_of_seq. unfold item.
    destruct (gp_list !! i) as [g|] eqn:Hg;
      [|apply lookup_ge_None in Hg; lia].
    destruct (gp_george !! i) as [gp|] eqn:Hgp;
      [|apply lookup_ge_None in Hgp; lia].
    exists (i, g, gp). split; [done|]. by exists g, gp. }
  exists args. split; [done|]. intros i g gp Hg Hgp.
  destruct (Forall2_lookup_l _ _ _ i i Hwf) as (a & Ha & g' & gp' & ? & ? & ->).
  { apply lookup_seq_lt. by eapply lookup_lt_Some. }
  assert (g' = g) as -> by congruence. assert (gp' = gp) as -> by congruence.
  by eapply list_elem_of_lookup_2.
Qed.

(** X15.  On a machine with a single processor [sample_hc_from_gp] fails:
    [Pool(cpu_count() - 1)] is asked for no worker and raises [ValueError],
    after the advisory (when [nsamples < 100]) and before any sample is
    drawn. *)
Theorem sampling_needs_two_processors (gp_george : list GaussProc.t)
    (gp_list : list GP) (env_pars : list float) (nsamples : Z)
    (cpu_count : nat) (worker_rng : nat → rng) (finished : nat → nat) :
  (length gp_list ≤ length gp_george)%nat → (cpu_count ≤ 1)%nat →
  sample_hc_from_gp gp_george gp_list env_pars nsamples cpu_count worker_rng
    finished
  = (if (nsamples <? 100)%Z then [few_samples_warning] else [],
     Raise (ValueError "Number of processes must be at least 1")).
Proof.
  intros Hlen Hcpu. unfold sample_hc_from_gp.
  destruct (sample_args_total gp_george gp_list Hlen) as (args & -> & _).
  assert (Pool (Z.of_nat cpu_count - 1)
          = Raise (ValueError "Number of processes must be at least 1")) as ->.
  { unfold Pool. destruct (Z.ltb_spec (Z.of_nat cpu_count - 1) 1); [done|lia]. }
  by destruct (nsamples <? 100)%Z.
Qed.

(** X16.  [sample_hc_from_gp] never returns a table when one of the models it
    pairs with a george model has neither [chain] nor [emcee_flatchain]: the
    call raises. *)
Theorem sampling_fails_when_a_model_has_no_chain (gp_george : list GaussProc.t)
    (gp_list : list GP) (env_pars : list float) (nsamples : Z)
    (cpu_count : nat) (worker_rng : nat → rng) (finished : nat → nat)
    (k : nat) (g : GP) (gp : GaussProc.t) :
  gp_list !! k = Some g → gp_george !! k = Some gp →
  GaussProc.chain gp = None → GaussProc.emcee_flatchain gp = None →
  ∃ e, (sample_hc_from_gp gp_george gp_list env_pars nsamples cpu_count
          worker_rng finished).2 = Raise e.
Proof.
  intros Hg Hgp Hchain Hflat. unfold sample_hc_from_gp.
  match goal with
  | |- ∃ e, (?w ≫= ?k).2 = Raise e =>
      set (rest := k tt);
      assert (∃ e, rest.2 = Raise e) as [e He];
      [|exists e; change ((w ≫= fun _ => rest).2 = Raise e);
        destruct rest as [out [a|e1]]; cbn in He; [done|];
        by destruct (nsamples <? 100)%Z]
  end.
  subst rest. cbn beta.
  destruct (decide (length gp_list ≤ length gp_george)%nat) as [Hlen|Hlen].
  - destruct (sample_args_total gp_george gp_list Hlen) as (args & Hargs & Hin).
    rewrite Hargs. unfold io_lift at 1. rewrite (io_bind_quiet args).
    destruct (Pool (Z.of_nat cpu_count - 1)) as [[]|e] eqn:HPool;
      [|by eexists].
    unfold io_lift at 1. rewrite (io_bind_quiet tt).
    set (run := fun '((i, g, gp) : nat * GP * GaussProc.t) =>
                  '(hc, _) ← _sample_hc_from_gp_helper g gp env_pars nsamples
                               (worker_rng i);
                  (mret hc : io (list float))).
    set (bs := batches _ _ args).
    assert ((k, g, gp) ∈ concat bs) as Hk.
    { unfold bs. rewrite starmap_batches_concat. by apply Hin. }
    destruct (map_result_fail finished (map snd (map (mapM run) bs)))
      as [e He].
    { apply elem_of_concat in Hk as (b & Hkb & Hb).
      destruct (mapM_io_fail run b (k, g, gp) (UnboundLocalError "chain_var")
                  Hkb) as [e' He'].
      { unfold run, _sample_hc_from_gp_helper, chain_var_of.
        by rewrite Hchain, Hflat. }
      apply Exists_exists. exists (mapM run b).2. split; [|by exists e'].
      apply list_elem_of_fmap. exists (mapM run b). split; [done|].
      apply list_elem_of_fmap. by exists b. }
    rewrite He. by eexists.
  - destruct (mapM_result_fail
                (fun i : nat => g ← item gp_list i; gp ← item gp_george i;
                                mret (i, g, gp))
                (seq 0 (length gp_list)) (length gp_george)
                (IndexError "index out of range")) as [e' He'].
    { apply elem_of_seq. lia. }
    { unfold item. destruct (gp_list !! length gp_george) eqn:E; cbn.
      - by rewrite (lookup_ge_None_2 gp_george (length gp_george)).
      - done. }
    rewrite He'. by eexists.
Qed.

End SamplerEdges.

Section FitEdges.
Context `{NumPy} `{George} `{Emcee}.

Lemma rio_bind_Raise {A B : Type} (m : rio A) (k : A → rio B) (g : rng) out e :
  m g = (out, Raise e) → (m ≫= k) g = (out, Raise e).
Proof. intros Hm. unfold mbind, rio_mbind. by rewrite Hm. Qed.

(** X17.  With fewer than two walkers (or no processor) and at least one
    frequency, [fit_kernel_params] fails at once:
    [Pool(min(nwalkers // 2, cpu_count()))] raises [ValueError] before
    anything is printed or drawn. *)
Theorem fit_needs_two_walkers (gp_freqs yobs_center : list float)
    (gp_george : list GaussProc.t) (nkpars nwalkers : nat) (nsamples : Z)
    (burn_frac : float) (cpu_count : nat) (g : rng) :
  gp_freqs ≠ [] → (nwalkers < 2 ∨ cpu_count = 0)%nat →
  fit_kernel_params gp_freqs yobs_center gp_george nkpars nwalkers nsamples
    burn_frac cpu_count g
  = ([], Raise (ValueError "Number of processes must be at least 1")).
Proof.
  intros Hne Hw. unfold fit_kernel_params.
  destruct gp_freqs as [|f gp_freqs]; [done|]. cbn [length seq mapM].
  assert (Nat.min (nwalkers / 2) cpu_count = 0%nat) as Hmin.
  { destruct Hw as [Hw| ->]; [|lia].
    rewrite (Nat.div_small nwalkers 2) by lia. lia. }
  apply rio_bind_Raise, rio_bind_Raise.
  unfold sample_frequency. rewrite Hmin. reflexivity.
Qed.

End FitEdges.

(** ** Content of the posterior samples *)

Section SampleContent.
Context `{NumPy} `{George} `{Hpy : Python}.

Lemma rio_bind_Ok_out {A B : Type} (m : rio A) (k : A → rio B) g out (b : B) g' :
  (m ≫= k) g = (out, Ok (b, g')) →
  ∃ out1 a g1 out2,
    m g = (out1, Ok (a, g1)) ∧ k a g1 = (out2, Ok (b, g')) ∧ out = out1 ++ out2.
Proof.
  unfold mbind at 1, rio_mbind. intros Hrun.
  apply io_bind_Ok in Hrun as (out1 & [a g1] & out2 & Hm & Hk & Hout).
  by exists out1, a, g1, out2.
Qed.

Lemma rio_lift_Ok {A : Type} (r : result A) (g : rng) out (a : A) g' :
  rio_lift r g = (out, Ok (a, g')) → r = Ok a ∧ g' = g ∧ out = [].
Proof.
  unfold rio_lift, io_lift. destruct r as [a'|e]; cbn; [|done].
  by intros [= <- <- <-].
Qed.

Lemma rio_try_Ok {A : Type} (draw : rng → result A * rng) (g : rng) out (a : A) g' :
  rio_try draw g = (out, Ok (a, g')) → draw g = (Ok a, g') ∧ out = [].
Proof.
  unfold rio_try, io_lift. destruct (draw g) as [[a'|e] g1]; cbn; [|done].
  by intros [= <- <- <-].
Qed.

Lemma sample_loop_entries gp center_attr env_pars samples left g0 hc r out hc' r' :
  sample_loop gp center_attr env_pars left g0 hc r = (out, Ok (hc', r')) →
  Forall (fun p => p.2 ∈ samples) left →
  out = [] ∧ length hc' = length hc ∧
  (∀ i, hc' !! i = hc !! i ∨
        drawn_strain gp center_attr env_pars samples (hc' !! i)) ∧
  (∀ i, i ∈ left.*1 → (i < length hc)%nat →
        drawn_strain gp center_attr env_pars samples (hc' !! i)).
Proof.
  revert g0 hc r out.
  induction left as [|[samp_ind sample] rest IH]; intros g0 hc r out Hrun Hin.
  - cbn in Hrun. unfold mret, rio_mret, mret, io_mret in Hrun.
    injection Hrun as <- <- <-. split_and!; [done|done|by left|].
    by intros i ?%elem_of_nil.
  - cbn [sample_loop] in Hrun. apply Forall_cons in Hin as [Hs Hin]. cbn in Hs.
    apply rio_bind_Ok_out in Hrun
      as (o1 & g1 & r1 & o2 & (Hset & -> & ->)%rio_lift_Ok & Hrun & ->).
    apply rio_bind_Ok_out in Hrun
      as (o1 & v & r2 & o3 & (Hdraw & ->)%rio_try_Ok & Hrun & ->).
    apply rio_bind_Ok_out in Hrun
      as (o1 & center & r3 & o4 & (Hcenter & -> & ->)%rio_lift_Ok & Hrun & ->).
    destruct (IH _ _ _ _ Hrun Hin) as (-> & Hlen & Hkeep & Hnew).
    rewrite length_insert in Hlen.
    assert (drawn_strain gp center_attr env_pars samples
              (Some (sqrt (np_pow10 (center + v))))) as Hhere.
    { exists sample, g0, g1, r, v, center. split_and!; try done.
      by rewrite Hdraw. }
    split_and!; [done|done| |].
    + intros i. destruct (Hkeep i) as [Heq|Hd]; [|by right].
      destruct (decide (i = samp_ind)) as [->|Hne].
      * destruct (decide (samp_ind < length hc)%nat) as [Hlt|Hge].
        -- right. rewrite Heq, list_lookup_insert_eq by done. exact Hhere.
        -- left. rewrite Heq. rewrite !lookup_ge_None_2; [done|lia|].
           rewrite length_insert. lia.
      * left. by rewrite Heq, list_lookup_insert_ne.
    + intros i Hi Hlt. cbn in Hi. apply elem_of_cons in Hi as [Hi|Hi].
      * subst i. destruct (Hkeep samp_ind) as [Heq|Hd]; [|done].
        rewrite Heq, list_lookup_insert_eq by done. exact Hhere.
      * apply Hnew; [done|]. by rewrite length_insert.
Qed.

Lemma imap_pair_fst {A : Type} (l : list A) :
  (imap pair l).*1 = seq 0 (length l).
Proof.
  assert (∀ k, (imap (fun i => pair (k + i)%nat) l).*1 = seq k (length l)) as Hgen.
  { induction l as [|a l IH]; intros k; [done|]. cbn. rewrite Nat.add_0_r.
    f_equal. rewrite <- (IH (S k)). f_equal. apply imap_ext.
    intros i x _. cbn. f_equal. lia. }
  apply (Hgen 0%nat).
Qed.

(** X18.  Whenever the sampling helper returns, it has printed nothing,
    [nsamples] is not negative and the array has [nsamples] entries; each
    entry is [sqrt(10 ** (center + rho_sample))] for a draw [rho_sample] that
    george made after its parameter vector was set to a row of the model's
    chain.  No entry is left at its initial zero, and for a positive
    [nsamples] the chain is not empty. *)
Theorem sampled_entries_are_strains_of_chain_draws
    (g0 : GP) (gp : GaussProc.t) (env_pars : list float) (nsamples : Z)
    (r : rng) out hc r' :
  _sample_hc_from_gp_helper g0 gp env_pars nsamples r = (out, Ok (hc, r')) →
  out = [] ∧ (0 ≤ nsamples)%Z ∧ length hc = Z.to_nat nsamples ∧
  ∃ samples,
    get_chain gp (chain_var_of gp) = Ok samples ∧
    ((0 < nsamples)%Z → samples ≠ []) ∧
    ∀ i, (i < Z.to_nat nsamples)%nat →
      drawn_strain gp (center_attr_of gp) env_pars samples (hc !! i).
Proof.
  intros Hrun. unfold _sample_hc_from_gp_helper in Hrun.
  apply rio_bind_Ok_out in Hrun as (o1 & [] & r1 & o2 & Hprint & Hrun & ->).
  apply rio_bind_Ok_out in Hrun
    as (o3 & samples & r2 & o4 & (Hchain & -> & ->)%rio_lift_Ok & Hrun & ->).
  assert (o1 = [] ∧ r1 = r) as [-> ->].
  { destruct (chain_var_of gp); [|done].
    unfold mret, rio_mret, mret, io_mret in Hprint. by injection Hprint as <- <-. }
  apply rio_bind_Ok_out in Hrun
    as (o5 & zeros & r3 & o6 & (Hz & -> & ->)%rio_lift_Ok & Hrun & ->).
  apply rio_bind_Ok_out in Hrun
    as (o7 & picks & r4 & o8 & (Hpicks & ->)%rio_try_Ok & Hrun & ->).
  apply rio_bind_Ok_out in Hrun
    as (o9 & drawn & r5 & o10 & (Hdrawn & -> & ->)%rio_lift_Ok & Hrun & ->).
  unfold np_zeros in Hz. destruct (Z.ltb_spec nsamples 0) as [|Hn]; [done|].
  injection Hz as <-.
  assert (length picks = Z.to_nat nsamples ∧
          ((0 < nsamples)%Z → samples ≠ [])) as [Hlp Hne].
  { unfold np_random_randint in Hpicks.
    destruct (decide (Z.to_nat nsamples = 0%nat)) as [Hnone|Hsome].
    - injection Hpicks as <- _. split; [done|lia].
    - destruct (decide (length samples = 0%nat)) as [|Hlen]; [done|].
      injection Hpicks as <- _.
      split; [by rewrite length_map, length_seq|]. by intros _ ->. }
  pose proof (mapM_result_Forall2 _ _ _ Hdrawn) as Hrows.
  pose proof (Forall2_length _ _ _ Hrows) as Hld.
  assert (Forall (fun row => row ∈ samples) drawn) as Hfrom.
  { clear -Hrows. induction Hrows as [|a b l l' Hab _ IH]; constructor; [|done].
    apply item_Ok in Hab. by eapply list_elem_of_lookup_2. }
  destruct (sample_loop_entries _ _ _ samples _ _ _ _ _ _ _ Hrun
              (imap_pair_rows _ _ Hfrom)) as (-> & Hlen & _ & Hnew).
  rewrite length_replicate in Hlen.
  split_and!; [done|done|done|]. exists samples. split_and!; [done|done|].
  intros i Hi. apply Hnew.
  - rewrite imap_pair_fst. apply elem_of_seq. lia.
  - by rewrite length_replicate.
Qed.

End SampleContent.

(** ** Construction of the per-frequency models *)

Section ConstructionFacts.
Context `{NumPy} `{NumPyExtrema} `{George} `{!GeorgeKernels}.

Lemma np_column_length (a : list (list float)) (j : nat) (col : list float) :
  np_column a j = Ok col → length col = length a.
Proof. apply mapM_result_length. Qed.

Lemma np_column_total (a : list (list float)) (j : nat) :
  Forall (fun row => (j < length row)%nat) a → ∃ col, np_column a j = Ok col.
Proof.
  intros Hall.
  destruct (mapM_result_total (fun _ _ => True) (fun row => item row j) a)
    as (col & Hcol & _); [|by exists col].
  intros row Hrow. rewrite Forall_forall in Hall.
  destruct (lookup_lt_is_Some_2 row j (Hall row Hrow)) as [v Hv].
  exists v. by rewrite (item_lookup _ _ _ Hv).
Qed.

Lemma imap_pair_elem {A : Type} (l : list A) (i : nat) (a : A) :
  (i, a) ∈ imap pair l ↔ l !! i = Some a.
Proof.
  rewrite elem_of_lookup_imap. split.
  - by intros (j & b & [= -> ->] & Hb).
  - intros Ha. by exists i, a.
Qed.

(** What the first loop of [create_gp_kernels] leaves in the dictionary. *)
Lemma fill_par_dict_spec xobs left d0 d :
  fill_par_dict xobs left d0 = Ok d →
  (∀ par, is_Some (d !! par) ↔ is_Some (d0 !! par) ∨ par ∈ left.*2) ∧
  (∀ par lo hi, d !! par = Some (lo, hi) →
     d0 !! par = Some (lo, hi) ∨
     ∃ ind col, (ind, par) ∈ left ∧ np_column xobs ind = Ok col ∧
                np_min col = Ok lo ∧ np_max col = Ok hi) ∧
  (NoDup left.*2 → (∀ par, par ∈ left.*2 → d0 !! par = None) →
   size d = (size d0 + length left)%nat).
Proof.
  revert d0. induction left as [|[ind par] rest IH]; intros d0 Hrun.
  - injection Hrun as <-. split_and!.
    + intros par. split; [by left|]. intros [?|?%elem_of_nil]; done.
    + intros par lo hi ?. by left.
    + intros _ _. cbn. lia.
  - cbn [fill_par_dict] in Hrun.
    apply result_bind_Ok in Hrun as (col & Hcol & Hrun).
    apply result_bind_Ok in Hrun as (lo & Hlo & Hrun).
    apply result_bind_Ok in Hrun as (hi & Hhi & Hrun).
    destruct (IH _ Hrun) as (Hdom & Hval & Hsize). split_and!.
    + intros p. rewrite Hdom. cbn. rewrite elem_of_cons.
      destruct (decide (p = par)) as [->|Hne].
      * rewrite lookup_insert_eq. split; [intros _; right; by left|].
        intros _. left. by eexists.
      * rewrite lookup_insert_ne by done. split; [|intros [?|[?|?]]]; tauto.
    + intros p lo' hi' Hp. destruct (Hval p lo' hi' Hp) as [Hins|Hrest].
      * destruct (decide (p = par)) as [->|Hne].
        -- rewrite lookup_insert_eq in Hins. injection Hins as <- <-.
           right. exists ind, col. split_and!; try done.
           apply elem_of_cons. by left.
        -- rewrite lookup_insert_ne in Hins by done. by left.
      * destruct Hrest as (i & c & Hin & ?). right. exists i, c.
        split; [|done]. apply elem_of_cons. by right.
    + cbn. intros [Hnotin Hnd]%NoDup_cons Hfresh. rewrite Hsize.
      * rewrite map_size_insert_None; [lia|].
        apply Hfresh, elem_of_cons. by left.
      * done.
      * intros p Hp. rewrite lookup_insert_ne.
        -- apply Hfresh, elem_of_cons. by right.
        -- intros ->. done.
Qed.

Lemma build_models_spec pars xobs yerr yobs kernel par_dict n gp_george k
    num_kpars out gp_george' num_kpars' :
  build_models pars xobs yerr yobs kernel par_dict
    (seq (length gp_george) n) gp_george k num_kpars
    = (out, Ok (gp_george', num_kpars')) →
  length k = length gp_george →
  out = [] ∧ length gp_george' = (length gp_george + n)%nat ∧
  (∀ ii gp, gp_george !! ii = Some gp → gp_george' !! ii = Some gp) ∧
  (∀ ii gp, gp_george' !! ii = Some gp → (length gp_george ≤ ii)%nat →
            built_for xobs yerr yobs kernel par_dict ii gp) ∧
  (n = 0%nat → num_kpars' = num_kpars) ∧
  (n ≠ 0%nat →
   ∃ num gp, num_kpars' = Some num ∧ last gp_george' = Some gp ∧
     kernel_len (GaussProc.kernel gp) (np_full (length pars) 2%float)
                (length pars) = Ok num).
Proof.
  revert gp_george k num_kpars out.
  induction n as [|n IH]; intros gp_george k num_kpars out Hrun Hk.
  - cbn in Hrun. injection Hrun as <- <- <-.
    split_and!; [done|lia|done| |done|done].
    intros ii gp Hgp%lookup_lt_Some Hii. lia.
  - cbn [seq build_models] in Hrun.
    apply io_bind_Ok in Hrun as (? & y & ? & [Hy ->]%io_lift_Ok & Hrun & ->).
    apply io_bind_Ok in Hrun as (? & e & ? & [He ->]%io_lift_Ok & Hrun & ->).
    apply io_bind_Ok in Hrun as (o1 & gp & ? & Hinit & Hrun & ->).
    apply io_bind_Ok in Hrun as (? & model & ? & [Hmodel ->]%io_lift_Ok & Hrun & ->).
    apply io_bind_Ok in Hrun as (? & num & ? & [Hnum ->]%io_lift_Ok & Hrun & ->).
    apply io_bind_Ok in Hrun as (? & num' & ? & [Hnum' ->]%io_lift_Ok & Hrun & ->).
    destruct (init_kernel _ _ _ _ _ _ _ Hinit) as [-> _].
    apply item_Ok in Hmodel, Hnum'.
    rewrite lookup_app_r, Nat.sub_diag in Hmodel by done.
    rewrite <- Hk, lookup_app_r, Nat.sub_diag in Hnum' by done.
    injection Hmodel as <-. injection Hnum' as <-.
    replace (S (length gp_george)) with (length (gp_george ++ [gp])) in Hrun
      by (rewrite length_app; cbn; lia).
    destruct (IH _ _ _ _ Hrun) as (-> & Hlen & Hold & Hnew & Hzero & Hlast).
    { rewrite !length_app. cbn. lia. }
    rewrite length_app in Hlen. cbn in Hlen.
    split_and!; [done|lia| | |done|].
    + intros ii gp' Hgp'. apply Hold. by apply lookup_app_l_Some.
    + intros ii gp' Hgp' Hii.
      destruct (decide (ii = length gp_george)) as [->|Hne].
      * assert (gp' = gp) as ->.
        { specialize (Hold (length gp_george) gp).
          rewrite lookup_app_r, Nat.sub_diag in Hold by done.
          specialize (Hold eq_refl). congruence. }
        by exists y, e.
      * apply Hnew; [done|]. rewrite length_app. cbn. lia.
    + intros _. destruct n as [|n].
      * specialize (Hzero eq_refl). subst num_kpars'.
        exists num, gp. split; [done|]. split; [|done].
        cbn in Hrun. injection Hrun as <-. by rewrite last_snoc.
      * by apply Hlast.
Qed.

Lemma init_fresh x y yerr d kernel out self :
  GaussProc.__init__ x y yerr (Some d) kernel = (out, Ok self) →
  GaussProc.x self = x ∧ GaussProc.y self = y ∧ GaussProc.yerr self = yerr ∧
  GaussProc.par_dict self = d ∧
  GaussProc.emcee_flatchain self = None ∧ GaussProc.emcee_flatlnprob self = None ∧
  GaussProc.emcee_kernel_map self = None ∧ GaussProc.center_spectra self = None ∧
  GaussProc.kernel_map self = None ∧ GaussProc.chain self = None ∧
  GaussProc.mean_spectra self = None.
Proof.
  unfold GaussProc.__init__. intros Hinit.
  destruct (list_index _ _) as [i|]; [|by inversion Hinit].
  destruct (kernel_list !! i) as [name|]; inversion Hinit; subst. done.
Qed.

Lemma create_gp_kernels_inv gp_freqs pars xobs yerr yobs kernel out gp_george
    num_kpars :
  create_gp_kernels gp_freqs pars xobs yerr yobs kernel
    = (out, Ok (gp_george, num_kpars)) →
  out = [] ∧ gp_freqs ≠ [] ∧ length gp_george = length gp_freqs ∧
  ∃ par_dict gp_last,
    fill_par_dict xobs (imap pair pars) ∅ = Ok par_dict ∧
    last gp_george = Some gp_last ∧
    kernel_len (GaussProc.kernel gp_last) (np_full (length pars) 2%float)
               (length pars) = Ok num_kpars ∧
    ∀ ii gp, gp_george !! ii = Some gp →
             built_for xobs yerr yobs kernel par_dict ii gp.
Proof.
  intros Hrun. unfold create_gp_kernels in Hrun.
  apply io_bind_Ok in Hrun as (? & d & ? & [Hd ->]%io_lift_Ok & Hrun & ->).
  apply io_bind_Ok in Hrun as (o1 & [gg num] & o2 & Hbuild & Hrun & ->).
  apply (build_models_spec _ _ _ _ _ _ _ [] [] None) in Hbuild
    as (-> & Hlen & _ & Hnew & Hzero & Hlast); [|done].
  destruct num as [n|]; [|done]. injection Hrun as <- <- <-.
  assert (length gp_freqs ≠ 0%nat) as Hne.
  { intros Hz. by specialize (Hzero Hz). }
  destruct (Hlast Hne) as (n' & gp & [= <-] & Hgp & Hn).
  split_and!; [done|by destruct gp_freqs|done|].
  exists d, gp. split_and!; try done.
  intros ii gp' Hgp'. apply Hnew; [done|cbn; lia].
Qed.

(** X19.  Whenever [create_gp_kernels] returns: nothing was printed; there is
    at least one frequency and exactly one model per frequency; the models
    share the design matrix and one dictionary, whose keys are the parameter
    names (as many entries as names when the names are distinct); model [ii]
    holds column [ii] of [yobs] and of [yerr]; every model carries the
    library's spelling of the kernel name, the bounds of the constructor and
    no fit; and [num_kpars] is the length of that kernel over [len(pars)]
    dimensions. *)
Theorem one_model_per_frequency_on_shared_data
    gp_freqs pars xobs yerr yobs kernel out gp_george num_kpars :
  create_gp_kernels gp_freqs pars xobs yerr yobs kernel
    = (out, Ok (gp_george, num_kpars)) →
  out = [] ∧ gp_freqs ≠ [] ∧ length gp_george = length gp_freqs ∧
  ∃ par_dict name,
    (∀ par, is_Some (par_dict !! par) ↔ par ∈ pars) ∧
    (NoDup pars → size par_dict = length pars) ∧
    name ∈ kernel_list ∧ lower name = lower kernel ∧
    kernel_len name (np_full (length pars) 2%float) (length pars)
      = Ok num_kpars ∧
    ∀ ii gp, gp_george !! ii = Some gp →
      GaussProc.x gp = xobs ∧
      np_column yobs ii = Ok (GaussProc.y gp) ∧
      (∃ e, GaussProc.yerr gp = Some e ∧ np_column yerr ii = Ok e) ∧
      GaussProc.par_dict gp = par_dict ∧ GaussProc.kernel gp = name ∧
      has_box gp (size par_dict + 1) ∧
      GaussProc.chain gp = None ∧ GaussProc.emcee_flatchain gp = None ∧
      GaussProc.kernel_map gp = None ∧ GaussProc.emcee_kernel_map gp = None ∧
      GaussProc.center_spectra gp = None ∧ GaussProc.mean_spectra gp = None.
Proof.
  intros Hrun.
  destruct (create_gp_kernels_inv _ _ _ _ _ _ _ _ _ Hrun)
    as (-> & Hne & Hlen & d & gp_last & Hd & Hlast & Hnum & Hall).
  split_and!; [done..|].
  destruct (fill_par_dict_spec _ _ _ _ Hd) as (Hdom & _ & Hsize).
  assert ((imap pair pars).*2 = pars) as Hsnd.
  { clear. assert (∀ k, (imap (fun i => pair (k + i)%nat) pars).*2 = pars) as Hgen.
    { induction pars as [|p pars IH]; intros k; [done|]. cbn. f_equal.
      rewrite <- (IH (S k)) at 2. f_equal. apply imap_ext.
      intros i x _. cbn. f_equal. lia. }
    apply (Hgen 0%nat). }
  rewrite Hsnd in Hdom, Hsize.
  assert (∀ ii gp, gp_george !! ii = Some gp →
            ∃ i, list_index (lower kernel) (map lower kernel_list) = Some i ∧
                 kernel_list !! i = Some (GaussProc.kernel gp)) as Hname.
  { intros ii gp Hgp. destruct (Hall ii gp Hgp) as (y & e & _ & _ & Hinit).
    by destruct (init_kernel _ _ _ _ _ _ _ Hinit) as [_ ?]. }
  assert (gp_george !! Nat.pred (length gp_george) = Some gp_last) as Hl.
  { by rewrite <- last_lookup. }
  destruct (Hname _ _ Hl) as (i & Hidx & Hi).
  exists d, (GaussProc.kernel gp_last). split_and!.
  - intros par. rewrite Hdom, lookup_empty. split; [intros [[? ?]|?]|]; [done..|].
    by right.
  - intros Hnd. rewrite Hsize; [|done|].
    + rewrite map_size_empty, length_imap. done.
    + intros par _. apply lookup_empty.
  - by eapply list_elem_of_lookup_2.
  - pose proof (list_index_Some _ _ _ Hidx) as Hlow.
    rewrite list_lookup_fmap, Hi in Hlow. by injection Hlow.
  - done.
  - intros ii gp Hgp. destruct (Hall ii gp Hgp) as (y & e & Hy & He & Hinit).
    destruct (init_fresh _ _ _ _ _ _ _ Hinit)
      as (? & -> & -> & ? & ? & ? & ? & ? & ? & ? & ?).
    destruct (Hname _ _ Hgp) as (i' & Hidx' & Hi').
    assert (i' = i) as -> by congruence.
    split_and!; try done.
    + by exists e.
    + congruence.
    + replace d with (GaussProc.par_dict gp) by done.
      subst. by eapply init_has_box.
Qed.

End ConstructionFacts.

Section ConstructionEdges.
Context `{NumPy} `{NumPyExtrema} `{George} `{!GeorgeKernels}.

(** X20.  Without frequencies [create_gp_kernels] never returns: [num_kpars]
    is assigned only inside the loop over the frequencies, so once the
    dictionary is built the [return] raises [UnboundLocalError]; nothing is
    printed. *)
Theorem no_frequencies_no_models pars xobs yerr yobs kernel :
  ∃ e,
    create_gp_kernels [] pars xobs yerr yobs kernel = ([], Raise e) ∧
    ∀ par_dict,
      fill_par_dict xobs (imap pair pars) ∅ = Ok par_dict →
      e = UnboundLocalError "num_kpars".
Proof.
  unfold create_gp_kernels.
  destruct (fill_par_dict xobs (imap pair pars) ∅) as [d|e]; cbn.
  - eexists. split; [done|]. done.
  - exists e. split; [done|]. done.
Qed.

(** X21.  With a kernel name that matches no kernel family,
    [create_gp_kernels] stops at the first model: what it prints is the
    report of the constructor, once, and what it raises is the [ValueError] of
    the constructor. *)
Theorem unknown_kernel_stops_at_the_first_model
    gp_freqs pars xobs yerr yobs kernel par_dict y e :
  fill_par_dict xobs (imap pair pars) ∅ = Ok par_dict →
  gp_freqs ≠ [] →
  np_column yobs 0 = Ok y → np_column yerr 0 = Ok e →
  (∀ name, name ∈ kernel_list → lower name ≠ lower kernel) →
  ∃ msg,
    create_gp_kernels gp_freqs pars xobs yerr yobs kernel
    = (GaussProc.unexpected_kernel_report kernel, Raise (ValueError msg)).
Proof.
  intros Hd Hne Hy He Hnone. unfold create_gp_kernels. rewrite Hd.
  destruct gp_freqs as [|f gp_freqs]; [done|]. cbn [length seq build_models].
  rewrite Hy, He. unfold io_lift at 1 2 3.
  rewrite (io_bind_quiet par_dict), (io_bind_quiet y), (io_bind_quiet e).
  unfold GaussProc.__init__.
  assert (list_index (lower kernel) (map lower kernel_list) = None) as ->;
    [|by eexists].
  apply list_index_None.
  intros (name & Hlow & Hin)%list_elem_of_fmap. by apply (Hnone name).
Qed.

Lemma build_models_total pars xobs yerr yobs kernel par_dict i name num n :
  list_index (lower kernel) (map lower kernel_list) = Some i →
  kernel_list !! i = Some name →
  kernel_len name (np_full (length pars) 2%float) (length pars) = Ok num →
  ∀ gp_george k num_kpars,
    length k = length gp_george →
    Forall (fun row => (length gp_george + n ≤ length row)%nat) yobs →
    Forall (fun row => (length gp_george + n ≤ length row)%nat) yerr →
    ∃ gp_george' num_kpars',
      build_models pars xobs yerr yobs kernel par_dict
        (seq (length gp_george) n) gp_george k num_kpars
      = ([], Ok (gp_george', num_kpars')).
Proof.
  intros Hidx Hi Hnum. induction n as [|n IH]; intros gp_george k num_kpars Hk Hy He.
  - by eexists _, _.
  - cbn [seq build_models].
    destruct (np_column_total yobs (length gp_george)) as [y Hcy].
    { eapply Forall_impl; [exact Hy|]. cbn. lia. }
    destruct (np_column_total yerr (length gp_george)) as [e Hce].
    { eapply Forall_impl; [exact He|]. cbn. lia. }
    rewrite Hcy, Hce. unfold io_lift.
    rewrite (io_bind_quiet y), (io_bind_quiet e).
    unfold GaussProc.__init__ at 1. rewrite Hidx, Hi.
    match goal with
    | |- context [mret ?gp ≫= _] => set (model := gp)
    end.
    unfold mret at 1, io_mret. rewrite (io_bind_quiet model).
    assert (∀ A (l : list A) a, item (l ++ [a]) (length l) = Ok a) as Hitem.
    { intros A l a. unfold item. by rewrite lookup_app_r, Nat.sub_diag. }
    rewrite Hitem, (io_bind_quiet model).
    change (GaussProc.kernel model) with name. rewrite Hnum.
    rewrite (io_bind_quiet num), <- Hk, Hitem, (io_bind_quiet num).
    replace (S (length k)) with (length (gp_george ++ [model]))
      by (rewrite length_app; cbn; lia).
    apply IH.
    + rewrite !length_app. cbn. lia.
    + eapply Forall_impl; [exact Hy|]. cbn. intros row. rewrite length_app. cbn. lia.
    + eapply Forall_impl; [exact He|]. cbn. intros row. rewrite length_app. cbn. lia.
Qed.

(** X22.  [create_gp_kernels] returns, and prints nothing, when the
    dictionary can be built, there is a frequency, the kernel name matches a
    kernel family whose kernel george can build, and every row of [yobs] and
    of [yerr] has a column for each frequency.  [num_kpars] is then the length
    of that kernel. *)
Theorem models_are_built_for_known_kernel_on_wide_data
    gp_freqs pars xobs yerr yobs kernel par_dict name num :
  fill_par_dict xobs (imap pair pars) ∅ = Ok par_dict →
  gp_freqs ≠ [] →
  name ∈ kernel_list → lower name = lower kernel →
  (∀ name', name' ∈ kernel_list → lower name' = lower kernel →
     kernel_len name' (np_full (length pars) 2%float) (length pars) = Ok num) →
  Forall (fun row => (length gp_freqs ≤ length row)%nat) yobs →
  Forall (fun row => (length gp_freqs ≤ length row)%nat) yerr →
  ∃ gp_george,
    create_gp_kernels gp_freqs pars xobs yerr yobs kernel
    = ([], Ok (gp_george, num)).
Proof.
  intros Hd Hne Hin Hlow Hnum Hy He. unfold create_gp_kernels. rewrite Hd.
  unfold io_lift at 1. rewrite (io_bind_quiet par_dict).
  destruct (list_index (lower kernel) (map lower kernel_list)) as [i|] eqn:Hidx.
  2: { apply list_index_None in Hidx. exfalso. apply Hidx.
       apply list_elem_of_fmap. by exists name. }
  pose proof (list_index_Some _ _ _ Hidx) as Hl.
  rewrite list_lookup_fmap in Hl.
  destruct (kernel_list !! i) as [name'|] eqn:Hi; [|done]. injection Hl as Hl.
  destruct (build_models_total pars xobs yerr yobs kernel par_dict i name' num
              (length gp_freqs) Hidx Hi) with (gp_george := @nil GaussProc.t)
              (k := @nil nat) (num_kpars := @None nat)
    as (gg & nk & Hrun); [|done|done|done|].
  { apply Hnum; [by eapply list_elem_of_lookup_2 | done]. }
  pose proof Hrun as Hspec.
  apply (build_models_spec _ _ _ _ _ _ _ [] [] None) in Hspec
    as (_ & _ & _ & _ & _ & Hlast); [|done].
  destruct Hlast as (n' & gp & -> & Hgp & Hn'); [by destruct gp_freqs|].
  cbn [length] in Hrun. rewrite Hrun. rewrite (io_bind_quiet (gg, Some n')).
  exists gg. cbn.
  assert (GaussProc.kernel gp = name') as Hk.
  { assert (gg !! Nat.pred (length gg) = Some gp) as Hl' by (by rewrite <- last_lookup).
    apply (build_models_spec _ _ _ _ _ _ _ [] [] None) in Hrun
      as (_ & _ & _ & Hnew & _); [|done].
    destruct (Hnew _ _ Hl') as (y & e & _ & _ & Hinit); [cbn; lia|].
    destruct (init_kernel _ _ _ _ _ _ _ Hinit) as (_ & i' & Hidx' & Hi').
    congruence. }
  rewrite Hk in Hn'.
  rewrite (Hnum name') in Hn'; [by injection Hn' as <-| |done].
  by eapply list_elem_of_lookup_2.
Qed.

End ConstructionEdges.

(** ** Setting up the prediction models *)

Section SetUp.
Context `{NumPy} `{NumPyExtrema} `{George} `{!GeorgeKernels} `{Hpy : Python}.

Lemma py_index_0 {A : Type} (l : list A) (a : A) :
  py_index l 0 = Ok a → l !! 0%nat = Some a.
Proof.
  destruct l as [|a' l]; [done|]. by intros [= ->].
Qed.

Lemma set_up_predictions_inv spectra gp_george gp_list :
  set_up_predictions spectra gp_george = Ok gp_list →
  length gp_list = Nat.min (length (fobs spectra)) (length gp_george) ∧
  ∃ gp0, gp_george !! 0%nat = Some gp0 ∧
    ∀ ii g, gp_list !! ii = Some g →
      ∃ gp kernel_map,
        gp_george !! ii = Some gp ∧
        get_kernel_map gp (kernel_map_attr_of gp0) = Ok kernel_map ∧
        ∃ a, head (map np_exp kernel_map) = Some a ∧
          gp_compute (GaussProc.kernel gp) a (map np_exp (drop 1 kernel_map))
                     (GaussProc.x gp) (GaussProc.yerr gp) = Ok g.
Proof.
  intros Hrun. unfold set_up_predictions in Hrun.
  apply result_bind_Ok in Hrun as (gp0 & Hgp0%item_Ok & Hrun).
  apply mapM_seq_lookup in Hrun as [Hlen Hall].
  rewrite slice_to_take, length_take, Nat2Z.id in Hlen, Hall by lia.
  split; [lia|]. exists gp0. split; [done|]. intros ii g Hg.
  destruct (Hall ii) as (g' & Hg' & Hf).
  { apply lookup_lt_Some in Hg. lia. }
  assert (g' = g) as -> by congruence.
  apply result_bind_Ok in Hf as (gp & Hgp%item_Ok & Hf).
  apply result_bind_Ok in Hf as (km & Hkm & Hf).
  apply result_bind_Ok in Hf as (a & Ha%py_index_0 & Hf).
  rewrite slice_from_drop in Hf by lia. change (Z.to_nat 1) with 1%nat in Hf.
  rewrite <- fmap_drop in Hf.
  exists gp, km. split_and!; [done..|]. exists a. split; [|done].
  by rewrite <- head_lookup in Ha.
Qed.

(** X23.  Whenever [set_up_predictions] returns, it returns one george model
    for each of the first [min(len(fobs), len(gp_george))] models.  Model [ii]
    is built with the kernel family of [gp_george[ii]], amplitude [exp(m[0])]
    and scales [exp(m[1:])], where [m] is the MAP vector of [gp_george[ii]],
    and computed on the data of that model.  [m] is read from the legacy
    attribute [kernel_map] when the first model has one, from
    [emcee_kernel_map] otherwise. *)
Theorem prediction_models_are_built_from_the_map_vectors
    spectra gp_george gp_list :
  set_up_predictions spectra gp_george = Ok gp_list →
  length gp_list = Nat.min (length (fobs spectra)) (length gp_george) ∧
  ∃ gp0, gp_george !! 0%nat = Some gp0 ∧
    ∀ ii g, gp_list !! ii = Some g →
      ∃ gp kernel_map p0,
        gp_george !! ii = Some gp ∧
        (GaussProc.kernel_map gp0 ≠ None →
         GaussProc.kernel_map gp = Some kernel_map) ∧
        (GaussProc.kernel_map gp0 = None →
         GaussProc.emcee_kernel_map gp = Some kernel_map) ∧
        kernel_map !! 0%nat = Some p0 ∧
        gp_compute (GaussProc.kernel gp) (np_exp p0)
                   (map np_exp (drop 1 kernel_map))
                   (GaussProc.x gp) (GaussProc.yerr gp) = Ok g.
Proof.
  intros Hrun.
  destruct (set_up_predictions_inv _ _ _ Hrun) as (Hlen & gp0 & Hgp0 & Hall).
  split; [done|]. exists gp0. split; [done|]. intros ii g Hg.
  destruct (Hall ii g Hg) as (gp & km & Hgp & Hkm & a & Ha & Hbuild).
  destruct km as [|p0 km]; [done|]. cbn in Ha. injection Ha as <-.
  exists gp, (p0 :: km), p0. split_and!; try done.
  - intros Hlegacy. unfold get_kernel_map, kernel_map_attr_of in Hkm.
    destruct (GaussProc.kernel_map gp0); [|done]. cbn in Hkm.
    destruct (GaussProc.kernel_map gp) as [m|];
      [by injection Hkm as -> | by destruct (bool_decide _)].
  - intros Hnew. unfold get_kernel_map, kernel_map_attr_of in Hkm.
    rewrite Hnew in Hkm. destruct (GaussProc.emcee_kernel_map gp0); [|done].
    cbn in Hkm.
    destruct (GaussProc.emcee_kernel_map gp) as [m|];
      [by injection Hkm as -> | by destruct (bool_decide _)].
Qed.

(** X24.  [set_up_predictions] on models that were never fitted: the first
    model has neither [kernel_map] nor [emcee_kernel_map], [kernel_map_attr]
    stays unbound, and the first pass of the loop raises [UnboundLocalError].
    On a library without frequencies the loop is not entered and the result is
    the empty list. *)
Theorem unfitted_models_cannot_be_set_up spectra gp_george (gp0 : GaussProc.t) :
  gp_george !! 0%nat = Some gp0 →
  GaussProc.kernel_map gp0 = None → GaussProc.emcee_kernel_map gp0 = None →
  (fobs spectra ≠ [] →
   set_up_predictions spectra gp_george
   = Raise (UnboundLocalError "kernel_map_attr")) ∧
  (fobs spectra = [] → set_up_predictions spectra gp_george = Ok []).
Proof.
  intros Hgp0 Hold Hnew. unfold set_up_predictions.
  rewrite (item_lookup _ _ _ Hgp0). cbn [mbind result_bind].
  rewrite slice_to_take, Nat2Z.id by lia.
  unfold kernel_map_attr_of. rewrite Hold, Hnew. split.
  - intros Hne. destruct (fobs spectra) as [|f fs]; [done|].
    destruct gp_george as [|gp gg]; [done|]. injection Hgp0 as ->.
    reflexivity.
  - intros ->. by rewrite take_nil.
Qed.

(** X25.  When the library has fewer frequencies than there are models,
    [set_up_predictions] returns one george model per frequency of the
    library, and [hc_from_gp] on the models and that shorter list always
    raises. *)
Theorem short_frequency_axis_breaks_the_predictor
    spectra gp_george gp_list (env_pars : list float) :
  set_up_predictions spectra gp_george = Ok gp_list →
  (length (fobs spectra) < length gp_george)%nat →
  length gp_list = length (fobs spectra) ∧
  ∃ e, hc_from_gp gp_george gp_list env_pars = Raise e.
Proof.
  intros Hrun Hshort.
  destruct (set_up_predictions_inv _ _ _ Hrun) as (Hlen & _).
  split; [lia|].
  destruct (hc_from_gp gp_george gp_list env_pars) as [[[hc rho] rp]|e] eqn:Hhc;
    [|by exists e].
  apply hc_from_gp_inv in Hhc as (Hl & _). lia.
Qed.

End SetUp.

Section FitThenSetUp.
Context `{NumPy} `{NumPyExtrema} `{George} `{!GeorgeKernels} `{Emcee}.

(** X26.  [fit_kernel_params] followed by [set_up_predictions], for models
    without the legacy attribute [kernel_map]: the george model of a fitted
    frequency [ii] is built from the MAP vector that the fit stored in the
    model of that frequency, which is the entry of the chain stored in the
    same model at the index that [np.argmax] picks in the log-posterior
    sequence stored in the same model: amplitude [exp] of its first
    component, scales [exp] of the others, kernel family and data of that
    model. *)
Theorem fit_then_set_up_uses_the_best_chain_entry
    spectra gp_freqs yobs_center gp_george nkpars nwalkers nsamples burn_frac
    cpu_count r out fitted r' gp_list :
  fit_kernel_params gp_freqs yobs_center gp_george nkpars nwalkers nsamples
    burn_frac cpu_count r = (out, Ok (fitted, r')) →
  (1 ≤ length gp_freqs)%nat →
  Forall (fun gp => GaussProc.kernel_map gp = None) gp_george →
  set_up_predictions spectra fitted = Ok gp_list →
  ∀ ii g, (ii < length gp_freqs)%nat → gp_list !! ii = Some g →
    ∃ model chain lnprob best kernel_map p0,
      fitted !! ii = Some model ∧
      GaussProc.emcee_flatchain model = Some chain ∧
      GaussProc.emcee_flatlnprob model = Some lnprob ∧
      GaussProc.emcee_kernel_map model = Some kernel_map ∧
      np_argmax lnprob = Ok best ∧
      chain !! best = Some kernel_map ∧
      kernel_map !! 0%nat = Some p0 ∧
      gp_compute (GaussProc.kernel model) (np_exp p0)
                 (map np_exp (drop 1 kernel_map))
                 (GaussProc.x model) (GaussProc.yerr model) = Ok g.
Proof.
  intros Hfit Hpos Hnone Hset ii g Hii Hg.
  apply fit_kernel_params_populate in Hfit as (sampler & _ & Hpop).
  destruct (set_up_predictions_inv _ _ _ Hset) as (Hlen & gp0' & Hgp0' & Hall).
  destruct (Hall ii g Hg) as (gp' & km & Hgp' & Hkm & a & Ha & Hbuild).
  destruct (populate_visited _ _ _ _ _ Hpop (NoDup_seq _ _) 0%nat)
    as (s0 & gp0 & best0 & km0 & c0 & _ & Hgp0 & _ & _ & _ & Hfit0).
  { apply elem_of_seq. lia. }
  destruct (populate_visited _ _ _ _ _ Hpop (NoDup_seq _ _) ii)
    as (s & gp & best & km' & c & _ & Hgp & Hbest & Hkm' & _ & Hfiti).
  { apply elem_of_seq. lia. }
  rewrite Hfit0 in Hgp0'. injection Hgp0' as <-.
  rewrite Hfiti in Hgp'. injection Hgp' as <-.
  rewrite Forall_forall in Hnone.
  unfold get_kernel_map, kernel_map_attr_of in Hkm. cbn in Hkm.
  rewrite (Hnone gp0) in Hkm by (by eapply list_elem_of_lookup_2).
  cbn in Hkm. injection Hkm as <-.
  destruct km' as [|p0 km']; [done|]. cbn in Ha. injection Ha as <-.
  eexists _, (flatchain s), (flatlnprobability s), best, (p0 :: km'), p0.
  split; [exact Hfiti|]. split_and!; done.
Qed.

End FitThenSetUp.

(** ** The training pipeline, end to end *)

Section Pipeline.
Context `{NumPy} `{NumPyExtrema} `{SciPy} `{Constants} `{George}
        `{!GeorgeKernels} `{Emcee}.

Lemma rio_io_Ok {A : Type} (m : io A) (g : rng) out (a : A) g' :
  rio_io m g = (out, Ok (a, g')) → m = (out, Ok a) ∧ g' = g.
Proof.
  unfold rio_io. destruct m as [o [a'|e]]; cbn; [|done].
  rewrite app_nil_r. by intros [= <- <- <-].
Qed.

Lemma get_smoothed_gwb_freqs spectra nfreqs test_frac center_measure out
    gp_freqs yerr yobs yobs_center :
  get_smoothed_gwb spectra nfreqs test_frac center_measure
    = (out, Ok (gp_freqs, yerr, yobs, yobs_center)) →
  gp_freqs = map (fun f => f * YR)%float (slice_to (fobs spectra) nfreqs).
Proof.
  intros Hrun. unfold get_smoothed_gwb in Hrun.
  apply io_bind_Ok in Hrun as (? & ti & ? & _ & Hrun & _).
  apply io_bind_Ok in Hrun as (? & stat & ? & _ & Hrun & _).
  apply io_bind_Ok in Hrun as (? & smooth & ? & _ & Hrun & _).
  apply io_bind_Ok in Hrun as (? & [] & ? & _ & Hrun & _).
  apply io_bind_Ok in Hrun as (? & stat0 & ? & _ & Hrun & _).
  apply io_bind_Ok in Hrun as (? & yobs' & ? & _ & Hrun & _).
  by injection Hrun as _ <- _ _ _.
Qed.

(** X27.  Whenever the training pipeline of [train_gp] completes, for a
    held-out fraction that is not negative, fewer than 2^63 samples and a
    non-negative [nfreqs]: there is one model per kept frequency,
    [min(nfreqs, len(fobs))] of them and at least one; every model holds the
    design matrix of [get_parameter_values], targets and uncertainties with
    one entry per row of that matrix, the bounds of the constructor, and is
    ready for the posterior sampler. *)
Theorem trained_models_are_consistent_and_fitted
    spectra nfreqs nwalkers nsamples burn_frac test_frac center_measure kernel
    cpu_count r out models r' :
  (Z.of_nat (length (gwb spectra)) < 2 ^ 63)%Z →
  (0 <=? test_frac)%float = true → (0 ≤ nfreqs)%Z →
  train_gp spectra nfreqs nwalkers nsamples burn_frac test_frac center_measure
           kernel cpu_count r = (out, Ok (models, r')) →
  ∃ test_ind xobs,
    int_of_scaled (Z.of_nat (length (gwb spectra))) test_frac = Ok test_ind ∧
    (0 ≤ test_ind ≤ Z.of_nat (length (gwb spectra)))%Z ∧
    get_parameter_values spectra test_frac = Ok xobs ∧
    Z.of_nat (length xobs) = (Z.of_nat (length (gwb spectra)) - test_ind)%Z ∧
    length models = Nat.min (Z.to_nat nfreqs) (length (fobs spectra)) ∧
    (1 ≤ length models)%nat ∧
    ∀ ii gp, models !! ii = Some gp →
      GaussProc.x gp = xobs ∧
      length (GaussProc.y gp) = length xobs ∧
      (∃ e, GaussProc.yerr gp = Some e ∧ length e = length xobs) ∧
      has_box gp (size (GaussProc.par_dict gp) + 1) ∧
      fitted_model gp.
Proof.
  intros Hsmall Hfrac Hnf Hrun. unfold train_gp in Hrun.
  apply rio_bind_Ok in Hrun
    as (o1 & [[[gp_freqs yerr] yobs] yobs_center] & r1 & o2 & Hgwb & Hrun).
  apply rio_io_Ok in Hgwb as [Hgwb ->].
  apply rio_bind_Ok in Hrun as (o3 & xobs & r2 & o4 & Hx & Hrun).
  apply rio_lift_Ok in Hx as (Hx & -> & ->).
  apply rio_bind_Ok in Hrun as (o5 & [gp_george num_kpars] & r3 & o6 & Hmk & Hfit).
  apply rio_io_Ok in Hmk as [Hmk ->].
  pose proof Hx as Hx'. unfold get_parameter_values in Hx'.
  apply result_bind_Ok in Hx' as (test_ind & Hind & _).
  assert (0 ≤ test_ind)%Z as Hpos.
  { apply (int_of_scaled_nonneg _ _ _ (conj (Zle_0_nat _) Hsmall) Hfrac Hind). }
  destruct (rows_match_for_count _ _ _ _ _ _ _ _ _ _ _ Hind Hpos Hgwb Hx)
    as (Hle & Hy & He & Hrows).
  pose proof (get_smoothed_gwb_freqs _ _ _ _ _ _ _ _ _ Hgwb) as Hfreqs.
  destruct (create_gp_kernels_inv _ _ _ _ _ _ _ _ _ Hmk)
    as (_ & Hne & Hlen & d & gp_last & _ & _ & _ & Hbuilt).
  apply fit_kernel_params_populate in Hfit as (sampler & _ & Hpop).
  destruct (populate_frame _ _ _ _ _ Hpop) as [Hlf _].
  assert (length gp_freqs = Nat.min (Z.to_nat nfreqs) (length (fobs spectra)))
    as Hnfreqs.
  { rewrite Hfreqs, length_map, slice_to_take, length_take by done. done. }
  exists test_ind, xobs. split_and!; [done|done|done|done|done|lia| |].
  { assert (length gp_freqs ≠ 0%nat) by (by destruct gp_freqs). lia. }
  intros ii gp' Hgp'.
  destruct (populate_visited _ _ _ _ _ Hpop (NoDup_seq _ _) ii)
    as (s & gp & best & km & c & _ & Hgp & _ & Hkm & _ & Hfitted).
  { apply elem_of_seq. apply lookup_lt_Some in Hgp'. lia. }
  rewrite Hfitted in Hgp'. injection Hgp' as <-.
  destruct (Hbuilt ii gp Hgp) as (y & e & Hcy & Hce & Hinit).
  destruct (init_fresh _ _ _ _ _ _ _ Hinit)
    as (Hgx & Hgy & Hge & Hgd & _ & _ & _ & _ & _ & Hchain & _).
  apply np_column_length in Hcy, Hce. cbn.
  split_and!.
  - done.
  - rewrite Hgy. lia.
  - exists e. split; [done|lia].
  - destruct (init_has_box _ _ _ _ _ _ _ Hinit) as [Hmax Hmin].
    rewrite Hgd. by split.
  - exists (flatchain s), c.
    unfold chain_var_of, get_chain, center_attr_of, get_center. cbn.
    rewrite Hchain. cbn. split; [done|]. split; [|done].
    intros Hnil. by rewrite Hnil in Hkm.
Qed.

End Pipeline.

(** ** The posterior outside the prior box *)

Section PosteriorOutside.
Context `{NumPy} `{George}.

Lemma f64_neg_infinity_add (v : float) :
  is_nan v = false → v ≠ infinity → (neg_infinity + v)%float = neg_infinity.
Proof.
  intros Hnan Hinf. apply Prim2SF_inj. rewrite add_spec.
  rewrite is_nan_view in Hnan. unfold key_of in Hnan.
  assert (Prim2SF v ≠ Prim2SF infinity) as Hne by (intros ?%Prim2SF_inj; done).
  change (Prim2SF infinity) with (S754_infinity false) in Hne.
  change (Prim2SF neg_infinity) with (S754_infinity true).
  destruct (Prim2SF v) as [s|[]| |s m e]; try done.
Qed.

Lemma f64_outside_box (v : float) :
  (20 <? v)%float = true ∨ (v <? -20)%float = true ∨ is_nan v = true →
  (v <=? 20)%float && (-20 <=? v)%float = false.
Proof.
  intros [Hv|[Hv|Hv]].
  - by rewrite (f64_lt_not_ge _ _ Hv).
  - rewrite (f64_lt_not_ge _ _ Hv). by destruct (v <=? 20)%float.
  - by rewrite (f64_nan_not_le _ _ Hv).
Qed.

(** X28.  [lnprob] does not stop at the prior.  For a model built by the
    constructor and a vector of the model's dimension with a component above
    20, below -20 or NaN, the likelihood is evaluated all the same: an
    exception of [lnlike] is the exception of [lnprob]; a likelihood that is
    neither NaN nor [+inf] gives [-inf]; a likelihood of [+inf] gives NaN. *)
Theorem posterior_outside_the_box_still_asks_the_likelihood
    x y yerr d kernel out self (p : list float) :
  GaussProc.__init__ x y yerr (Some d) kernel = (out, Ok self) →
  length p = (size d + 1)%nat →
  Exists (fun v => (20 <? v)%float = true ∨ (v <? -20)%float = true ∨
                   is_nan v = true) p →
  (∀ e, GaussProc.lnlike self p = Raise e → GaussProc.lnprob self p = Raise e) ∧
  (∀ ll, GaussProc.lnlike self p = Ok ll → is_nan ll = false → ll ≠ infinity →
         GaussProc.lnprob self p = Ok neg_infinity) ∧
  (GaussProc.lnlike self p = Ok infinity →
   ∃ v, GaussProc.lnprob self p = Ok v ∧ is_nan v = true).
Proof.
  intros Hinit Hlen Hout. apply init_has_box in Hinit.
  assert (GaussProc.lnprior self p = Ok neg_infinity) as Hprior.
  { rewrite (lnprior_box self _ p Hinit Hlen).
    rewrite forallb_Exists_false; [done|].
    eapply Exists_impl; [exact Hout|]. intros v Hv. by apply f64_outside_box. }
  unfold GaussProc.lnprob. rewrite Hprior. cbn [mbind result_bind].
  split_and!.
  - by intros e ->.
  - intros ll -> Hnan Hinf. cbn. by rewrite f64_neg_infinity_add.
  - intros ->. by eexists.
Qed.

End PosteriorOutside.

(** ** The further properties on concrete runs *)

Section MoreRuns.
Import Sample SampleBuild.

(** X1 on a vector with a NaN component. *)
Lemma lnprior_two_valued_and_rejects_nan_run :
  GaussProc.lnprior unfitted [nan; 0%float] = Ok neg_infinity.
Proof.
  destruct (lnprior_two_valued_and_rejects_nan
              _ _ _ _ _ _ _ [nan; 0%float] unfitted_built eq_refl) as [_ Hnan].
  apply Hnan. by left.
Defined.

(** X2 on a vector of three components for a model of dimension two. *)
Lemma lnprior_wrong_dimension_raises_run :
  ∃ msg,
    GaussProc.lnprior unfitted [0%float; 0%float; 0%float]
      = Raise (ValueError msg) ∧
    GaussProc.lnprob unfitted [0%float; 0%float; 0%float]
      = Raise (ValueError msg).
Proof.
  apply (lnprior_wrong_dimension_raises
           _ _ _ _ _ _ _ [0%float; 0%float; 0%float] unfitted_built).
  - vm_compute. lia.
  - vm_compute. lia.
  - cbn. lia.
Defined.

(** X3 on the name "expsquaredkernel". *)
Lemma kernel_name_is_first_match_and_stable_run :
  lower (GaussProc.kernel unfitted) = lower "expsquaredkernel" ∧
  ∃ self',
    GaussProc.__init__ [] [] None (Some bounds) (GaussProc.kernel unfitted)
      = ([], Ok self') ∧
    GaussProc.kernel self' = GaussProc.kernel unfitted.
Proof.
  destruct (kernel_name_is_first_match_and_stable
              _ _ _ _ _ _ _ [] [] None bounds unfitted_built)
    as (_ & Hlow & _ & Hstable).
  by split.
Defined.

(** X4 on the model of [unfitted_built]. *)
Lemma unfitted_model_cannot_predict_or_sample_run :
  _sample_hc_from_gp_helper [0%float] unfitted [0.5%float] 3 tape
    = ([Print "Chains are not saved!"], Raise (UnboundLocalError "chain_var")) ∧
  hc_from_gp [unfitted] [[0%float]] [0.5%float]
    = Raise (NameError "center_attr").
Proof.
  destruct (@unfitted_model_cannot_predict_or_sample numpy george python
              _ _ _ _ _ _ _ [0%float] [0.5%float] 3 tape unfitted_built)
    as [Hsample Hpredict].
  split; [exact Hsample|]. by eapply Hpredict.
Defined.

(** X5 on the measure "mode". *)
Lemma unknown_center_measure_rejected_run :
  ∃ msg,
    get_smoothed_gwb spectra 7 0.25%float "mode" = ([], Raise (ValueError msg)) ∧
    occurs_in "mode" msg.
Proof.
  destruct (unknown_center_measure_rejected spectra 7 0.25%float 1 "mode")
    as [Hbad _].
  - vm_compute. reflexivity.
  - apply Hbad; discriminate.
Defined.

(** X6 on the training set of [Sample.training]. *)
Lemma kept_frequencies_are_a_prefix_run :
  training.1.1.1
    = map (fun f => f * YR)%float (take (Z.to_nat 7) (fobs spectra)) ∧
  length training.1.1.1 = Nat.min (Z.to_nat 7) (length (fobs spectra)) ∧
  Forall2 (fun sample errs =>
             length errs = Nat.min (Z.to_nat 7) (length sample))
          (drop (Z.to_nat 1) (gwb spectra)) training.1.1.2.
Proof.
  apply (kept_frequencies_are_a_prefix spectra 7 0.25%float "median" 1 []
           training.1.1.1 training.1.1.2 training.1.2 training.2).
  - lia.
  - lia.
  - vm_compute. reflexivity.
  - vm_compute. reflexivity.
Defined.

(** X7 on [Sample.spectra], a quarter held out. *)
Lemma design_matrix_is_the_held_in_rows_run :
  get_parameter_values spectra 0.25%float
  = Ok (drop (Z.to_nat 1) (sample_params spectra)).
Proof.
  apply (design_matrix_is_the_held_in_rows spectra 0.25%float 1).
  - split; [reflexivity | by repeat constructor].
  - vm_compute. reflexivity.
  - cbn. lia.
  - intros Hin. cbn in Hin. apply list_elem_of_singleton in Hin. discriminate.
Defined.

(** X8 on a library whose third amplitude is above 100. *)
Lemma mmb_amp_column_logged_all_or_nothing_run :
  ∃ xobs,
    get_parameter_values spectra_mmb 0.25%float = Ok xobs ∧
    length xobs = 3%nat.
Proof.
  destruct (mmb_amp_column_logged_all_or_nothing spectra_mmb 0.25%float 1 0)
    as (xobs & Hx & Hlen & _).
  - split; [reflexivity | by repeat constructor].
  - vm_compute. reflexivity.
  - cbn. lia.
  - reflexivity.
  - by exists xobs.
Defined.

(** X9 on the fit of [Sample.fitted]. *)
Lemma fit_changes_only_the_fit_attributes_run :
  length fitted = 1%nat ∧
  ∃ gp', fitted !! 0%nat = Some gp' ∧
    GaussProc.x gp' = GaussProc.x unfitted ∧
    GaussProc.par_dict gp' = GaussProc.par_dict unfitted ∧
    GaussProc.pmax gp' = GaussProc.pmax unfitted.
Proof.
  edestruct (fit_changes_only_the_fit_attributes
               [1e-9%float] [(-14)%float] [unfitted] 2 2 4 0.25%float 2 tape)
    as [Hlen Hall].
  - vm_compute. reflexivity.
  - destruct (Hall 0%nat unfitted eq_refl)
      as (gp' & Hgp' & Hx & _ & _ & Hd & _ & Hmax & _).
    split; [exact Hlen|]. by exists gp'.
Defined.

(** X10 on one sampler with a chain of one entry. *)
Lemma closing_loop_succeeds_on_matching_chains_run :
  ∃ fitted, populate [(-14)%float] [one_entry] [unfitted] (seq 0 1) = Ok fitted.
Proof.
  apply (@closing_loop_succeeds_on_matching_chains emcee
           [(-14)%float] [one_entry] [unfitted] 1).
  - cbn. lia.
  - cbn. lia.
  - cbn. lia.
  - intros [|ii] s Hii; [|lia]. intros [= <-]. split; [discriminate|reflexivity].
Defined.

(** X11 on the fit of [Sample.fitted]. *)
Lemma fitted_models_can_be_sampled_run :
  ∃ gp' center,
    fitted !! 0%nat = Some gp' ∧ fitted_model gp' ∧
    [(-14)%float] !! 0%nat = Some center ∧
    GaussProc.center_spectra gp' = Some center.
Proof.
  eapply (fitted_models_can_be_sampled
            [1e-9%float] [(-14)%float] [unfitted] 2 2 4 0.25%float 2 tape _ _ _
            0 unfitted).
  - vm_compute. reflexivity.
  - cbn. lia.
  - reflexivity.
  - reflexivity.
Defined.

(** X12 on the prediction of [Sample.fitted]. *)
Lemma predictor_returns_one_strain_per_model_run :
  length gp_list = length fitted ∧ (1 ≤ length fitted)%nat.
Proof.
  edestruct (@predictor_returns_one_strain_per_model numpy george python
               fitted gp_list [0.5%float]) as (Hlen & Hpos & _).
  - vm_compute. reflexivity.
  - by split.
Defined.

(** X13 on [Sample.fitted]. *)
Lemma predictor_returns_on_fitted_models_run :
  ∃ hc rho rho_pred,
    hc_from_gp fitted gp_list [0.5%float] = Ok (hc, rho, rho_pred) ∧
    length hc = length fitted.
Proof.
  apply (@predictor_returns_on_fitted_models numpy george python
           fitted gp_list [0.5%float] fitted0).
  - reflexivity.
  - reflexivity.
  - intros [|ii] g gp Hg Hgp; [|discriminate].
    injection Hgp as <-. split; eexists; reflexivity.
Defined.

(** X15 on one processor. *)
Lemma sampling_needs_two_processors_run :
  sample_hc_from_gp fitted gp_list [0.5%float] 3 1 (fun _ => tape)
    (fun i => i)
  = ([few_samples_warning],
     Raise (ValueError "Number of processes must be at least 1")).
Proof.
  apply (@sampling_needs_two_processors numpy george
           fitted gp_list [0.5%float] 3 1 (fun _ => tape) (fun i => i)).
  - cbn. lia.
  - lia.
Defined.

(** X16 on the model of [unfitted_built]. *)
Lemma sampling_fails_when_a_model_has_no_chain_run :
  ∃ e, (sample_hc_from_gp [unfitted] gp_list [0.5%float] 3 2
          (fun _ => tape) (fun i => i)).2 = Raise e.
Proof.
  eapply (@sampling_fails_when_a_model_has_no_chain numpy george
            [unfitted] gp_list [0.5%float] 3 2 (fun _ => tape) (fun i => i) 0);
    reflexivity.
Defined.

(** X17 on one walker. *)
Lemma fit_needs_two_walkers_run :
  fit_kernel_params [1e-9%float] [(-14)%float] [unfitted] 2 1 4 0.25%float 2 tape
  = ([], Raise (ValueError "Number of processes must be at least 1")).
Proof.
  apply (@fit_needs_two_walkers numpy george emcee).
  - discriminate.
  - left. lia.
Defined.

(** X18 on three draws from the chain of [fitted0]. *)
Lemma sampled_entries_are_strains_of_chain_draws_run :
  ∃ hc samples,
    length hc = 3%nat ∧
    get_chain fitted0 (chain_var_of fitted0) = Ok samples ∧
    drawn_strain fitted0 (center_attr_of fitted0) [0.5%float] samples
                 (hc !! 0%nat).
Proof.
  edestruct (@sampled_entries_are_strains_of_chain_draws numpy george
               [0%float] fitted0 [0.5%float] 3 tape)
    as (_ & _ & Hlen & samples & Hchain & _ & Hall).
  - vm_compute. reflexivity.
  - eexists _, samples. split; [exact Hlen|]. split; [exact Hchain|].
    apply Hall. cbn. lia.
Defined.

(** X19 on the training set of [Sample.training]. *)
Lemma one_model_per_frequency_on_shared_data_run :
  length built.1 = length training.1.1.1 ∧
  ∃ name,
    name ∈ kernel_list ∧ lower name = lower "expsquaredkernel" ∧
    kernel_len name (np_full 1 2%float) 1 = Ok built.2.
Proof.
  destruct (@one_model_per_frequency_on_shared_data extrema george kernels
              training.1.1.1 ["hard_time"] xobs training.1.1.2 training.1.2
              "expsquaredkernel" [] built.1 built.2)
    as (_ & _ & Hlen & d & name & _ & _ & Hin & Hlow & Hnum & _).
  - vm_compute. reflexivity.
  - split; [exact Hlen|]. by exists name.
Defined.

(** X21 on the name "NotAKernel". *)
Lemma unknown_kernel_stops_at_the_first_model_run :
  ∃ msg,
    create_gp_kernels training.1.1.1 ["hard_time"] xobs training.1.1.2
      training.1.2 "NotAKernel"
    = (GaussProc.unexpected_kernel_report "NotAKernel", Raise (ValueError msg)).
Proof.
  eapply (@unknown_kernel_stops_at_the_first_model extrema george kernels).
  - vm_compute. reflexivity.
  - discriminate.
  - vm_compute. reflexivity.
  - vm_compute. reflexivity.
  - intros name Hin. cbn in Hin.
    repeat (apply elem_of_cons in Hin as [->|Hin]; [discriminate|]).
    by apply elem_of_nil in Hin.
Defined.

(** X22 on the training set of [Sample.training]. *)
Lemma models_are_built_for_known_kernel_on_wide_data_run :
  ∃ gp_george,
    create_gp_kernels training.1.1.1 ["hard_time"] xobs training.1.1.2
      training.1.2 "expsquaredkernel"
    = ([], Ok (gp_george, 2%nat)).
Proof.
  eapply (@models_are_built_for_known_kernel_on_wide_data extrema george
            kernels _ _ _ _ _ _ _ "ExpSquaredKernel").
  - vm_compute. reflexivity.
  - discriminate.
  - cbn. apply elem_of_cons; right. apply elem_of_cons; by left.
  - reflexivity.
  - intros name' _ _. reflexivity.
  - repeat (constructor; [cbn; lia|]). constructor.
  - repeat (constructor; [cbn; lia|]). constructor.
Defined.

(** X23 on the models of [Sample.fitted]. *)
Lemma prediction_models_are_built_from_the_map_vectors_run :
  length gp_list = Nat.min (length (fobs spectra)) (length fitted) ∧
  ∃ gp0, fitted !! 0%nat = Some gp0.
Proof.
  destruct (@prediction_models_are_built_from_the_map_vectors numpy
              george kernels spectra fitted gp_list)
    as (Hlen & gp0 & Hgp0 & _).
  - vm_compute. reflexivity.
  - split; [exact Hlen|]. by exists gp0.
Defined.

(** X24 on the model of [unfitted_built]. *)
Lemma unfitted_models_cannot_be_set_up_run :
  set_up_predictions spectra [unfitted]
    = Raise (UnboundLocalError "kernel_map_attr") ∧
  set_up_predictions no_fobs [unfitted] = Ok [].
Proof.
  split.
  - apply (@unfitted_models_cannot_be_set_up numpy george kernels
             spectra [unfitted] unfitted eq_refl eq_refl eq_refl).
    discriminate.
  - by apply (@unfitted_models_cannot_be_set_up numpy george kernels
                no_fobs [unfitted] unfitted eq_refl eq_refl eq_refl).
Defined.

(** X25 on a library without frequencies. *)
Lemma short_frequency_axis_breaks_the_predictor_run :
  length ([] : list GP) = length (fobs no_fobs) ∧
  ∃ e, hc_from_gp fitted [] [0.5%float] = Raise e.
Proof.
  apply (@short_frequency_axis_breaks_the_predictor numpy george kernels
           python no_fobs fitted [] [0.5%float]).
  - reflexivity.
  - cbn. lia.
Defined.

(** X26 on the fit of [Sample.fitted]. *)
Lemma fit_then_set_up_uses_the_best_chain_entry_run :
  ∃ model chain lnprob best kernel_map p0,
    fitted !! 0%nat = Some model ∧
    GaussProc.emcee_flatchain model = Some chain ∧
    GaussProc.emcee_flatlnprob model = Some lnprob ∧
    GaussProc.emcee_kernel_map model = Some kernel_map ∧
    np_argmax lnprob = Ok best ∧
    chain !! best = Some kernel_map ∧
    kernel_map !! 0%nat = Some p0 ∧
    gp_compute (GaussProc.kernel model) (np_exp p0)
               (map np_exp (drop 1 kernel_map))
               (GaussProc.x model) (GaussProc.yerr model)
      = Ok [2.7182818284590451%float; 2.7182818284590451%float].
Proof.
  eapply (@fit_then_set_up_uses_the_best_chain_entry numpy george
            kernels emcee spectra [1e-9%float] [(-14)%float] [unfitted] 2 2 4
            0.25%float 2 tape _ fitted _ gp_list).
  - vm_compute. reflexivity.
  - cbn. lia.
  - by repeat constructor.
  - vm_compute. reflexivity.
  - cbn. lia.
  - reflexivity.
Defined.

(** X27 on [Sample.spectra]: seven frequencies, three training samples. *)
Lemma trained_models_are_consistent_and_fitted_run :
  length trained = 7%nat ∧
  ∀ ii gp, trained !! ii = Some gp →
    GaussProc.x gp = xobs ∧ length (GaussProc.y gp) = 3%nat ∧ fitted_model gp.
Proof.
  edestruct (@trained_models_are_consistent_and_fitted numpy extrema scipy
               constants george kernels emcee spectra 7 2 4 0.25%float
               0.25%float "median" "expsquaredkernel" 2 tape)
    as (test_ind & xobs' & _ & _ & Hx & _ & Hlen & _ & Hall).
  - cbn. lia.
  - reflexivity.
  - lia.
  - vm_compute. reflexivity.
  - assert (xobs' = xobs) as -> by (by injection Hx).
    split; [exact Hlen|]. intros ii gp Hgp.
    destruct (Hall ii gp Hgp) as (Hgx & Hgy & _ & _ & Hfit).
    split_and!; done.
Defined.

(** X28 on a vector whose second component is 21. *)
Lemma posterior_outside_the_box_still_asks_the_likelihood_run :
  GaussProc.lnprob unfitted [0.5%float; 21%float] = Ok neg_infinity.
Proof.
  destruct (posterior_outside_the_box_still_asks_the_likelihood
              _ _ _ _ _ _ _ [0.5%float; 21%float] unfitted_built eq_refl)
    as (_ & Hvalue & _).
  - right. left. by left.
  - apply (Hvalue (-1)%float); [reflexivity|reflexivity|discriminate].
Defined.

End MoreRuns.
